(** * VelocityRouter (src/core/router.js): route matching, parameter
      extraction, template substitution and the navigation controller.

    JavaScript strings are modelled as [string] (sequences of code units
    below 256).  The regular expressions of the source are kept as their
    source text and given meaning by a small backtracking engine for the
    fragment of the ECMAScript pattern language that the router uses. *)

From Stdlib Require Import String Ascii List Bool Arith Lia ZArith.
From Stdlib Require Import DecimalString.
Import ListNotations.
Open Scope string_scope.
Open Scope list_scope.
Open Scope nat_scope.

(** String concatenation, JavaScript's [+] on strings. *)
Infix "+++" := String.append (right associativity, at level 60).

(* ------------------------------------------------------------------ *)
(** ** JavaScript strings *)

Module JsString.

Definition code (c : ascii) : nat := nat_of_ascii c.

(** LineTerminator code units (the ones below 256). *)
Definition is_line_terminator (c : ascii) : bool :=
  (code c =? 10) || (code c =? 13).

(** WhiteSpace and LineTerminator code units stripped by [trim]. *)
Definition is_white_space (c : ascii) : bool :=
  existsb (Nat.eqb (code c)) [9; 10; 11; 12; 13; 32; 160].

Definition is_digit (c : ascii) : bool :=
  (48 <=? code c) && (code c <=? 57).

Definition is_alnum (c : ascii) : bool :=
  is_digit c
  || ((65 <=? code c) && (code c <=? 90))
  || ((97 <=? code c) && (code c <=? 122)).

Fixpoint mem (c : ascii) (s : string) : bool :=
  match s with
  | "" => false
  | String d s' => Ascii.eqb c d || mem c s'
  end.

(** [s.startsWith(p)] *)
Fixpoint startsWith (p s : string) : bool :=
  match p, s with
  | "", _ => true
  | String a p', String b s' => Ascii.eqb a b && startsWith p' s'
  | _, "" => false
  end.

(** [s.slice(n)] for [0 <= n] *)
Fixpoint drop (n : nat) (s : string) : string :=
  match n, s with
  | 0, _ => s
  | S n', String _ s' => drop n' s'
  | S _, "" => ""
  end.

(** [s.slice(0, n)] for [0 <= n] *)
Fixpoint take (n : nat) (s : string) : string :=
  match n, s with
  | 0, _ => ""
  | S n', String c s' => String c (take n' s')
  | S _, "" => ""
  end.

(** [s.split(sep)] for a separator of one code unit: the pieces between
    the occurrences of [sep]; always at least one piece. *)
Fixpoint split_go (sep : ascii) (cur : string) (s : string) : list string :=
  match s with
  | "" => [cur]
  | String c s' =>
      if Ascii.eqb c sep then cur :: split_go sep "" s'
      else split_go sep (cur +++ String c "") s'
  end.

Definition split (sep : ascii) (s : string) : list string := split_go sep "" s.

(** [a.join(sep)] *)
Fixpoint join (sep : string) (l : list string) : string :=
  match l with
  | [] => ""
  | [x] => x
  | x :: l' => x +++ sep +++ join sep l'
  end.

Fixpoint trimStart (s : string) : string :=
  match s with
  | String c s' => if is_white_space c then trimStart s' else s
  | "" => ""
  end.

Fixpoint rev (s : string) : string :=
  match s with
  | "" => ""
  | String c s' => rev s' +++ String c ""
  end.

Definition trimEnd (s : string) : string := rev (trimStart (rev s)).

(** [s.trim()] *)
Definition trim (s : string) : string := trimEnd (trimStart s).

(** Position of the first occurrence of [p] in [s]: the part of [s]
    before it and the part after it. *)
Fixpoint find (p s : string) : option (string * string) :=
  if startsWith p s then Some ("", drop (String.length p) s)
  else match s with
       | "" => None
       | String c s' =>
           match find p s' with
           | Some (b, a) => Some (String c b, a)
           | None => None
           end
       end.

End JsString.

(* ------------------------------------------------------------------ *)
(** ** Regular expressions

    The patterns of router.js use literal characters, identity escapes
    ([\c] for a non-alphanumeric [c]), [.], character classes without
    ranges, the greedy quantifiers [*] and [+], capturing groups and the
    assertions [^] and [$].  [parse] reads that fragment from the source
    text of a pattern and answers [None] on anything else; [run] is the
    backtracking matcher, giving all the ways a pattern can match from a
    position in the order in which backtracking tries them. *)

Module Regex.

Inductive re : Type :=
| Empty
| Chr (c : ascii)
| Any
| Class (neg : bool) (cs : string)
| Bol
| Eol
| Seq (a b : re)
| Star (a : re)
| Plus (a : re)
| Group (i : nat) (a : re).

(** *** Reading a pattern *)

Inductive mode : Type :=
| MNormal
| MEscape
| MClassOpen
| MClass (neg : bool) (acc : string)
| MClassEscape (neg : bool) (acc : string)
| MClassDash (neg : bool) (acc : string).

(** [p_atoms] holds the atoms of the sequence being read, last one
    first; [p_stack] the enclosing sequences with the number of the group
    that was opened in each. *)
Record pstate : Type := mkPstate {
  p_mode : mode;
  p_atoms : list re;
  p_stack : list (nat * list re);
  p_next : nat
}.

Fixpoint seq_of (l : list re) : re :=
  match l with
  | [] => Empty
  | [a] => a
  | a :: l' => Seq a (seq_of l')
  end.

Definition push_atom (a : re) (st : pstate) : pstate :=
  mkPstate MNormal (a :: p_atoms st) (p_stack st) (p_next st).

Definition quantify (q : re -> re) (st : pstate) : option pstate :=
  match p_atoms st with
  | [] => None
  | Bol :: _ | Eol :: _ | Star _ :: _ | Plus _ :: _ => None
  | a :: rest => Some (mkPstate MNormal (q a :: rest) (p_stack st) (p_next st))
  end.

Definition set_mode (m : mode) (st : pstate) : pstate :=
  mkPstate m (p_atoms st) (p_stack st) (p_next st).

Definition pstep (c : ascii) (st : pstate) : option pstate :=
  match p_mode st with
  | MNormal =>
      match c with
      | "\"%char => Some (set_mode MEscape st)
      | "("%char =>
          Some (mkPstate MNormal [] ((p_next st, p_atoms st) :: p_stack st)
                         (S (p_next st)))
      | ")"%char =>
          match p_stack st with
          | [] => None
          | (i, outer) :: stack' =>
              Some (mkPstate MNormal
                             (Group i (seq_of (List.rev (p_atoms st))) :: outer)
                             stack' (p_next st))
          end
      | "["%char => Some (set_mode MClassOpen st)
      | "."%char => Some (push_atom Any st)
      | "^"%char => Some (push_atom Bol st)
      | "$"%char => Some (push_atom Eol st)
      | "*"%char => quantify Star st
      | "+"%char => quantify Plus st
      | "?"%char | "|"%char | "{"%char | "}"%char | "]"%char => None
      | _ => Some (push_atom (Chr c) st)
      end
  | MEscape =>
      if JsString.is_alnum c then None else Some (push_atom (Chr c) st)
  | MClassOpen =>
      match c with
      | "^"%char => Some (set_mode (MClass true "") st)
      | "]"%char => Some (push_atom (Class false "") st)
      | "\"%char => Some (set_mode (MClassEscape false "") st)
      | _ => Some (set_mode (MClass false (String c "")) st)
      end
  | MClass neg acc =>
      match c with
      | "]"%char => Some (push_atom (Class neg acc) st)
      | "\"%char => Some (set_mode (MClassEscape neg acc) st)
      | "-"%char =>
          match acc with
          | "" => Some (set_mode (MClass neg "-") st)
          | _ => Some (set_mode (MClassDash neg acc) st)
          end
      | _ => Some (set_mode (MClass neg (acc +++ String c "")) st)
      end
  | MClassEscape neg acc =>
      if JsString.is_alnum c then None
      else Some (set_mode (MClass neg (acc +++ String c "")) st)
  | MClassDash neg acc =>
      match c with
      | "]"%char => Some (push_atom (Class neg (acc +++ "-")) st)
      | _ => None
      end
  end.

Fixpoint parse_from (s : string) (st : pstate) : option re :=
  match s with
  | "" =>
      match p_mode st, p_stack st with
      | MNormal, [] => Some (seq_of (List.rev (p_atoms st)))
      | _, _ => None
      end
  | String c s' =>
      match pstep c st with
      | Some st' => parse_from s' st'
      | None => None
      end
  end.

(** [new RegExp(src)]: [None] stands for a pattern outside the fragment
    (which includes the patterns on which the constructor throws). *)
Definition parse (src : string) : option re :=
  parse_from src (mkPstate MNormal [] [] 1).

(** A regular expression literal [/src/] of the source; every literal of
    router.js is in the fragment (see [literals_parse]), so the default,
    a pattern that matches nothing, is never used. *)
Definition literal (src : string) : re :=
  match parse src with
  | Some r => r
  | None => Class false ""
  end.

(** *** Matching *)

Record mstate : Type := mkMstate {
  m_pos : nat;                      (* index of the next code unit *)
  m_rest : string;                  (* the input from that index on *)
  m_caps : list (nat * string)      (* captures, most recent first *)
}.

Definition eat (ok : ascii -> bool) (st : mstate) : list mstate :=
  match m_rest st with
  | String d s' =>
      if ok d then [mkMstate (S (m_pos st)) s' (m_caps st)] else []
  | "" => []
  end.

(** Greedy repetition: iterations that consume nothing are not tried
    again, so the number of iterations is bounded by the input left. *)
Fixpoint star_fuel (f : mstate -> list mstate) (n : nat) (st : mstate)
  : list mstate :=
  match n with
  | 0 => [st]
  | S n' =>
      flat_map (star_fuel f n')
               (filter (fun st' => m_pos st <? m_pos st') (f st)) ++ [st]
  end.

Definition star (f : mstate -> list mstate) (st : mstate) : list mstate :=
  star_fuel f (S (String.length (m_rest st))) st.

Fixpoint run (r : re) (st : mstate) : list mstate :=
  match r with
  | Empty => [st]
  | Chr c => eat (Ascii.eqb c) st
  | Any => eat (fun d => negb (JsString.is_line_terminator d)) st
  | Class neg cs => eat (fun d => xorb neg (JsString.mem d cs)) st
  | Bol => if m_pos st =? 0 then [st] else []
  | Eol => match m_rest st with "" => [st] | _ => [] end
  | Seq a b => flat_map (run b) (run a st)
  | Star a => star (run a) st
  | Plus a => flat_map (star (run a)) (run a st)
  | Group i a =>
      map (fun st' =>
             mkMstate (m_pos st') (m_rest st')
                      ((i, JsString.take (m_pos st' - m_pos st) (m_rest st))
                         :: m_caps st'))
          (run a st)
  end.

(** The result of a successful match: where it starts, the matched text,
    the input after it and the captures. *)
Record result : Type := mkResult {
  r_index : nat;
  r_match : string;
  r_after : string;
  r_caps : list (nat * string)
}.

Definition match_at (r : re) (pos : nat) (s : string) : option result :=
  match run r (mkMstate pos s []) with
  | st :: _ =>
      Some (mkResult pos (JsString.take (m_pos st - pos) s) (m_rest st)
                     (m_caps st))
  | [] => None
  end.

(** The leftmost match at or after [pos], where [s] is the input from
    [pos] on; with it the text that was skipped. *)
Fixpoint search (r : re) (pos : nat) (s : string) : option (string * result) :=
  match match_at r pos s with
  | Some res => Some ("", res)
  | None =>
      match s with
      | "" => None
      | String c s' =>
          match search r (S pos) s' with
          | Some (skipped, res) => Some (String c skipped, res)
          | None => None
          end
      end
  end.

(** [r.exec(s)] for a pattern without the [g] flag. *)
Definition exec (r : re) (s : string) : option result :=
  option_map snd (search r 0 s).

(** [r.test(s)] *)
Definition test (r : re) (s : string) : bool :=
  match exec r s with Some _ => true | None => false end.

(** [matches[i]] of an exec result; [None] is [undefined]. *)
Fixpoint assoc (i : nat) (l : list (nat * string)) : option string :=
  match l with
  | [] => None
  | (j, v) :: l' => if i =? j then Some v else assoc i l'
  end.

Definition group (res : result) (i : nat) : option string :=
  match i with
  | 0 => Some (r_match res)
  | _ => assoc i (r_caps res)
  end.

(** Number of capturing groups of a pattern. *)
Fixpoint ngroups (r : re) : nat :=
  match r with
  | Seq a b => ngroups a + ngroups b
  | Star a | Plus a => ngroups a
  | Group _ a => S (ngroups a)
  | _ => 0
  end.

(** *** Replacement

    [expand] is GetSubstitution: the replacement patterns [$$], [$&],
    [$`], [$'] and [$n], [$nn] of a replacement string; [n] is the number
    of captures of the match. *)

Definition digit_val (c : ascii) : nat := JsString.code c - 48.

Definition capture (caps : list (nat * string)) (i : nat) : string :=
  match assoc i caps with Some v => v | None => "" end.

Fixpoint expand (matched before after : string) (caps : list (nat * string))
  (n : nat) (t : string) : string :=
  match t with
  | "" => ""
  | String c t1 =>
      if negb (Ascii.eqb c "$") then
        String c (expand matched before after caps n t1)
      else
        match t1 with
        | "" => "$"
        | String d t2 =>
            if Ascii.eqb d "$" then
              String "$" (expand matched before after caps n t2)
            else if Ascii.eqb d "&" then
              matched +++ expand matched before after caps n t2
            else if Ascii.eqb d "`" then
              before +++ expand matched before after caps n t2
            else if Ascii.eqb d "'" then
              after +++ expand matched before after caps n t2
            else if JsString.is_digit d then
              let one := digit_val d in
              let single :=
                if (1 <=? one) && (one <=? n) then
                  capture caps one +++ expand matched before after caps n t2
                else String "$" (expand matched before after caps n t1) in
              match t2 with
              | String e t3 =>
                  let two := 10 * one + digit_val e in
                  if JsString.is_digit e && (1 <=? two) && (two <=? n) then
                    capture caps two +++ expand matched before after caps n t3
                  else single
              | "" => single
              end
            else String "$" (expand matched before after caps n t1)
        end
  end.

(** A replacer gets the whole input and the match.  A replacement string
    is the replacer that expands its patterns; a replacement function is
    used as it is. *)
Definition replacer : Type := string -> result -> string.

Definition template (n : nat) (t : string) : replacer :=
  fun input res =>
    expand (r_match res) (JsString.take (r_index res) input) (r_after res)
           (r_caps res) n t.

(** [s.replace(/r/g, f)]: every match from left to right; after an empty
    match the search moves on by one code unit. *)
Fixpoint replace_loop (fuel : nat) (r : re) (f : result -> string)
  (pos : nat) (s : string) : string :=
  match fuel with
  | 0 => s
  | S fuel' =>
      match search r pos s with
      | None => s
      | Some (skipped, res) =>
          skipped +++ f res +++
          match r_match res with
          | "" =>
              match r_after res with
              | "" => ""
              | String c s' =>
                  String c (replace_loop fuel' r f (S (r_index res)) s')
              end
          | _ =>
              replace_loop fuel' r f
                           (r_index res + String.length (r_match res))
                           (r_after res)
          end
      end
  end.

Definition replace_all (r : re) (f : replacer) (s : string) : string :=
  replace_loop (S (String.length s)) r (f s) 0 s.

(** The matches that a loop [while ((m = r.exec(s)) !== null)] sees for a
    pattern with the [g] flag whose matches are never empty. *)
Fixpoint exec_loop (fuel : nat) (r : re) (pos : nat) (s : string)
  : list result :=
  match fuel with
  | 0 => []
  | S fuel' =>
      match search r pos s with
      | None => []
      | Some (_, res) =>
          match r_match res with
          | "" => []
          | _ =>
              res :: exec_loop fuel' r
                               (r_index res + String.length (r_match res))
                               (r_after res)
          end
      end
  end.

Definition exec_all (r : re) (s : string) : list result :=
  exec_loop (S (String.length s)) r 0 s.

(** [s.replace(pat, f)] for a string [pat]: the first occurrence only. *)
Definition replace_first (pat : string) (f : replacer) (s : string) : string :=
  match JsString.find pat s with
  | None => s
  | Some (before, after) =>
      before +++ f s (mkResult (String.length before) pat after []) +++ after
  end.

End Regex.

(* ------------------------------------------------------------------ *)
(** ** JavaScript values *)

Module JsValue.

(** The values that reach the router's string handling: primitives,
    plain objects (own properties, in insertion order), DOM elements
    (opaque, with the name of their interface), and functions and other
    objects built into the engine or the page (opaque, with a name and
    the text that [String] gives for them; a function written in the
    page prints as its source text).  Numbers are the integers that a
    double holds exactly, up to 2^53 in magnitude. *)
#[warnings="-register-all"]
Inductive value : Type :=
| VUndefined
| VNull
| VBool (b : bool)
| VNum (n : Z)
| VStr (s : string)
| VObj (fields : list (string * value))
| VElem (iface : string) (id : nat)
| VNative (name : string) (text : string).

(** ToBoolean *)
Definition truthy (v : value) : bool :=
  match v with
  | VUndefined | VNull => false
  | VBool b => b
  | VNum n => negb (Z.eqb n 0)
  | VStr s => negb (String.eqb s "")
  | VObj _ | VElem _ _ | VNative _ _ => true
  end.

Definition string_of_Z (n : Z) : string :=
  NilZero.string_of_int (Z.to_int n).

(** [String(v)], for the values that [printable] accepts: a number
    beyond 2^53 prints in another way than as its digits, and an object
    with a [toString] of its own does not print as "[object Object]". *)
Definition String_ (v : value) : string :=
  match v with
  | VUndefined => "undefined"
  | VNull => "null"
  | VBool true => "true"
  | VBool false => "false"
  | VNum n => string_of_Z n
  | VStr s => s
  | VObj _ => "[object Object]"
  | VElem iface _ => "[object " +++ iface +++ "]"
  | VNative _ text => text
  end.

(** [v === false] *)
Definition is_false (v : value) : bool :=
  match v with VBool false => true | _ => false end.

Fixpoint lookup (k : string) (fields : list (string * value)) : option value :=
  match fields with
  | [] => None
  | (k', v) :: fields' => if String.eqb k k' then Some v else lookup k fields'
  end.

(** [o[k] = v] on a plain object, for a key other than [__proto__]
    (which names the prototype, not a property): an own property keeps
    its place. *)
Fixpoint assign (k : string) (v : value) (fields : list (string * value))
  : list (string * value) :=
  match fields with
  | [] => [(k, v)]
  | (k', v') :: fields' =>
      if String.eqb k k' then (k, v) :: fields'
      else (k', v') :: assign k v fields'
  end.

(** The own property [k] of [v], [undefined] when [v] has none: what
    [Object.hasOwn(v, k) ? v[k] : undefined] gives for an object and
    for the length of a string. *)
Definition get (v : value) (k : string) : value :=
  match v with
  | VObj fields =>
      match lookup k fields with Some x => x | None => VUndefined end
  | VStr s =>
      if String.eqb k "length" then VNum (Z.of_nat (String.length s))
      else VUndefined
  | _ => VUndefined
  end.

(** The number that the digits of [k] write. *)
Fixpoint digits (k : string) (n : N) : option N :=
  match k with
  | "" => Some n
  | String c k' =>
      if JsString.is_digit c
      then digits k' (10 * n + N.of_nat (JsString.code c - 48))%N
      else None
  end.

(** [k] as an array index: the canonical text of an integer ("0", "7",
    "12", not "" and not "07"). *)
Definition index (k : string) : option N :=
  match k with
  | "" => None
  | String c k' =>
      if (JsString.code c =? 48) && negb (String.eqb k' "") then None
      else digits k 0%N
  end.

(** The code unit of [s] at [i], as a string. *)
Definition at_ (s : string) (i : N) : option string :=
  if (i <? N.of_nat (String.length s))%N then
    match String.get (N.to_nat i) s with
    | Some c => Some (String c "")
    | None => None
    end
  else None.

(** [v?.[k]].  Own properties are looked up in the value; for what is
    not an own property here, [inherited v k] is what the lookup yields:
    the property that the prototype chain of the engine has under the
    name, [undefined] when there is none. *)
Definition member (inherited : value -> string -> value) (v : value)
  (k : string) : value :=
  match v with
  | VUndefined | VNull => VUndefined
  | VObj fields =>
      match lookup k fields with Some x => x | None => inherited v k end
  | VStr s =>
      if String.eqb k "length" then VNum (Z.of_nat (String.length s))
      else
        match index k with
        | Some i =>
            match at_ s i with Some c => VStr c | None => inherited v k end
        | None => inherited v k
        end
  | _ => inherited v k
  end.


End JsValue.

(* ------------------------------------------------------------------ *)
(** ** Route patterns: [pathToRegex], [extractKeys], [extractParams] *)

Module Pattern.

Import JsValue.

(** The pattern sources of router.js, as written there. *)
Definition catchAllRouteRegex : string := "\[\.\.\.([^\]]+)\]".
Definition dynamicRouteRegex : string := "\[([^\]]+)\]".
Definition escapeRegex : string := "[-\/\\^$*+?.()|[\]{}]".
Definition restoreCatchAllRegex : string := "\\\(\\\.\\\*\\\)".
Definition restoreDynamicRegex : string := "\\\(\\\[\\^\\\/\\\]\\\+\\\)".

(** [s.replace(/src/g, t)] for a replacement string [t]. *)
Definition replace_g (src t s : string) : string :=
  let r := Regex.literal src in
  Regex.replace_all r (Regex.template (Regex.ngroups r) t) s.

Definition bind {A B : Type} (o : option A) (f : A -> option B) : option B :=
  match o with Some a => f a | None => None end.

(** The text from which [pathToRegex] builds its [RegExp]. *)
Definition pathToRegexSource (path : string) : string :=
  (* Handle catch-all routes [...param] *)
  let pattern := replace_g catchAllRouteRegex "(.*)" path in
  (* Handle dynamic routes [param] *)
  let pattern := replace_g dynamicRouteRegex "([^/]+)" pattern in
  (* Escape special regex characters *)
  let pattern := replace_g escapeRegex "\$&" pattern in
  (* Restore replaced patterns *)
  let pattern := replace_g restoreCatchAllRegex "(.*)" pattern in
  let pattern := replace_g restoreDynamicRegex "([^/]+)" pattern in
  "^" +++ pattern +++ "$".

(** [new RegExp(...)]: [None] when the text is outside the fragment of
    [Regex.parse]. *)
Definition pathToRegex (path : string) : option Regex.re :=
  Regex.parse (pathToRegexSource path).

Record key : Type := mkKey { name : string; catchAll : bool }.

Definition group1 (res : Regex.result) : string :=
  match Regex.group res 1 with Some v => v | None => "" end.

Definition extractKeys (path : string) : list key :=
  let catchAllRegex := Regex.literal catchAllRouteRegex in
  let dynamicRegex := Regex.literal dynamicRouteRegex in
  map (fun m => mkKey (group1 m) true) (Regex.exec_all catchAllRegex path)
  ++ map (fun m => mkKey (group1 m) false)
         (filter (fun m => negb (JsString.startsWith "..." (group1 m)))
                 (Regex.exec_all dynamicRegex path)).

Definition of_option (o : option string) : value :=
  match o with Some s => VStr s | None => VUndefined end.

(** [params[key.name] = matches[index + 1]] for the keys in order. *)
Fixpoint assignParams (res : Regex.result) (keys : list key) (index : nat)
  (params : list (string * value)) : list (string * value) :=
  match keys with
  | [] => params
  | k :: keys' =>
      assignParams res keys' (S index)
        (assign (name k) (of_option (Regex.group res (index + 1))) params)
  end.

Definition extractParams (pathname : string) (regex : Regex.re)
  (keys : list key) : list (string * value) :=
  match Regex.exec regex pathname with
  | Some matches => assignParams matches keys 0 []
  | None => []
  end.

End Pattern.

(* ------------------------------------------------------------------ *)
(** ** JavaScript [Map]: entries in insertion order *)

Module JsMap.

Section Map.

Context {K V : Type} (eqb : K -> K -> bool).

Fixpoint get (k : K) (m : list (K * V)) : option V :=
  match m with
  | [] => None
  | (k', v) :: m' => if eqb k k' then Some v else get k m'
  end.

Definition has (k : K) (m : list (K * V)) : bool :=
  match get k m with Some _ => true | None => false end.

(** [m.set(k, v)]: a key that is present keeps its position. *)
Fixpoint set (k : K) (v : V) (m : list (K * V)) : list (K * V) :=
  match m with
  | [] => [(k, v)]
  | (k', v') :: m' =>
      if eqb k k' then (k, v) :: m' else (k', v') :: set k v m'
  end.

End Map.

(** Keys that may be [undefined] ([None]). *)
Definition okey_eqb (a b : option string) : bool :=
  match a, b with
  | Some x, Some y => String.eqb x y
  | None, None => true
  | _, _ => false
  end.

End JsMap.

(* ------------------------------------------------------------------ *)
(** ** The router

    The router object and the browser objects it works on ([document],
    [window], [history]) form the state; the asynchronous methods are
    modelled as state transformers that may throw.  Each call runs to
    completion; a call that arrives while a navigation is in flight is
    expressed by running it between [navigate_begin] and
    [navigate_finish].  The functions an application registers (handlers,
    guards, middleware, layouts, components, titles) are pure functions
    of the navigation context that return a value or throw.  The logger,
    lazy routes (dynamic [import]), the route metadata table, the
    listener registry behind [emit] and the re-initialisation of page
    scripts are left out. *)

Module Router.

Import JsValue.
Export Pattern.

(** How a call ends.  What is thrown is an [Error], of which the router
    reads the message only; a thrown value that has no message to read
    ([null], [undefined]) is outside the model. *)
Inductive outcome (A : Type) : Type :=
| Returns (a : A)
| Throws (message : string).

Arguments Returns {A} a.
Arguments Throws {A} message.

(** The navigation context handed to handlers, guards and middleware;
    [ctx_route] is the data of the matched route's configuration.  The
    context that [handle404] builds has neither [fullPath] nor [route].
    The functions bound into the context ([navigate], [redirect],
    [setTitle], [setMeta], [getLayoutData]) are not represented. *)
Record Context : Type := mkContext {
  ctx_path : string;
  ctx_fullPath : option string;
  ctx_params : list (string * value);
  ctx_query : list (string * value);
  ctx_route : value
}.

(** A registered function: its source text, which identifies it, and
    what a call answers.  The answer depends on the context alone, and
    the call changes nothing: a function that calls back into the router
    ([context.navigate], [context.redirect], [context.setTitle],
    [context.setMeta]) or that keeps a state of its own is outside the
    model. *)
Record fn : Type := mkFn {
  fn_name : string;
  fn_call : Context -> outcome value
}.

Inductive Handler : Type :=
| HFunction (f : fn)
| HString (url : string)
| HOther.                            (* null, undefined, an object ... *)

Inductive Layout : Type :=
| LFunction (f : fn)
| LName (layoutName : string).

Inductive Component : Type :=
| CFunction (f : fn)
| CName (componentName : string).

(** A title or a meta content: a static string or a function. *)
Inductive Text : Type :=
| TString (s : string)
| TFunction (f : fn).

(** The transition effects; an effect takes no argument, so it is given
    by what a call answers. *)
Record Transition : Type := mkTransition {
  tr_out : option (outcome value);
  tr_in : option (outcome value)
}.

Record NavOptions : Type := mkNavOptions {
  replace : bool;
  force : bool
}.

(** The [options] argument of [addRoute]; an entry of [children] is such
    an object as well, with its own [path] and [handler]. *)
#[warnings="-register-all"]
Inductive Options : Type := mkOptions {
  o_path : string;
  o_handler : Handler;
  o_preload : bool;
  o_cache : value;
  o_middleware : list fn;
  o_title : option Text;
  o_meta : list (string * Text);
  o_layout : option Layout;
  o_transition : string;
  o_guards : list fn;
  o_fetchHtml : bool;
  o_htmlPath : option string;
  o_template : option string;
  o_component : option Component;
  o_children : list Options;
  o_scrollToTop : value;
  o_keepAlive : bool
}.

Record RouteConfig : Type := mkRouteConfig {
  path : string;
  handler : Handler;
  preload : bool;
  cache : bool;
  middleware : list fn;
  title : option Text;
  meta : list (string * Text);
  layout : option Layout;
  transition : string;
  guards : list fn;
  fetchHtml : bool;
  htmlPath : option string;
  template : option string;
  component : option Component;
  nestedRoutes : list Options;
  scrollToTop : bool;
  keepAlive : bool;
  regex : Regex.re;
  keys : list key
}.

(** [currentRoute = { ...context, config }] *)
Record CurrentRoute : Type := mkCurrentRoute {
  cr_context : Context;
  cr_config : RouteConfig
}.

Record Response : Type := mkResponse {
  ok : bool;
  status : nat;
  text : string
}.

(** [{ path, timestamp }], the state object of a history entry. *)
Record HistoryState : Type := mkHistoryState {
  h_path : string;
  h_timestamp : Z
}.

(** What a run does that can be observed from outside. *)
Inductive event : Type :=
| EGuard (guardName : string)
| EMiddleware (middlewareName : string)
| EAcquire (routePath : string) (fullPath : option string)
| EFetch (url : string)
| ERender (content : value)
| EPushState (p : string)
| EReplaceState (p : string)
| ERouteChange (fullPath : option string).

(** The fields of the router object. *)
Record VelocityRouter : Type := mkRouter {
  routes : list (string * RouteConfig);
  middlewares : list fn;
  currentRoute : option CurrentRoute;
  pageCache : list (option string * value);
  layoutCache : list (string * value);
  routeParams : list (string * value);
  queryParams : list (string * value);
  layouts : list (string * fn);
  routeGuards : list (string * list fn);
  transitions : list (string * Transition);
  routeComponents : list (string * fn);
  scrollPositions : list (string * (Z * Z));
  defaultLayout : option Layout;
  isTransitioning : bool;
  transitionQueue : list (string * NavOptions)
}.

(** The browser: the address, the state objects of the session history
    (oldest entry first, the current entry last; [None] for an entry
    that the router did not make), the mount point with its style, the
    document head, the scroll offset, the pending [setTimeout] calls of
    [navigate], the clock, the network, [URLSearchParams], the
    properties that the values do not hold themselves ([prototypes v k]
    is what [v[k]] yields when [k] is none of the own properties that
    [v] has here: what the prototype chain of the engine has for it, or
    a member that the model leaves out, such as the functions bound
    into a context), the URLs that
    [history.pushState] and [history.replaceState] refuse (with the
    message of the error they throw, as for a URL of another origin),
    and the events so far (oldest first). *)
Record Browser : Type := mkBrowser {
  location : string;
  history : list (option HistoryState);
  loading : bool;
  app : value;
  opacity : string;
  documentTitle : string;
  metaTags : list (string * string);
  scroll : Z * Z;
  timers : list (string * NavOptions);
  now : Z;
  fetch : string -> outcome Response;
  urlSearchParams : string -> list (string * string);
  prototypes : value -> string -> value;
  refuses : string -> option string;
  trace : list event
}.

Definition set_routes (x : list (string * RouteConfig)) (r : VelocityRouter) : VelocityRouter :=
  mkRouter x (middlewares r) (currentRoute r) (pageCache r) (layoutCache
    r) (routeParams r) (queryParams r) (layouts r) (routeGuards r)
    (transitions r) (routeComponents r) (scrollPositions r)
    (defaultLayout r) (isTransitioning r) (transitionQueue r).

Definition set_middlewares (x : list fn) (r : VelocityRouter) : VelocityRouter :=
  mkRouter (routes r) x (currentRoute r) (pageCache r) (layoutCache r)
    (routeParams r) (queryParams r) (layouts r) (routeGuards r)
    (transitions r) (routeComponents r) (scrollPositions r)
    (defaultLayout r) (isTransitioning r) (transitionQueue r).

Definition set_currentRoute (x : option CurrentRoute) (r : VelocityRouter) : VelocityRouter :=
  mkRouter (routes r) (middlewares r) x (pageCache r) (layoutCache r)
    (routeParams r) (queryParams r) (layouts r) (routeGuards r)
    (transitions r) (routeComponents r) (scrollPositions r)
    (defaultLayout r) (isTransitioning r) (transitionQueue r).

Definition set_pageCache (x : list (option string * value)) (r : VelocityRouter) : VelocityRouter :=
  mkRouter (routes r) (middlewares r) (currentRoute r) x (layoutCache r)
    (routeParams r) (queryParams r) (layouts r) (routeGuards r)
    (transitions r) (routeComponents r) (scrollPositions r)
    (defaultLayout r) (isTransitioning r) (transitionQueue r).

Definition set_layoutCache (x : list (string * value)) (r : VelocityRouter) : VelocityRouter :=
  mkRouter (routes r) (middlewares r) (currentRoute r) (pageCache r) x
    (routeParams r) (queryParams r) (layouts r) (routeGuards r)
    (transitions r) (routeComponents r) (scrollPositions r)
    (defaultLayout r) (isTransitioning r) (transitionQueue r).

Definition set_routeParams (x : list (string * value)) (r : VelocityRouter) : VelocityRouter :=
  mkRouter (routes r) (middlewares r) (currentRoute r) (pageCache r)
    (layoutCache r) x (queryParams r) (layouts r) (routeGuards r)
    (transitions r) (routeComponents r) (scrollPositions r)
    (defaultLayout r) (isTransitioning r) (transitionQueue r).

Definition set_queryParams (x : list (string * value)) (r : VelocityRouter) : VelocityRouter :=
  mkRouter (routes r) (middlewares r) (currentRoute r) (pageCache r)
    (layoutCache r) (routeParams r) x (layouts r) (routeGuards r)
    (transitions r) (routeComponents r) (scrollPositions r)
    (defaultLayout r) (isTransitioning r) (transitionQueue r).

Definition set_layouts (x : list (string * fn)) (r : VelocityRouter) : VelocityRouter :=
  mkRouter (routes r) (middlewares r) (currentRoute r) (pageCache r)
    (layoutCache r) (routeParams r) (queryParams r) x (routeGuards r)
    (transitions r) (routeComponents r) (scrollPositions r)
    (defaultLayout r) (isTransitioning r) (transitionQueue r).

Definition set_routeGuards (x : list (string * list fn)) (r : VelocityRouter) : VelocityRouter :=
  mkRouter (routes r) (middlewares r) (currentRoute r) (pageCache r)
    (layoutCache r) (routeParams r) (queryParams r) (layouts r) x
    (transitions r) (routeComponents r) (scrollPositions r)
    (defaultLayout r) (isTransitioning r) (transitionQueue r).

Definition set_transitions (x : list (string * Transition)) (r : VelocityRouter) : VelocityRouter :=
  mkRouter (routes r) (middlewares r) (currentRoute r) (pageCache r)
    (layoutCache r) (routeParams r) (queryParams r) (layouts r)
    (routeGuards r) x (routeComponents r) (scrollPositions r)
    (defaultLayout r) (isTransitioning r) (transitionQueue r).

Definition set_routeComponents (x : list (string * fn)) (r : VelocityRouter) : VelocityRouter :=
  mkRouter (routes r) (middlewares r) (currentRoute r) (pageCache r)
    (layoutCache r) (routeParams r) (queryParams r) (layouts r)
    (routeGuards r) (transitions r) x (scrollPositions r) (defaultLayout
    r) (isTransitioning r) (transitionQueue r).

Definition set_scrollPositions (x : list (string * (Z * Z))) (r : VelocityRouter) : VelocityRouter :=
  mkRouter (routes r) (middlewares r) (currentRoute r) (pageCache r)
    (layoutCache r) (routeParams r) (queryParams r) (layouts r)
    (routeGuards r) (transitions r) (routeComponents r) x (defaultLayout
    r) (isTransitioning r) (transitionQueue r).

Definition set_defaultLayout (x : option Layout) (r : VelocityRouter) : VelocityRouter :=
  mkRouter (routes r) (middlewares r) (currentRoute r) (pageCache r)
    (layoutCache r) (routeParams r) (queryParams r) (layouts r)
    (routeGuards r) (transitions r) (routeComponents r) (scrollPositions
    r) x (isTransitioning r) (transitionQueue r).

Definition set_isTransitioning (x : bool) (r : VelocityRouter) : VelocityRouter :=
  mkRouter (routes r) (middlewares r) (currentRoute r) (pageCache r)
    (layoutCache r) (routeParams r) (queryParams r) (layouts r)
    (routeGuards r) (transitions r) (routeComponents r) (scrollPositions
    r) (defaultLayout r) x (transitionQueue r).

Definition set_transitionQueue (x : list (string * NavOptions)) (r : VelocityRouter) : VelocityRouter :=
  mkRouter (routes r) (middlewares r) (currentRoute r) (pageCache r)
    (layoutCache r) (routeParams r) (queryParams r) (layouts r)
    (routeGuards r) (transitions r) (routeComponents r) (scrollPositions
    r) (defaultLayout r) (isTransitioning r) x.

Definition set_location (x : string) (r : Browser) : Browser :=
  mkBrowser x (history r) (loading r) (app r) (opacity r) (documentTitle r)
    (metaTags r) (scroll r) (timers r) (now r) (fetch r) (urlSearchParams r)
    (prototypes r) (refuses r) (trace r).

Definition set_history (x : list (option HistoryState)) (r : Browser) : Browser :=
  mkBrowser (location r) x (loading r) (app r) (opacity r) (documentTitle r)
    (metaTags r) (scroll r) (timers r) (now r) (fetch r) (urlSearchParams r)
    (prototypes r) (refuses r) (trace r).

Definition set_loading (x : bool) (r : Browser) : Browser :=
  mkBrowser (location r) (history r) x (app r) (opacity r) (documentTitle r)
    (metaTags r) (scroll r) (timers r) (now r) (fetch r) (urlSearchParams r)
    (prototypes r) (refuses r) (trace r).

Definition set_app (x : value) (r : Browser) : Browser :=
  mkBrowser (location r) (history r) (loading r) x (opacity r)
    (documentTitle r) (metaTags r) (scroll r) (timers r) (now r) (fetch r)
    (urlSearchParams r) (prototypes r) (refuses r) (trace r).

Definition set_opacity (x : string) (r : Browser) : Browser :=
  mkBrowser (location r) (history r) (loading r) (app r) x (documentTitle r)
    (metaTags r) (scroll r) (timers r) (now r) (fetch r) (urlSearchParams r)
    (prototypes r) (refuses r) (trace r).

Definition set_documentTitle (x : string) (r : Browser) : Browser :=
  mkBrowser (location r) (history r) (loading r) (app r) (opacity r) x
    (metaTags r) (scroll r) (timers r) (now r) (fetch r) (urlSearchParams r)
    (prototypes r) (refuses r) (trace r).

Definition set_metaTags (x : list (string * string)) (r : Browser) : Browser :=
  mkBrowser (location r) (history r) (loading r) (app r) (opacity r)
    (documentTitle r) x (scroll r) (timers r) (now r) (fetch r)
    (urlSearchParams r) (prototypes r) (refuses r) (trace r).

Definition set_scroll (x : Z * Z) (r : Browser) : Browser :=
  mkBrowser (location r) (history r) (loading r) (app r) (opacity r)
    (documentTitle r) (metaTags r) x (timers r) (now r) (fetch r)
    (urlSearchParams r) (prototypes r) (refuses r) (trace r).

Definition set_timers (x : list (string * NavOptions)) (r : Browser) : Browser :=
  mkBrowser (location r) (history r) (loading r) (app r) (opacity r)
    (documentTitle r) (metaTags r) (scroll r) x (now r) (fetch r)
    (urlSearchParams r) (prototypes r) (refuses r) (trace r).

Definition set_now (x : Z) (r : Browser) : Browser :=
  mkBrowser (location r) (history r) (loading r) (app r) (opacity r)
    (documentTitle r) (metaTags r) (scroll r) (timers r) x (fetch r)
    (urlSearchParams r) (prototypes r) (refuses r) (trace r).

Definition set_trace (x : list event) (r : Browser) : Browser :=
  mkBrowser (location r) (history r) (loading r) (app r) (opacity r)
    (documentTitle r) (metaTags r) (scroll r) (timers r) (now r) (fetch r)
    (urlSearchParams r) (prototypes r) (refuses r) x.

(** *** Registration *)

(** [a || b] for values that are absent or empty strings when falsy. *)
Definition truthy_string (o : option string) : option string :=
  match o with
  | Some "" => None
  | _ => o
  end.

Definition truthy_layout (o : option Layout) : option Layout :=
  match o with
  | Some (LName "") => None
  | _ => o
  end.

Definition truthy_component (o : option Component) : option Component :=
  match o with
  | Some (CName "") => None
  | _ => o
  end.

Definition or_else {A : Type} (a b : option A) : option A :=
  match a with Some _ => a | None => b end.

(** [s.replace(/src/, t)] without the [g] flag: the first match only. *)
Definition replace_1 (src t s : string) : string :=
  let r := Regex.literal src in
  match Regex.search r 0 s with
  | Some (skipped, res) =>
      skipped +++ Regex.template (Regex.ngroups r) t s res
              +++ Regex.r_after res
  | None => s
  end.

Definition joinPaths (parent child : string) : string :=
  let cleanParent := replace_1 "\/$" "" parent in
  let cleanChild := replace_1 "^\/" "" child in
  cleanParent +++ "/" +++ cleanChild.

(** The route configuration that [addRoute] builds from its arguments. *)
Definition routeConfigOf (this : VelocityRouter) (path : string)
  (handler : Handler) (options : Options) (regex : Regex.re)
  (keys : list key) : RouteConfig :=
  {| path := path;
     handler := handler;
     preload := o_preload options;
     cache := negb (is_false (o_cache options));
     middleware := o_middleware options;
     title := o_title options;
     meta := o_meta options;
     layout := or_else (truthy_layout (o_layout options)) (defaultLayout this);
     transition :=
       match o_transition options with "" => "fade" | t => t end;
     guards := o_guards options;
     fetchHtml := o_fetchHtml options;
     htmlPath := truthy_string (o_htmlPath options);
     template := truthy_string (o_template options);
     component := truthy_component (o_component options);
     nestedRoutes := o_children options;
     scrollToTop := negb (is_false (o_scrollToTop options));
     keepAlive := o_keepAlive options;
     regex := regex;
     keys := keys |}.

(** [addRoute]; [None] when the pattern compiled from [path] is outside
    the fragment of [Regex.parse].  The nested routes are registered
    before the route itself is stored. *)
Fixpoint addRoute (path : string) (handler : Handler) (options : Options)
  (this : VelocityRouter) {struct options} : option VelocityRouter :=
  bind (pathToRegex path) (fun regex =>
  let keys := extractKeys path in
  let routeConfig := routeConfigOf this path handler options regex keys in
  bind ((fix addNestedRoutes (nestedRoutes : list Options)
           (this : VelocityRouter) : option VelocityRouter :=
           match nestedRoutes with
           | [] => Some this
           | route :: rest =>
               let fullPath := joinPaths path (o_path route) in
               bind (addRoute fullPath (o_handler route) route this)
                    (addNestedRoutes rest)
           end) (o_children options) this) (fun this =>
  Some (set_routes (JsMap.set String.eqb path routeConfig (routes this))
                   this))).

Definition setDefaultLayout (layoutHandler : option Layout)
  (this : VelocityRouter) : VelocityRouter :=
  set_defaultLayout layoutHandler this.

Definition addLayout (name : string) (layoutHandler : fn)
  (this : VelocityRouter) : VelocityRouter :=
  set_layouts (JsMap.set String.eqb name layoutHandler (layouts this)) this.

Definition addGuard (path : string) (guardFunction : fn)
  (this : VelocityRouter) : VelocityRouter :=
  let existing :=
    match JsMap.get String.eqb path (routeGuards this) with
    | Some gs => gs
    | None => []
    end in
  set_routeGuards
    (JsMap.set String.eqb path (existing ++ [guardFunction])
               (routeGuards this)) this.

Definition addTransition (name : string) (transitionConfig : Transition)
  (this : VelocityRouter) : VelocityRouter :=
  set_transitions
    (JsMap.set String.eqb name transitionConfig (transitions this)) this.

Definition registerComponent (name : string) (componentFunction : fn)
  (this : VelocityRouter) : VelocityRouter :=
  set_routeComponents
    (JsMap.set String.eqb name componentFunction (routeComponents this)) this.

Definition use (middleware : fn) (this : VelocityRouter) : VelocityRouter :=
  set_middlewares (middlewares this ++ [middleware]) this.

Definition clearCache (this : VelocityRouter) : VelocityRouter :=
  set_layoutCache [] (set_pageCache [] this).

(** The router as its constructor leaves it. *)
Definition newRouter : VelocityRouter :=
  {| routes := []; middlewares := []; currentRoute := None;
     pageCache := []; layoutCache := []; routeParams := [];
     queryParams := []; layouts := []; routeGuards := [];
     transitions := []; routeComponents := []; scrollPositions := [];
     defaultLayout := None; isTransitioning := false;
     transitionQueue := [] |}.

(** *** Matching *)

Definition accepts (pathname : string) (entry : string * RouteConfig) : bool :=
  Regex.test (regex (snd entry)) pathname.

(** [for (const [path, config] of this.routes) if (config.regex.test(p))
    return { path, config }] *)
Definition firstMatch (routes : list (string * RouteConfig))
  (pathname : string) : option (string * RouteConfig) :=
  List.find (accepts pathname) routes.

Definition segmentsOf (pathname : string) : list string :=
  filter (fun s => negb (String.eqb s "")) (JsString.split "/" pathname).

Definition partialPath (segments : list string) (i : nat) : string :=
  "/" +++ JsString.join "/" (firstn i segments).

(** [for (let i = segments.length; i > 0; i--)] from [i] on *)
Fixpoint nestedMatch (routes : list (string * RouteConfig))
  (segments : list string) (i : nat) : option (string * RouteConfig) :=
  match i with
  | 0 => None
  | S i' =>
      match firstMatch routes (partialPath segments i) with
      | Some route => Some route
      | None => nestedMatch routes segments i'
      end
  end.

Definition matchRoute (this : VelocityRouter) (pathname : string)
  : option (string * RouteConfig) :=
  (* First try exact matches *)
  match firstMatch (routes this) pathname with
  | Some route => Some route
  | None =>
      (* Try nested route matching *)
      let segments := segmentsOf pathname in
      nestedMatch (routes this) segments (List.length segments)
  end.

(** *** State and exceptions *)

Record World : Type := mkWorld {
  router : VelocityRouter;
  browser : Browser
}.

Definition M (A : Type) : Type := World -> outcome A * World.

Definition ret {A : Type} (a : A) : M A := fun w => (Returns a, w).

Definition throw {A : Type} (message : string) : M A :=
  fun w => (Throws message, w).

Definition bindM {A B : Type} (m : M A) (k : A -> M B) : M B :=
  fun w =>
    match m w with
    | (Returns a, w') => k a w'
    | (Throws e, w') => (Throws e, w')
    end.

(** [try { m } catch (error) { h error }] *)
Definition try_catch {A : Type} (m : M A) (h : string -> M A) : M A :=
  fun w =>
    match m w with
    | (Returns a, w') => (Returns a, w')
    | (Throws e, w') => h e w'
    end.

Notation "x <- m ;; k" := (bindM m (fun x => k))
  (at level 61, m at next level, right associativity).
Notation "m ;; k" := (bindM m (fun _ => k))
  (at level 61, right associativity).

Definition this : M VelocityRouter := fun w => (Returns (router w), w).

Definition window : M Browser := fun w => (Returns (browser w), w).

Definition update (f : VelocityRouter -> VelocityRouter) : M unit :=
  fun w => (Returns tt, mkWorld (f (router w)) (browser w)).

Definition effect (f : Browser -> Browser) : M unit :=
  fun w => (Returns tt, mkWorld (router w) (f (browser w))).

Definition emit (e : event) : M unit :=
  effect (fun b => set_trace (trace b ++ [e]) b).

(** [await f(context)] *)
Definition call (f : fn) (context : Context) : M value :=
  fun w => (fn_call f context, w).

Definition lift {A : Type} (o : outcome A) : M A := fun w => (o, w).

(** A call whose promise is not awaited: a rejection does not reach the
    caller. *)
Definition detached (m : M unit) : M unit := try_catch m (fun _ => ret tt).

(** *** Parsing the address *)

Definition parseUrl (url : string) (b : Browser) : string * string :=
  let url := match url with "" => location b | _ => url end in
  match JsString.split "?" url with
  | pathname :: search :: _ => (pathname, search)
  | pathname :: [] => (pathname, "")
  | [] => ("", "")
  end.

Definition parseQuery (search : string) (b : Browser) : list (string * value) :=
  match search with
  | "" => []
  | _ =>
      (* [params[key] = value]: a string assigned to [__proto__] goes to
         the setter of the prototype, which drops it *)
      fold_left (fun params kv =>
                   if String.eqb (fst kv) "__proto__" then params
                   else assign (fst kv) (VStr (snd kv)) params)
                (urlSearchParams b search) []
  end.

(** *** Rendering *)

Definition renderContent (content : value) : M unit :=
  emit (ERender content) ;;
  match content with
  | VStr _ | VElem _ _ => effect (set_app content)
  | _ => ret tt
  end.

Definition handleRouteError (error : string) (context : Context) : M unit :=
  renderContent
    (VStr ("<h1>Route Error</h1><p>Failed to load " +++ ctx_path context
           +++ "</p><p>" +++ error +++ "</p>")).

Definition handleNavigationError (error : string) (path : string) : M unit :=
  renderContent
    (VStr ("<h1>Navigation Error</h1><p>Failed to navigate to " +++ path
           +++ "</p><p>" +++ error +++ "</p>")).

Definition showLoading : M unit := effect (set_loading true).

Definition hideLoading : M unit := effect (set_loading false).

(** *** Content *)

Definition placeholderRegex : string := "\{\{([^}]+)\}\}".

(** [for (const k of keys) value = value?.[k]] *)
Definition walk (inherited : value -> string -> value) (context : value)
  (keys : list string) : value :=
  fold_left (member inherited) keys context.

Definition resolve (inherited : value -> string -> value) (context : value)
  (res : Regex.result) : string :=
  let key := group1 res in
  let keys := JsString.split "." (JsString.trim key) in
  match walk inherited context keys with
  | VUndefined => Regex.r_match res
  | v => String_ v
  end.

(** [processHtmlTemplate]; [inherited] stands for the prototype chains
    of the engine. *)
Definition processHtmlTemplate (inherited : value -> string -> value)
  (html : string) (context : value) : string :=
  Regex.replace_all (Regex.literal placeholderRegex)
                    (fun _ res => resolve inherited context res) html.

(** The context as the object that templates walk: its data.  The
    functions bound into it are not own properties here. *)
Definition contextValue (context : Context) : value :=
  VObj ([("path", VStr (ctx_path context))]
        ++ match ctx_fullPath context with
           | Some p => [("fullPath", VStr p)]
           | None => []
           end
        ++ [("params", VObj (ctx_params context));
            ("query", VObj (ctx_query context))]
        ++ match ctx_route context with
           | VUndefined => []
           | v => [("route", v)]
           end).

Definition string_of_nat (n : nat) : string := string_of_Z (Z.of_nat n).

Definition fetchHtmlPage (htmlPath : string) (context : Context) : M value :=
  b <- window ;;
  emit (EFetch htmlPath) ;;
  response <- lift (fetch b htmlPath) ;;
  if ok response then
    ret (VStr (processHtmlTemplate (prototypes b) (text response)
                                   (contextValue context)))
  else
    throw ("Failed to fetch HTML page: " +++ string_of_nat (status response)).

Definition loadPage (pageUrl : string) : M value :=
  b <- window ;;
  emit (EFetch pageUrl) ;;
  response <- lift (fetch b pageUrl) ;;
  if ok response then ret (VStr (text response))
  else throw ("Failed to load page: " +++ string_of_nat (status response)).

Definition renderComponent (component : Component) (context : Context)
  : M value :=
  match component with
  | CFunction f => call f context
  | CName n =>
      r <- this ;;
      match JsMap.get String.eqb n (routeComponents r) with
      | Some componentFunc => call componentFunc context
      | None => throw ("Component not found: " +++ n)
      end
  end.

Definition getRouteContent (routeConfig : RouteConfig) (context : Context)
  : M value :=
  emit (EAcquire (path routeConfig) (ctx_fullPath context)) ;;
  match fetchHtml routeConfig,
        or_else (truthy_string (htmlPath routeConfig))
                (truthy_string (template routeConfig)) with
  | true, Some htmlPath =>
      (* Handle HTML fetching (support both htmlPath and template) *)
      fetchHtmlPage htmlPath context
  | _, _ =>
      match truthy_component (component routeConfig) with
      | Some c =>
          (* Handle component-based routing *)
          renderComponent c context
      | None =>
          match handler routeConfig with
          | HFunction f => call f context
          | HString url => loadPage url
          | HOther => throw "Invalid route handler"
          end
      end
  end.

(** [layout.replace('{{content}}', content)]: the receiver, which the
    source calls [variable], has to be a string; [content] is converted
    to a string and used as a replacement string.  The messages are
    those of V8. *)
Definition replaceContent (variable : string) (layoutContent content : value)
  : M value :=
  match layoutContent with
  | VStr s =>
      ret (VStr (Regex.replace_first "{{content}}"
                                     (Regex.template 0 (String_ content)) s))
  | VUndefined | VNull =>
      throw ("Cannot read properties of " +++ String_ layoutContent
             +++ " (reading 'replace')")
  | _ => throw (variable +++ ".replace is not a function")
  end.

Definition layoutText (layoutName : Layout) : string :=
  match layoutName with
  | LFunction f => fn_name f
  | LName n => n
  end.

Definition applyLayout (layoutName : Layout) (content : value)
  (context : Context) : M value :=
  r <- this ;;
  match match layoutName with
        | LFunction f => Some f
        | LName n => JsMap.get String.eqb n (layouts r)
        end with
  | None => ret content
  | Some layoutHandler =>
      (* Check layout cache *)
      let layoutCacheKey := layoutText layoutName +++ "_" +++ ctx_path context in
      match JsMap.get String.eqb layoutCacheKey (layoutCache r) with
      | Some cachedLayout => replaceContent "cachedLayout" cachedLayout content
      | None =>
          try_catch
            (layoutContent <- call layoutHandler context ;;
             (* Cache layout *)
             update (fun r => set_layoutCache
                       (JsMap.set String.eqb layoutCacheKey layoutContent
                                  (layoutCache r)) r) ;;
             (* Replace content placeholder *)
             replaceContent "layoutContent" layoutContent content)
            (fun _ => ret content)
      end
  end.

Definition executeRouteWithLayout (routeConfig : RouteConfig)
  (context : Context) : M unit :=
  try_catch
    (r <- this ;;
     (* Check cache first *)
     let cacheKey := ctx_fullPath context in
     content <-
       match cache routeConfig, JsMap.get JsMap.okey_eqb cacheKey (pageCache r) with
       | true, Some cached => ret cached
       | _, _ =>
           (* Get route content *)
           content <- getRouteContent routeConfig context ;;
           (* Cache content if enabled *)
           (if cache routeConfig && truthy content then
              update (fun r => set_pageCache
                        (JsMap.set JsMap.okey_eqb cacheKey content (pageCache r))
                        r)
            else ret tt) ;;
           ret content
       end ;;
     (* Apply layout if specified *)
     content <-
       match truthy_layout (layout routeConfig) with
       | Some l => applyLayout l content context
       | None => ret content
       end ;;
     (* Render content *)
     renderContent content)
    (fun error => handleRouteError error context).

(** *** Guards, middleware, meta, scroll *)

(** [for (const guard of guards)] in [runRouteGuards] *)
Fixpoint runGuards (guards : list fn) (context : Context) : M bool :=
  match guards with
  | [] => ret true
  | guard :: rest =>
      emit (EGuard (fn_name guard)) ;;
      accepted <-
        try_catch
          (result <- call guard context ;; ret (negb (is_false result)))
          (fun _ => ret false) ;;
      if accepted then runGuards rest context else ret false
  end.

Definition runRouteGuards (path : string) (context : Context) : M bool :=
  r <- this ;;
  let guards :=
    match JsMap.get String.eqb path (routeGuards r) with
    | Some gs => gs
    | None => []
    end in
  runGuards guards context.

(** [for (const middleware of [...])] in [handleRoute]; the answer is
    whether the navigation goes on. *)
Fixpoint runMiddlewares (middlewares : list fn) (context : Context) : M bool :=
  match middlewares with
  | [] => ret true
  | middleware :: rest =>
      emit (EMiddleware (fn_name middleware)) ;;
      result <- call middleware context ;;
      if is_false result then ret false else runMiddlewares rest context
  end.

Definition textOf (t : Text) (context : Context) : M string :=
  match t with
  | TString s => ret s
  | TFunction f => v <- call f context ;; ret (String_ v)
  end.

Fixpoint updateMetaTags (entries : list (string * Text)) (context : Context)
  : M unit :=
  match entries with
  | [] => ret tt
  | (name, content) :: rest =>
      c <- textOf content context ;;
      effect (fun b => set_metaTags (JsMap.set String.eqb name c (metaTags b)) b) ;;
      updateMetaTags rest context
  end.

Definition updatePageMeta (routeConfig : RouteConfig) (context : Context)
  : M unit :=
  match title routeConfig with
  | None | Some (TString "") => ret tt
  | Some t => s <- textOf t context ;; effect (set_documentTitle s)
  end ;;
  updateMetaTags (meta routeConfig) context.

Definition saveScrollPosition (path : option string) : M unit :=
  match truthy_string path with
  | Some p =>
      b <- window ;;
      update (fun r => set_scrollPositions
                (JsMap.set String.eqb p (scroll b) (scrollPositions r)) r)
  | None => ret tt
  end.

Definition handleScrollRestoration (routeConfig : RouteConfig) (path : string)
  : M unit :=
  if scrollToTop routeConfig then
    r <- this ;;
    match JsMap.get String.eqb path (scrollPositions r) with
    | Some position => effect (set_scroll position)
    | None => effect (set_scroll (0%Z, 0%Z))
    end
  else ret tt.

Definition emitRouteChange (context : Context) : M unit :=
  emit (ERouteChange (ctx_fullPath context)).

(** *** Transitions; the page has an element with the id [app] *)

Definition defaultTransitionOut : M unit := effect (set_opacity "0").

Definition defaultTransitionIn : M unit := effect (set_opacity "1").

Definition applyTransitionOut (route : CurrentRoute) : M unit :=
  match transition (cr_config route) with
  | "" => ret tt
  | name =>
      r <- this ;;
      match JsMap.get String.eqb name (transitions r) with
      | Some (mkTransition (Some out) _) => lift out ;; ret tt
      | _ => defaultTransitionOut
      end
  end.

Definition applyTransitionIn (routeConfig : RouteConfig) : M unit :=
  match transition routeConfig with
  | "" => ret tt
  | name =>
      r <- this ;;
      match JsMap.get String.eqb name (transitions r) with
      | Some (mkTransition _ (Some in_)) => lift in_ ;; ret tt
      | _ => defaultTransitionIn
      end
  end.

(** *** Resolving a route *)

Definition notFoundContext (pathname : string) : Context :=
  {| ctx_path := pathname; ctx_fullPath := None; ctx_params := [];
     ctx_query := []; ctx_route := VUndefined |}.

(** [handle404].  The call of [executeRouteWithLayout] is not awaited:
    the content source is called at once, but what follows its answer
    runs after the caller has gone on.  Here the call runs to its end in
    place, which gives the state in which everything has settled; the
    order of its rendering and of what the caller does next is not
    shown. *)
Definition handle404 (pathname : string) : M unit :=
  r <- this ;;
  match or_else (JsMap.get String.eqb "*" (routes r))
                (JsMap.get String.eqb "/404" (routes r)) with
  | Some notFoundRoute =>
      detached (executeRouteWithLayout notFoundRoute (notFoundContext pathname))
  | None =>
      renderContent
        (VStr "<h1>404 - Page Not Found</h1><p>The requested page could not be found.</p>")
  end.

(** A function of the page as a value. *)
Definition functionValue (f : fn) : value := VNative (fn_name f) (fn_name f).

Definition textValue (t : Text) : value :=
  match t with
  | TString s => VStr s
  | TFunction f => functionValue f
  end.

(** The route configuration as [context.route] shows it, in the order
    of the properties in [addRoute].  Routes are not lazy and have no
    error boundary.  The arrays ([middleware], [guards], [nestedRoutes],
    [keys]), the regular expression and a handler that is neither a
    function nor a string are not own properties here. *)
Definition configValue (c : RouteConfig) : value :=
  let str o := match o with Some s => VStr s | None => VNull end in
  VObj ([("path", VStr (path c))]
        ++ match handler c with
           | HFunction f => [("handler", functionValue f)]
           | HString url => [("handler", VStr url)]
           | HOther => []
           end
        ++ [("preload", VBool (preload c));
            ("cache", VBool (cache c));
            ("title", match title c with Some t => textValue t | None => VStr "" end);
            ("meta", VObj (map (fun e => (fst e, textValue (snd e))) (meta c)));
            ("layout", match layout c with
                       | Some (LName n) => VStr n
                       | Some (LFunction f) => functionValue f
                       | None => VNull
                       end);
            ("transition", VStr (transition c));
            ("fetchHtml", VBool (fetchHtml c));
            ("htmlPath", str (htmlPath c));
            ("template", str (template c));
            ("lazy", VBool false);
            ("component", match component c with
                          | Some (CName n) => VStr n
                          | Some (CFunction f) => functionValue f
                          | None => VNull
                          end);
            ("scrollToTop", VBool (scrollToTop c));
            ("keepAlive", VBool (keepAlive c));
            ("errorBoundary", VNull)]).

Definition handleRoute (fullPath : string) : M unit :=
  b <- window ;;
  r <- this ;;
  let (pathname, search) := parseUrl fullPath b in
  match matchRoute r pathname with
  | None => handle404 pathname
  | Some route =>
      let config := snd route in
      (* Extract route parameters *)
      let params := extractParams pathname (regex config) (keys config) in
      let query := parseQuery search b in
      update (set_routeParams params) ;;
      update (set_queryParams query) ;;
      (* Create route context *)
      let context :=
        {| ctx_path := pathname; ctx_fullPath := Some fullPath;
           ctx_params := params; ctx_query := query;
           ctx_route := configValue config |} in
      (* Run route guards *)
      passed <- runRouteGuards pathname context ;;
      if negb passed then ret tt
      else
        (* Run middlewares *)
        proceed <- runMiddlewares (middlewares r ++ middleware config) context ;;
        if negb proceed then ret tt
        else
          (* Update current route *)
          update (set_currentRoute (Some (mkCurrentRoute context config))) ;;
          (* Execute route handler with layout *)
          executeRouteWithLayout config context ;;
          (* Update page meta *)
          updatePageMeta config context ;;
          (* Restore scroll position or scroll to top *)
          handleScrollRestoration config fullPath ;;
          (* Emit route change event *)
          emitRouteChange context
  end.

Definition handleRouteWithTransition (path : string) : M unit :=
  b <- window ;;
  r <- this ;;
  let (pathname, _) := parseUrl path b in
  match matchRoute r pathname with
  | None => handle404 pathname
  | Some route =>
      (* Apply transition out effect *)
      match currentRoute r with
      | Some current => applyTransitionOut current
      | None => ret tt
      end ;;
      (* Handle the route *)
      handleRoute path ;;
      (* Apply transition in effect *)
      applyTransitionIn (snd route)
  end.

(** *** Navigation *)

(** [history.pushState({ path, timestamp }, '', p)]; it throws for a
    URL that the browser refuses. *)
Definition pushState (p : string) : M unit :=
  b <- window ;;
  match refuses b p with
  | Some message => throw message
  | None =>
      effect (fun b =>
        set_trace (trace b ++ [EPushState p])
          (set_location (match p with "" => location b | _ => p end)
             (set_history (history b ++ [Some (mkHistoryState p (now b))]) b)))
  end.

(** [history.replaceState({ path, timestamp }, '', p)] *)
Definition replaceState (p : string) : M unit :=
  b <- window ;;
  match refuses b p with
  | Some message => throw message
  | None =>
      effect (fun b =>
        set_trace (trace b ++ [EReplaceState p])
          (set_location (match p with "" => location b | _ => p end)
             (set_history
                (removelast (history b) ++ [Some (mkHistoryState p (now b))])
                b)))
  end.

Definition setTimeout (next : string * NavOptions) : M unit :=
  effect (fun b => set_timers (timers b ++ [next]) b).

Inductive entry : Type := Queued | Skipped | Entered.

Definition onRoute (r : VelocityRouter) (p : string) : bool :=
  match currentRoute r with
  | Some current => JsMap.okey_eqb (ctx_fullPath (cr_context current)) (Some p)
  | None => false
  end.

Definition currentFullPath (r : VelocityRouter) : option string :=
  match currentRoute r with
  | Some current => ctx_fullPath (cr_context current)
  | None => None
  end.

(** [navigate] up to [showLoading()]: no promise is awaited before. *)
Definition navigate_begin (p : string) (options : NavOptions) : M entry :=
  r <- this ;;
  (* Check if already transitioning *)
  if isTransitioning r && negb (force options) then
    update (set_transitionQueue (transitionQueue r ++ [(p, options)])) ;;
    ret Queued
  (* Don't navigate if already on the same route *)
  else if onRoute r p && negb (force options) then ret Skipped
  else
    update (set_isTransitioning true) ;;
    (* Save scroll position *)
    saveScrollPosition (currentFullPath r) ;;
    (* Show loading state *)
    showLoading ;;
    ret Entered.

(** The rest of the [try] block. *)
Definition navigate_body (p : string) (options : NavOptions) : M unit :=
  (* Handle route with transition *)
  handleRouteWithTransition p ;;
  (* Update browser history *)
  (if replace options then replaceState p else pushState p) ;;
  hideLoading ;;
  update (set_isTransitioning false) ;;
  (* Process queued transitions *)
  r <- this ;;
  match transitionQueue r with
  | next :: rest => update (set_transitionQueue rest) ;; setTimeout next
  | [] => ret tt
  end.

(** The [catch] block. *)
Definition navigate_catch (p : string) (error : string) : M unit :=
  hideLoading ;;
  update (set_isTransitioning false) ;;
  handleNavigationError error p.

Definition navigate (p : string) (options : NavOptions) : M unit :=
  try_catch
    (e <- navigate_begin p options ;;
     match e with
     | Entered => navigate_body p options
     | Queued | Skipped => ret tt
     end)
    (navigate_catch p).

(** The part of a navigation after the point at which other calls can
    arrive. *)
Definition navigate_finish (p : string) (options : NavOptions) : M unit :=
  try_catch (navigate_body p options) (navigate_catch p).

Definition redirect (p : string) (replace : bool) : M unit :=
  navigate p (mkNavOptions replace false).

(** [handlePopState]: [state] is [event.state?.path]. *)
Definition handlePopState (state : option string) : M unit :=
  b <- window ;;
  handleRoute (match truthy_string state with Some p => p | None => location b end).

Definition init : M unit :=
  b <- window ;;
  handleRoute (location b).

(** The event loop runs the oldest pending [setTimeout] call. *)
Definition runTimer : M unit :=
  b <- window ;;
  match timers b with
  | (p, options) :: rest => effect (set_timers rest) ;; navigate p options
  | [] => ret tt
  end.

(** A browser showing an empty page at [url], with the given network,
    in which the values have their own properties only and the history
    takes every URL. *)
Definition newBrowser (url : string) (net : string -> outcome Response)
  : Browser :=
  {| location := url; history := [None]; loading := false;
     app := VStr ""; opacity := "1"; documentTitle := ""; metaTags := [];
     scroll := (0%Z, 0%Z); timers := []; now := 0%Z; fetch := net;
     urlSearchParams := fun _ => [];
     prototypes := fun _ _ => VUndefined; refuses := fun _ => None;
     trace := [] |}.

Definition offline : string -> outcome Response :=
  fun _ => Throws "Failed to fetch".

(** The state after running [m]. *)
Definition exec {A : Type} (m : M A) (w : World) : World := snd (m w).

End Router.

(* ------------------------------------------------------------------ *)
(** ** The event system

    [eventListeners] maps an event name to the array of its callbacks.
    A callback is a function object, told apart by its identity, for
    which [cb_id] stands; called with the data of the event it returns a
    value or throws, and it does not register or remove listeners while
    it runs. *)

Module Events.

Import JsValue.

Record Callback : Type := mkCallback {
  cb_id : nat;
  cb_call : value -> Router.outcome value
}.

(** [a === b] *)
Definition same (a b : Callback) : bool := Nat.eqb (cb_id a) (cb_id b).

(** [listeners.indexOf(callback)]; [None] is -1. *)
Fixpoint indexOf (callback : Callback) (listeners : list Callback)
  : option nat :=
  match listeners with
  | [] => None
  | c :: rest =>
      if same c callback then Some 0
      else option_map S (indexOf callback rest)
  end.

(** [listeners.splice(index, 1)] *)
Fixpoint splice (index : nat) (listeners : list Callback) : list Callback :=
  match listeners, index with
  | [], _ => []
  | _ :: rest, 0 => rest
  | c :: rest, S i => c :: splice i rest
  end.

Definition on (event : string) (callback : Callback)
  (eventListeners : list (string * list Callback))
  : list (string * list Callback) :=
  let eventListeners :=
    if negb (JsMap.has String.eqb event eventListeners)
    then JsMap.set String.eqb event [] eventListeners
    else eventListeners in
  match JsMap.get String.eqb event eventListeners with
  | Some listeners =>
      (* push *)
      JsMap.set String.eqb event (listeners ++ [callback]) eventListeners
  | None => eventListeners
  end.

Definition off (event : string) (callback : Callback)
  (eventListeners : list (string * list Callback))
  : list (string * list Callback) :=
  match JsMap.get String.eqb event eventListeners with
  | Some listeners =>
      match indexOf callback listeners with
      | Some index =>
          JsMap.set String.eqb event (splice index listeners) eventListeners
      | None => eventListeners
      end
  | None => eventListeners
  end.

(** [emit]: the calls that are made, in order, each with what the
    callback did; an error of a callback is logged and the next one is
    called. *)
Definition emit (event : string) (data : value)
  (eventListeners : list (string * list Callback))
  : list (nat * Router.outcome value) :=
  match JsMap.get String.eqb event eventListeners with
  | Some listeners => map (fun c => (cb_id c, cb_call c data)) listeners
  | None => []
  end.

End Events.

(* ------------------------------------------------------------------ *)
(** ** Preloading

    As in [addRoute], routes are not lazy: the branch that imports the
    module of a lazy route is left out. *)

Module Preload.

Import JsValue Router.

Definition preloadRoute (p : string) : M unit :=
  try_catch
    (b <- window ;;
     r <- this ;;
     let (pathname, _) := parseUrl p b in
     match matchRoute r pathname with
     | Some route =>
         let config := snd route in
         if preload config then
           (* Preload HTML pages *)
           match fetchHtml config, truthy_string (htmlPath config) with
           | true, Some htmlPath =>
               fetchHtmlPage htmlPath (notFoundContext pathname) ;; ret tt
           | _, _ => ret tt
           end ;;
           (* Preload regular handlers *)
           match handler config with
           | HString url => loadPage url ;; ret tt
           | _ => ret tt
           end
         else ret tt
     | None => ret tt
     end)
    (fun _ => ret tt).

End Preload.

(* ------------------------------------------------------------------ *)
(** ** Applications used in the examples *)

Module Examples.

Import JsValue Router.

Definition noOptions : Options :=
  {| o_path := ""; o_handler := HOther; o_preload := false;
     o_cache := VUndefined; o_middleware := []; o_title := None;
     o_meta := []; o_layout := None; o_transition := ""; o_guards := [];
     o_fetchHtml := false; o_htmlPath := None; o_template := None;
     o_component := None; o_children := []; o_scrollToTop := VUndefined;
     o_keepAlive := false |}.

(** [ctx => body] *)
Definition page (body : string) : Handler :=
  HFunction (mkFn ("ctx => '" +++ body +++ "'") (fun _ => Returns (VStr body))).

(** [router.addRoute(path, handler, options)] *)
Definition register (path : string) (handler : Handler) (options : Options)
  (this : VelocityRouter) : VelocityRouter :=
  match addRoute path handler options this with
  | Some this' => this'
  | None => this
  end.

(** A fresh page at [/] without network. *)
Definition browse (this : VelocityRouter) : World :=
  mkWorld this (newBrowser "/" offline).

Definition go : NavOptions := mkNavOptions false false.

(** [() => false] *)
Definition deny : fn := mkFn "() => false" (fun _ => Returns (VBool false)).

(** [() => { throw new Error('boom') }] *)
Definition boom : fn :=
  mkFn "() => { throw new Error('boom') }" (fun _ => Throws "boom").

(** An application with a guarded static route. *)
Definition adminApp : VelocityRouter :=
  addGuard "/admin" deny (register "/admin" (page "Admin") noOptions newRouter).

(** An application with a guard on a catch-all route, registered under
    the route's pattern. *)
Definition blogApp : VelocityRouter :=
  addGuard "/blog/[...slug]" deny
    (register "/blog/[...slug]" (page "Blog") noOptions newRouter).

Definition withMiddleware (m : fn) (o : Options) : Options :=
  {| o_path := o_path o; o_handler := o_handler o; o_preload := o_preload o;
     o_cache := o_cache o; o_middleware := [m]; o_title := o_title o;
     o_meta := o_meta o; o_layout := o_layout o;
     o_transition := o_transition o; o_guards := o_guards o;
     o_fetchHtml := o_fetchHtml o; o_htmlPath := o_htmlPath o;
     o_template := o_template o; o_component := o_component o;
     o_children := o_children o; o_scrollToTop := o_scrollToTop o;
     o_keepAlive := o_keepAlive o |}.

(** Two pages; the middleware of the second one throws. *)
Definition twoPages : VelocityRouter :=
  register "/b" (page "B") (withMiddleware boom noOptions)
    (register "/a" (page "A") noOptions newRouter).

(** A cached page with empty content and another page. *)
Definition emptyPage : VelocityRouter :=
  register "/other" (page "Other") noOptions
    (register "/empty" (page "") noOptions newRouter).

(** The pattern with a dynamic and a catch-all segment. *)
Definition sectionPattern : string := "/[section]/[...slug]".

(** [ctx => '<main>{{content}}</main><!-- {{content}} -->'] *)
Definition shell : fn :=
  mkFn "ctx => '<main>{{content}}</main><!-- {{content}} -->'"
       (fun _ => Returns (VStr "<main>{{content}}</main><!-- {{content}} -->")).

Definition homeContext : Context :=
  {| ctx_path := "/"; ctx_fullPath := Some "/"; ctx_params := [];
     ctx_query := []; ctx_route := VUndefined |}.


(** The configuration of a cached page "/a" and its context. *)
Definition aConfig : RouteConfig :=
  routeConfigOf newRouter "/a" (page "A") noOptions
                (Regex.literal "^\/a$") (extractKeys "/a").


(** A router with the page "/user" only. *)
Definition userApp : VelocityRouter :=
  register "/user" (page "User") noOptions newRouter.

(** [() => true] *)
Definition allow : fn := mkFn "() => true" (fun _ => Returns (VBool true)).

(** The configuration that [adminApp] holds for "/admin". *)
Definition adminConfig : RouteConfig :=
  routeConfigOf newRouter "/admin" (page "Admin") noOptions
                (Regex.literal "^\/admin$") (extractKeys "/admin").

(** The configuration that [twoPages] holds for "/b". *)
Definition bConfig : RouteConfig :=
  routeConfigOf newRouter "/b" (page "B") (withMiddleware boom noOptions)
                (Regex.literal "^\/b$") (extractKeys "/b").

(** The two pages while a navigation is in flight. *)
Definition busy : World :=
  mkWorld (set_isTransitioning true twoPages) (newBrowser "/" offline).


(** [ctx => '<div>{{content}}</div>'] *)
Definition frame : fn :=
  mkFn "ctx => '<div>{{content}}</div>'"
       (fun _ => Returns (VStr "<div>{{content}}</div>")).

(** The context of [/?tab=2]. *)
Definition homeQuery : Context :=
  {| ctx_path := "/"; ctx_fullPath := Some "/?tab=2"; ctx_params := [];
     ctx_query := [("tab", VStr "2")]; ctx_route := VUndefined |}.

(** The page scrolled to [position]. *)
Definition scrolled (position : Z * Z) (w : World) : World :=
  mkWorld (router w) (set_scroll position (browser w)).

(** An application with a not-found route. *)
Definition starApp : VelocityRouter :=
  register "*" (page "Nope") noOptions newRouter.

(** The configuration that [starApp] holds for "*". *)
Definition starConfig : RouteConfig :=
  routeConfigOf newRouter "*" (page "Nope") noOptions
                (Regex.literal "^\*$") (extractKeys "*").

(** A browser whose [URLSearchParams] reads "a=1&b=x&a=2". *)
Definition queryBrowser : Browser :=
  {| location := "/"; history := [None]; loading := false;
     app := VStr ""; opacity := "1"; documentTitle := ""; metaTags := [];
     scroll := (0%Z, 0%Z); timers := []; now := 0%Z; fetch := offline;
     urlSearchParams := fun _ => [("a", "1"); ("b", "x"); ("a", "2")];
     prototypes := fun _ _ => VUndefined; refuses := fun _ => None;
     trace := [] |}.

(** [{ path, handler: ctx => body }], an entry of [children]. *)
Definition child (path body : string) : Options :=
  {| o_path := path; o_handler := page body; o_preload := false;
     o_cache := VUndefined; o_middleware := []; o_title := None;
     o_meta := []; o_layout := None; o_transition := ""; o_guards := [];
     o_fetchHtml := false; o_htmlPath := None; o_template := None;
     o_component := None; o_children := []; o_scrollToTop := VUndefined;
     o_keepAlive := false |}.

(** [{ children: [{ path: 'stats', ... }, { path: '/settings', ... }] }] *)
Definition dashboard : Options :=
  {| o_path := ""; o_handler := HOther; o_preload := false;
     o_cache := VUndefined; o_middleware := []; o_title := None;
     o_meta := []; o_layout := None; o_transition := ""; o_guards := [];
     o_fetchHtml := false; o_htmlPath := None; o_template := None;
     o_component := None;
     o_children := [child "stats" "Stats"; child "/settings" "Settings"];
     o_scrollToTop := VUndefined; o_keepAlive := false |}.

(** Two listeners. *)
Definition logger : Events.Callback :=
  Events.mkCallback 1 (fun _ => Returns VUndefined).

Definition counter : Events.Callback :=
  Events.mkCallback 2 (fun _ => Throws "overflow").

(** The configuration of a page "/a/b". *)
Definition abConfig : RouteConfig :=
  routeConfigOf newRouter "/a/b" (page "AB") noOptions
                (Regex.literal "^\/a\/b$") (extractKeys "/a/b").

(** The configuration that [emptyPage] holds for "/other". *)
Definition otherConfig : RouteConfig :=
  routeConfigOf newRouter "/other" (page "Other") noOptions
                (Regex.literal "^\/other$") (extractKeys "/other").

End Examples.

(* ------------------------------------------------------------------ *)
(** ** Vocabulary of the statements and proofs *)

Module Spec.

Import Regex JsValue.










Definition placeholderRe : re :=
  Seq (Chr "{") (Seq (Chr "{")
    (Seq (Group 1 (Plus (Class true "}"))) (Seq (Chr "}") (Chr "}")))).












(** No occurrence of [p] starts inside [before] when [rest] follows. *)
Fixpoint absent (p before rest : string) : bool :=
  match before with
  | "" => true
  | String c before' =>
      negb (JsString.startsWith p (before +++ rest)) && absent p before' rest
  end.

(** The paths that [matchRoute] tries, in its order: the pathname as it
    is, then the first [i] segments for [i] from the number of segments
    down to one. *)
Definition candidates (pathname : string) : list string :=
  let segments := Router.segmentsOf pathname in
  pathname
    :: map (Router.partialPath segments) (List.rev (seq 1 (List.length segments))).

(** A path segment: not empty, and without a slash. *)
Definition segment (s : string) : bool :=
  negb (String.eqb s "") && negb (JsString.mem "/" s).

(** The path "/s1/.../sn" of the segments. *)
Fixpoint pathOf (segments : list string) : string :=
  match segments with
  | [] => ""
  | s :: rest => "/" +++ s +++ pathOf rest
  end.

(** The path of the segments and what is left of it as trailing
    segments are removed, one at a time, [n] paths in all. *)
Fixpoint shorten (n : nat) (segments : list string) : list string :=
  match n with
  | 0 => []
  | S n' => pathOf segments :: shorten n' (removelast segments)
  end.

(** From all segments down to the first one. *)
Definition shortenings (segments : list string) : list string :=
  shorten (List.length segments) segments.

(** All prefixes of [s], the shortest first. *)
Fixpoint inits (s : string) : list string :=
  "" :: match s with
        | "" => []
        | String c s' => map (String c) (inits s')
        end.

(** The first route in registration order that accepts the first
    candidate accepted by any route. *)
Fixpoint firstAccepted (routes : list (string * Router.RouteConfig))
  (paths : list string) : option (string * Router.RouteConfig) :=
  match paths with
  | [] => None
  | p :: paths' =>
      match List.find (Router.accepts p) routes with
      | Some route => Some route
      | None => firstAccepted routes paths'
      end
  end.

(** [route] is the first entry of [routes] that accepts [p]. *)
Definition firstIn (routes : list (string * Router.RouteConfig)) (p : string)
  (route : string * Router.RouteConfig) : Prop :=
  exists before after,
    routes = before ++ route :: after /\
    Router.accepts p route = true /\
    forall r, In r before -> Router.accepts p r = false.

(** No entry of [routes] accepts [p]. *)
Definition rejected (routes : list (string * Router.RouteConfig)) (p : string)
  : Prop :=
  forall r, In r routes -> Router.accepts p r = false.
(** The number of content acquisitions for the full path [key] so far. *)
Definition acquires (key : option string) (e : Router.event) : bool :=
  match e with
  | Router.EAcquire _ k => JsMap.okey_eqb k key
  | _ => false
  end.

Definition acquisitions (key : option string) (w : Router.World) : nat :=
  List.length (filter (acquires key) (Router.trace (Router.browser w))).

(** The page cache holds [content] for [key]. *)
Definition cached (key : option string) (content : value) (w : Router.World)
  : Prop :=
  JsMap.get JsMap.okey_eqb key (Router.pageCache (Router.router w))
  = Some content.
(** A step that leaves the page cache alone and acquires nothing. *)
Definition quiet (w w' : Router.World) : Prop :=
  Router.pageCache (Router.router w') = Router.pageCache (Router.router w) /\
  forall key, acquisitions key w' = acquisitions key w.

(** A step after which every entry of the page cache is still there. *)
Definition grows (w w' : Router.World) : Prop :=
  forall key content, cached key content w -> cached key content w'.

(** [m] relates the state before it to the state after it by [R],
    whether it returns or throws. *)
Definition keeps (R : Router.World -> Router.World -> Prop) {A : Type}
  (m : Router.M A) : Prop :=
  forall w, R w (snd (m w)).

(** [executeRouteWithLayout] on a cache hit: the cached content takes
    the place of the acquired one. *)
Definition renderCached (routeConfig : Router.RouteConfig) (content : value)
  (context : Router.Context) : Router.M unit :=
  Router.try_catch
    (Router.bindM
       match Router.truthy_layout (Router.layout routeConfig) with
       | Some l => Router.applyLayout l content context
       | None => Router.ret content
       end
       Router.renderContent)
    (fun error => Router.handleRouteError error context).
(** The state after [pageCache.set(key, content)]. *)
Definition store (key : option string) (content : value) (w : Router.World)
  : Router.World :=
  Router.mkWorld
    (Router.set_pageCache
       (JsMap.set JsMap.okey_eqb key content
                  (Router.pageCache (Router.router w)))
       (Router.router w))
    (Router.browser w).

(** *** Guards and middleware *)

(** The state after the events [es] have been recorded. *)
Definition record (es : list Router.event) (w : Router.World) : Router.World :=
  Router.mkWorld (Router.router w)
    (Router.set_trace (Router.trace (Router.browser w) ++ es)
                      (Router.browser w)).

(** A guard lets the navigation pass when it returns something other
    than [false]. *)
Definition passes (context : Router.Context) (guard : Router.fn) : bool :=
  match Router.fn_call guard context with
  | Router.Returns result => negb (is_false result)
  | Router.Throws _ => false
  end.

(** The guards that are called: all up to the first that does not let
    the navigation pass, that one included. *)
Fixpoint called (context : Router.Context) (guards : list Router.fn)
  : list Router.fn :=
  match guards with
  | [] => []
  | guard :: rest =>
      guard :: (if passes context guard then called context rest else [])
  end.

(** What the middleware loop answers: [Returns true] when every
    middleware returns something other than [false], [Returns false] at
    the first that returns [false], and the error of the first that
    throws. *)
Fixpoint verdict (context : Router.Context) (middlewares : list Router.fn)
  : Router.outcome bool :=
  match middlewares with
  | [] => Router.Returns true
  | m :: rest =>
      match Router.fn_call m context with
      | Router.Returns result =>
          if is_false result then Router.Returns false
          else verdict context rest
      | Router.Throws e => Router.Throws e
      end
  end.

(** The middleware that is called: all up to the first that returns
    [false] or throws, that one included. *)
Fixpoint reached (context : Router.Context) (middlewares : list Router.fn)
  : list Router.fn :=
  match middlewares with
  | [] => []
  | m :: rest =>
      m :: match Router.fn_call m context with
           | Router.Returns result =>
               if is_false result then [] else reached context rest
           | Router.Throws _ => []
           end
  end.

(** The guards that [runRouteGuards] finds under [key]. *)
Definition guardsUnder (key : string) (this : Router.VelocityRouter)
  : list Router.fn :=
  match JsMap.get String.eqb key (Router.routeGuards this) with
  | Some gs => gs
  | None => []
  end.

(** The context that [handleRoute] builds for [fullPath] when it has
    matched the route with the configuration [config]. *)
Definition contextFor (fullPath : string) (config : Router.RouteConfig)
  (b : Router.Browser) : Router.Context :=
  let pathname := fst (Router.parseUrl fullPath b) in
  let search := snd (Router.parseUrl fullPath b) in
  {| Router.ctx_path := pathname;
     Router.ctx_fullPath := Some fullPath;
     Router.ctx_params :=
       Pattern.extractParams pathname (Router.regex config) (Router.keys config);
     Router.ctx_query := Router.parseQuery search b;
     Router.ctx_route := Router.configValue config |}.

(** The state in which [handleRoute] runs the guards: the parameters
    of the route and of the query have been stored. *)
Definition resolved (fullPath : string) (config : Router.RouteConfig)
  (w : Router.World) : Router.World :=
  let context := contextFor fullPath config (Router.browser w) in
  Router.mkWorld
    (Router.set_queryParams (Router.ctx_query context)
       (Router.set_routeParams (Router.ctx_params context) (Router.router w)))
    (Router.browser w).

Definition guardEvents (context : Router.Context) (guards : list Router.fn)
  : list Router.event :=
  map (fun g => Router.EGuard (Router.fn_name g)) (called context guards).

Definition middlewareEvents (context : Router.Context)
  (middlewares : list Router.fn) : list Router.event :=
  map (fun m => Router.EMiddleware (Router.fn_name m))
      (reached context middlewares).

(** *** Navigation state *)

(** What only [navigate] itself writes: the in-flight flag, the queue,
    the saved scroll positions, the loading indicator, the history with
    the address, and the pending timers. *)
Definition control (w : Router.World)
  : bool * list (string * Router.NavOptions) * list (string * (Z * Z))
    * (bool * list (option Router.HistoryState) * string
       * list (string * Router.NavOptions) * Z) :=
  (Router.isTransitioning (Router.router w),
   Router.transitionQueue (Router.router w),
   Router.scrollPositions (Router.router w),
   (Router.loading (Router.browser w), Router.history (Router.browser w),
    Router.location (Router.browser w), Router.timers (Router.browser w),
    Router.now (Router.browser w))).

Definition steady (w w' : Router.World) : Prop := control w' = control w.

(** The history after [pushState] or [replaceState] with [p]. *)
Definition historyAfter (options : Router.NavOptions) (p : string)
  (b : Router.Browser) : list (option Router.HistoryState) :=
  (if Router.replace options then removelast (Router.history b)
   else Router.history b)
  ++ [Some (Router.mkHistoryState p (Router.now b))].


(** The route that [handle404] falls back to. *)
Definition notFoundRoute (this : Router.VelocityRouter)
  : option Router.RouteConfig :=
  Router.or_else (JsMap.get String.eqb "*" (Router.routes this))
                 (JsMap.get String.eqb "/404" (Router.routes this)).





(** *** What a navigation goes by *)

(** What registration and the environment decide; no navigation writes
    it. *)
Definition setting (w : Router.World)
  : list (string * Router.RouteConfig) * list Router.fn
    * list (string * list Router.fn) * list (string * Router.Transition)
    * list (string * Router.fn)
    * ((string -> Router.outcome Router.Response)
       * (string -> list (string * string))
       * (value -> string -> value) * (string -> option string)) :=
  (Router.routes (Router.router w), Router.middlewares (Router.router w),
   Router.routeGuards (Router.router w), Router.transitions (Router.router w),
   Router.routeComponents (Router.router w),
   (Router.fetch (Router.browser w), Router.urlSearchParams (Router.browser w),
    Router.prototypes (Router.browser w), Router.refuses (Router.browser w))).

Definition fixed (w w' : Router.World) : Prop := setting w' = setting w.

(** [navigate(p, options)] goes past its two checks: no navigation is
    in flight and [p] is not the committed full path, or [force] is
    set. *)
Definition entered (p : string) (options : Router.NavOptions)
  (w : Router.World) : Prop :=
  (Router.isTransitioning (Router.router w) && negb (Router.force options)
   = false) /\
  (Router.onRoute (Router.router w) p && negb (Router.force options) = false).

(** The navigation to [p] resolves [route]: it is the route that
    [matchRoute] finds, and its guards and the middleware let the
    navigation pass. *)
Definition admitted (p : string) (route : string * Router.RouteConfig)
  (w : Router.World) : Prop :=
  Router.matchRoute (Router.router w)
                    (fst (Router.parseUrl p (Router.browser w)))
  = Some route /\
  forallb (passes (contextFor p (snd route) (Router.browser w)))
          (guardsUnder
             (Router.ctx_path (contextFor p (snd route) (Router.browser w)))
             (Router.router w)) = true /\
  forallb (passes (contextFor p (snd route) (Router.browser w)))
          (Router.middlewares (Router.router w)
           ++ Router.middleware (snd route)) = true.

(** The transition out of the committed route, if there is one, does
    not throw. *)
Definition departs (w : Router.World) : Prop :=
  match Router.currentRoute (Router.router w) with
  | Some current =>
      fst (Router.applyTransitionOut current w) = Router.Returns tt
  | None => True
  end.

(** The state in which [navigate] awaits [handleRouteWithTransition]. *)
Definition begun (w : Router.World) : Router.World :=
  Router.mkWorld
    (match Router.truthy_string
             (Router.currentFullPath (Router.router w)) with
     | Some current =>
         Router.set_scrollPositions
           (JsMap.set String.eqb current (Router.scroll (Router.browser w))
              (Router.scrollPositions (Router.router w)))
           (Router.set_isTransitioning true (Router.router w))
     | None => Router.set_isTransitioning true (Router.router w)
     end)
    (Router.set_loading true (Router.browser w)).

(** A step that leaves alone the page cache, the record of the
    acquisitions, the address and what a navigation goes by. *)
Definition calm (w w' : Router.World) : Prop :=
  quiet w w' /\ fixed w w' /\
  Router.location (Router.browser w') = Router.location (Router.browser w).

(** A step that acquires nothing under [key]. *)
Definition mute (key : option string) (w w' : Router.World) : Prop :=
  acquisitions key w' = acquisitions key w.

(** *** Paths and addresses *)

(** [s] without one slash at its end, if it has one. *)
Fixpoint stripTrailingSlash (s : string) : string :=
  match s with
  | "" => ""
  | String c s' =>
      match s' with
      | "" => if Ascii.eqb c "/" then "" else s
      | _ => String c (stripTrailingSlash s')
      end
  end.

(** [s] without one slash at its beginning, if it has one. *)
Definition stripLeadingSlash (s : string) : string :=
  match s with
  | String c s' => if Ascii.eqb c "/" then s' else s
  | "" => ""
  end.

(** The text of [s] up to its first [c], or all of it. *)
Fixpoint upTo (c : ascii) (s : string) : string :=
  match s with
  | "" => ""
  | String d s' => if Ascii.eqb d c then "" else String d (upTo c s')
  end.

(** The value of the last pair with the key [k]. *)
Definition lastValue (k : string) (pairs : list (string * string))
  : option string :=
  fold_left (fun acc kv => if String.eqb k (fst kv) then Some (snd kv) else acc)
            pairs None.

(** *** Compiled patterns *)

(** The characters that [pathToRegex] escapes. *)
Definition special (c : ascii) : bool :=
  JsString.mem c "-/\^$*+?.()|[]{}".

(** [s] with a backslash in front of every special character. *)
Fixpoint escaped (s : string) : string :=
  match s with
  | "" => ""
  | String c s' =>
      if special c then String "\" (String c (escaped s'))
      else String c (escaped s')
  end.

(** The pattern that matches the text [s] up to the end of the input. *)
Fixpoint exactly (s : string) : re :=
  match s with
  | "" => Eol
  | String c s' => Seq (Chr c) (exactly s')
  end.

(** The atoms of [exactly s], last one first, on top of [atoms]. *)
Fixpoint pushed (s : string) (atoms : list re) : list re :=
  match s with
  | "" => atoms
  | String c s' => pushed s' (Chr c :: atoms)
  end.

(** The atoms of [exactly s], first one first. *)
Fixpoint atomsOf (s : string) : list re :=
  match s with
  | "" => [Eol]
  | String c s' => Chr c :: atomsOf s'
  end.







(** *** The committed route *)



(** *** Registration *)

(** [addNestedRoutes(parentPath, nestedRoutes)] *)
Fixpoint addNestedRoutes (parentPath : string)
  (nestedRoutes : list Router.Options) (this : Router.VelocityRouter)
  : option Router.VelocityRouter :=
  match nestedRoutes with
  | [] => Some this
  | route :: rest =>
      Pattern.bind
        (Router.addRoute (Router.joinPaths parentPath (Router.o_path route))
                         (Router.o_handler route) route this)
        (addNestedRoutes parentPath rest)
  end.

(** The registered paths, in the order in which [matchRoute] tries
    them. *)
Definition paths (this : Router.VelocityRouter) : list string :=
  map fst (Router.routes this).

(** The full paths of the nested routes of [parentPath]. *)
Definition childPaths (parentPath : string)
  (nestedRoutes : list Router.Options) : list string :=
  map (fun route => Router.joinPaths parentPath (Router.o_path route))
      nestedRoutes.

(** A route without nested routes. *)
Definition leaf (route : Router.Options) : Prop :=
  Router.o_children route = [].

(** *** Listeners *)

(** The callbacks registered for [event], in the order of their
    registration. *)
Definition listenersOf (event : string)
  (eventListeners : list (string * list Events.Callback))
  : list Events.Callback :=
  match JsMap.get String.eqb event eventListeners with
  | Some listeners => listeners
  | None => []
  end.

(** [callback] is none of [listeners]. *)
Definition unregistered (callback : Events.Callback)
  (listeners : list Events.Callback) : Prop :=
  forall c, In c listeners -> Events.same c callback = false.


End Spec.

(* ================================================================== *)
(** * Properties *)

(** ** Strings *)

Section StringFacts.

Lemma sapp_nil_r (s : string) : s +++ "" = s.
Proof. induction s as [|c s IH]; simpl; [reflexivity | now rewrite IH]. Qed.

Lemma sapp_assoc (a b c : string) : (a +++ b) +++ c = a +++ b +++ c.
Proof. induction a as [|x a IH]; simpl; [reflexivity | now rewrite IH]. Qed.




Lemma take_0 (s : string) : JsString.take 0 s = "".
Proof. now destruct s. Qed.

Lemma drop_app (a b : string) : JsString.drop (String.length a) (a +++ b) = b.
Proof. induction a as [|x a IH]; simpl; [now destruct b | exact IH]. Qed.

Lemma startsWith_app (p s : string) : JsString.startsWith p (p +++ s) = true.
Proof.
  induction p as [|c p IH]; simpl; [now destruct s |].
  now rewrite Ascii.eqb_refl, IH.
Qed.

Lemma startsWith_inv (p s : string) :
  JsString.startsWith p s = true -> exists t, s = p +++ t.
Proof.
  revert s; induction p as [|c p IH]; intros s H.
  - exists s. reflexivity.
  - destruct s as [|d s]; [discriminate |]. simpl in H.
    apply andb_true_iff in H as [Hc Hp]. apply Ascii.eqb_eq in Hc. subst d.
    destruct (IH _ Hp) as [t ->]. now exists t.
Qed.

Lemma split_go_piece (sep : ascii) (a : string) :
  JsString.mem sep a = false ->
  forall cur b,
    JsString.split_go sep cur (a +++ String sep b)
    = (cur +++ a) :: JsString.split_go sep "" b.
Proof.
  induction a as [|c a IH]; intros H cur b.
  - cbn. now rewrite Ascii.eqb_refl, sapp_nil_r.
  - cbn [JsString.mem] in H. apply orb_false_iff in H as [Hc Ha].
    cbn [String.append JsString.split_go]. rewrite Ascii.eqb_sym, Hc.
    rewrite (IH Ha). now rewrite sapp_assoc.
Qed.

Lemma split_go_last (sep : ascii) (a : string) :
  JsString.mem sep a = false ->
  forall cur, JsString.split_go sep cur a = [cur +++ a].
Proof.
  induction a as [|c a IH]; intros H cur.
  - cbn. now rewrite sapp_nil_r.
  - cbn [JsString.mem] in H. apply orb_false_iff in H as [Hc Ha].
    cbn [JsString.split_go]. rewrite Ascii.eqb_sym, Hc.
    rewrite (IH Ha). now rewrite sapp_assoc.
Qed.

End StringFacts.

(** ** The matcher *)

Section RegexFacts.

Import Regex Spec.

(** Every pattern literal of router.js is in the fragment. *)
Lemma literals_parse :
  Forall (fun src => parse src <> None)
         [Pattern.catchAllRouteRegex; Pattern.dynamicRouteRegex;
          Pattern.escapeRegex; Pattern.restoreCatchAllRegex;
          Pattern.restoreDynamicRegex; Router.placeholderRegex;
          "\/$"; "^\/"].
Proof. repeat constructor; vm_compute; discriminate. Qed.











Lemma replace_loop_S (fuel : nat) (r : re) (f : result -> string) (pos : nat)
  (s : string) :
  replace_loop (S fuel) r f pos s
  = match search r pos s with
    | None => s
    | Some (skipped, res) =>
        skipped +++ f res +++
        match r_match res with
        | "" =>
            match r_after res with
            | "" => ""
            | String c s' =>
                String c (replace_loop fuel r f (S (r_index res)) s')
            end
        | _ =>
            replace_loop fuel r f
                         (r_index res + String.length (r_match res))
                         (r_after res)
        end
    end.
Proof. reflexivity. Qed.













End RegexFacts.

(** ** Template substitution *)

Section TemplateFacts.

Import Regex JsValue Spec.

Lemma placeholder_literal : literal Router.placeholderRegex = placeholderRe.
Proof. reflexivity. Qed.

Lemma eat_cons (ok : ascii -> bool) (pos : nat) (c : ascii) (s : string)
  (caps : list (nat * string)) :
  eat ok (mkMstate pos (String c s) caps)
  = if ok c then [mkMstate (S pos) s caps] else [].
Proof. reflexivity. Qed.






Lemma run_seq (a b : re) (st : mstate) :
  run (Seq a b) st = flat_map (run b) (run a st).
Proof. reflexivity. Qed.


Lemma flat_map_one (f : mstate -> list mstate) (x : mstate) :
  flat_map f [x] = f x.
Proof. simpl. apply List.app_nil_r. Qed.










End TemplateFacts.

(** ** Placeholders *)

Section KeyFacts.

Import Router Spec JsValue.














End KeyFacts.

Section TemplateClaim.

Import Router Spec JsValue.



End TemplateClaim.

(** ** Route matching *)

Section MatchFacts.

Import Router Spec.

Lemma find_firstIn (routes : list (string * RouteConfig)) (p : string)
  (route : string * RouteConfig) :
  List.find (accepts p) routes = Some route <-> firstIn routes p route.
Proof.
  split.
  - induction routes as [|x routes IH]; simpl; [discriminate |].
    destruct (accepts p x) eqn:E.
    + intros [= <-]. exists [], routes. repeat split; [assumption |].
      intros r [].
    + intros H. destruct (IH H) as [before [after [-> [Ha Hb]]]].
      exists (x :: before), after. repeat split; [assumption |].
      intros r [<- | Hr]; auto.
  - intros [before [after [-> [Ha Hb]]]].
    induction before as [|x before IH]; simpl.
    + now rewrite Ha.
    + rewrite (Hb x (or_introl eq_refl)). apply IH.
      intros r Hr. apply Hb. now right.
Qed.

Lemma find_rejected (routes : list (string * RouteConfig)) (p : string) :
  List.find (accepts p) routes = None <-> rejected routes p.
Proof.
  split.
  - intros H r Hr. exact (find_none _ _ H r Hr).
  - intros H. induction routes as [|x routes IH]; simpl; [reflexivity |].
    rewrite (H x (or_introl eq_refl)). apply IH.
    intros r Hr. apply H. now right.
Qed.

Lemma nestedMatch_firstAccepted (routes : list (string * RouteConfig))
  (segments : list string) (i : nat) :
  nestedMatch routes segments i
  = firstAccepted routes (map (partialPath segments) (List.rev (seq 1 i))).
Proof.
  induction i as [|i IH]; [reflexivity |].
  rewrite seq_S, rev_app_distr. simpl. unfold firstMatch. now rewrite IH.
Qed.

(** [matchRoute] tries the candidates in order, each against the routes
    in registration order. *)
Lemma matchRoute_firstAccepted (this : VelocityRouter) (pathname : string) :
  matchRoute this pathname = firstAccepted (routes this) (candidates pathname).
Proof.
  unfold matchRoute, candidates. simpl. unfold firstMatch.
  destruct (List.find (accepts pathname) (routes this)); [reflexivity |].
  apply nestedMatch_firstAccepted.
Qed.

Lemma firstAccepted_some (routes : list (string * RouteConfig))
  (paths : list string) (route : string * RouteConfig) :
  firstAccepted routes paths = Some route <->
  exists earlier p later,
    paths = earlier ++ p :: later /\
    firstIn routes p route /\
    forall q, In q earlier -> rejected routes q.
Proof.
  split.
  - induction paths as [|q paths IH]; simpl; [discriminate |].
    destruct (List.find (accepts q) routes) as [r|] eqn:E.
    + intros [= <-]. exists [], q, paths. repeat split.
      * now apply find_firstIn.
      * intros ? [].
    + intros H. destruct (IH H) as [earlier [p [later [-> [Hp He]]]]].
      exists (q :: earlier), p, later. repeat split; [assumption |].
      intros q' [<- | Hq]; [now apply find_rejected | auto].
  - intros [earlier [p [later [-> [Hp He]]]]].
    induction earlier as [|q earlier IH]; simpl.
    + apply find_firstIn in Hp. now rewrite Hp.
    + assert (Hq : rejected routes q) by (apply He; now left).
      apply find_rejected in Hq. rewrite Hq. apply IH.
      intros q' Hq'. apply He. now right.
Qed.

Lemma firstAccepted_none (routes : list (string * RouteConfig))
  (paths : list string) :
  firstAccepted routes paths = None <->
  forall p, In p paths -> rejected routes p.
Proof.
  induction paths as [|q paths IH]; simpl.
  - split; [intros _ p [] | reflexivity].
  - destruct (List.find (accepts q) routes) as [r|] eqn:E.
    + split; [discriminate |]. intros H.
      assert (Hq : rejected routes q) by (apply H; now left).
      apply find_rejected in Hq. congruence.
    + rewrite IH. split.
      * intros H p [<- | Hp]; [now apply find_rejected | auto].
      * intros H p Hp. apply H. now right.
Qed.

End MatchFacts.

Section SegmentFacts.

Import Router Spec JsValue.

Lemma split_go_skip (sep : ascii) (a : string) :
  JsString.mem sep a = false ->
  forall cur b,
    JsString.split_go sep cur (a +++ b) = JsString.split_go sep (cur +++ a) b.
Proof.
  induction a as [|c a IH]; intros H cur b.
  - cbn. now rewrite sapp_nil_r.
  - cbn [JsString.mem] in H. apply orb_false_iff in H as [Hc Ha].
    cbn [String.append JsString.split_go]. rewrite Ascii.eqb_sym, Hc.
    rewrite (IH Ha). now rewrite sapp_assoc.
Qed.

Lemma segment_inv (s : string) :
  segment s = true -> s <> "" /\ JsString.mem "/" s = false.
Proof.
  unfold segment. intros H. apply andb_true_iff in H as [H1 H2].
  apply negb_true_iff in H1, H2. apply String.eqb_neq in H1. now split.
Qed.

(** The pieces between the slashes of a path are an empty piece, the
    segments, and an empty piece when the path ends in a slash. *)
Lemma split_pathOf (segments : list string) (trailing : bool) :
  forallb segment segments = true ->
  forall cur,
    JsString.split_go "/" cur
      (pathOf segments +++ (if trailing then "/" else ""))
    = cur :: segments ++ (if trailing then [""] else []).
Proof.
  induction segments as [|s rest IH]; intros H cur.
  - destruct trailing; reflexivity.
  - cbn [forallb] in H. apply andb_true_iff in H as [Hs Hr].
    apply segment_inv in Hs as [_ Hs].
    cbn [pathOf String.append JsString.split_go Ascii.eqb Bool.eqb].
    f_equal. rewrite sapp_assoc, (split_go_skip "/" s Hs "").
    cbn [String.append]. apply (IH Hr).
Qed.

Lemma filter_segments (segments : list string) :
  forallb segment segments = true ->
  filter (fun s => negb (String.eqb s "")) segments = segments.
Proof.
  induction segments as [|s rest IH]; [reflexivity |].
  cbn [forallb filter]. intros H. apply andb_true_iff in H as [Hs Hr].
  unfold segment in Hs. apply andb_true_iff in Hs as [Hs _].
  now rewrite Hs, IH.
Qed.

Lemma segmentsOf_pathOf (segments : list string) (trailing : bool) :
  forallb segment segments = true ->
  segmentsOf (pathOf segments +++ (if trailing then "/" else "")) = segments.
Proof.
  intros H. unfold segmentsOf, JsString.split.
  rewrite (split_pathOf segments trailing H "").
  cbn [filter String.eqb negb]. rewrite filter_app, (filter_segments _ H).
  destruct trailing; cbn; now rewrite List.app_nil_r.
Qed.

Lemma join_pathOf (l : list string) :
  l <> [] -> "/" +++ JsString.join "/" l = pathOf l.
Proof.
  induction l as [|x l IH]; [congruence |]. intros _.
  destruct l as [|y l].
  - cbn. now rewrite sapp_nil_r.
  - change (pathOf (x :: y :: l)) with ("/" +++ x +++ pathOf (y :: l)).
    rewrite <- IH by discriminate. reflexivity.
Qed.

Lemma partialPath_pathOf (segments : list string) (i : nat) :
  0 < i -> segments <> [] ->
  partialPath segments i = pathOf (firstn i segments).
Proof.
  intros Hi Hs. unfold partialPath. apply join_pathOf.
  destruct i; [lia |]. destruct segments; [congruence | discriminate].
Qed.

Lemma length_removelast_S {A : Type} (l : list A) :
  forall n, List.length l = S n -> List.length (removelast l) = n.
Proof.
  induction l as [|a l IH]; intros n H; [discriminate |].
  destruct l as [|b l]; [cbn in *; lia |].
  destruct n as [|n]; [discriminate |].
  change (removelast (a :: b :: l)) with (a :: removelast (b :: l)).
  cbn [List.length]. f_equal. apply IH. cbn [List.length] in *. lia.
Qed.

Lemma shorten_firstn (n : nat) :
  forall segments,
    List.length segments = n ->
    map (fun i => pathOf (firstn i segments)) (List.rev (seq 1 n))
    = shorten n segments.
Proof.
  induction n as [|n IH]; intros segments Hl; [reflexivity |].
  rewrite seq_S, rev_app_distr. cbn [List.rev List.app map shorten Nat.add].
  rewrite <- Hl, firstn_all. f_equal.
  rewrite <- (IH (removelast segments)).
  - apply map_ext_in. intros i Hi. apply in_rev, in_seq in Hi.
    rewrite firstn_removelast; [reflexivity | lia].
  - now apply length_removelast_S.
Qed.

(** The paths that [matchRoute] tries for a path of segments. *)
Lemma candidates_pathOf (segments : list string) (trailing : bool) :
  forallb segment segments = true ->
  candidates (pathOf segments +++ (if trailing then "/" else ""))
  = (pathOf segments +++ (if trailing then "/" else ""))
      :: shortenings segments.
Proof.
  intros H. unfold candidates, shortenings. cbv zeta.
  rewrite (segmentsOf_pathOf segments trailing H). f_equal.
  rewrite <- (shorten_firstn (List.length segments) segments eq_refl).
  apply map_ext_in. intros i Hi. apply in_rev, in_seq in Hi.
  apply partialPath_pathOf; [lia |].
  destruct segments; [cbn in Hi; lia | discriminate].
Qed.

Lemma pathOf_app (a b : list string) : pathOf (a ++ b) = pathOf a +++ pathOf b.
Proof.
  induction a as [|s a IH]; [reflexivity |].
  cbn [List.app pathOf]. now rewrite IH, !sapp_assoc.
Qed.

Lemma prefix_app (a b : string) : String.prefix a (a +++ b) = true.
Proof.
  induction a as [|c a IH]; [now destruct b |].
  cbn. destruct (ascii_dec c c); [exact IH | congruence].
Qed.

Lemma shortenings_prefix (segments : list string) (rest p : string) :
  In p (shortenings segments) -> String.prefix p (pathOf segments +++ rest) = true.
Proof.
  unfold shortenings.
  rewrite <- (shorten_firstn (List.length segments) segments eq_refl).
  intros H. apply in_map_iff in H as [i [<- _]].
  rewrite <- (firstn_skipn i segments) at 2.
  rewrite pathOf_app, sapp_assoc. apply prefix_app.
Qed.

Lemma prefix_inits (s : string) :
  forall p, String.prefix p s = true -> In p (inits s).
Proof.
  induction s as [|c s IH]; intros p H.
  - destruct p; [now left | discriminate].
  - destruct p as [|a p]; [now left |]. right.
    cbn in H. destruct (ascii_dec a c) as [-> |]; [| discriminate].
    apply in_map, IH, H.
Qed.

End SegmentFacts.

Section MatchClaim.

Import Router Spec JsValue.

(** C5 as stated fails for a pathname with an empty segment: the paths
    that are retried are put together from the segments that are not
    empty, so they need not be prefixes of the pathname.  With the route
    "/a/b" alone, no prefix of "/a//b" is accepted by a route, and
    [matchRoute] answers the route "/a/b" for it. *)
Lemma doubled_slash_matches_non_prefix :
  let this :=
    Examples.register "/a/b" (Examples.page "AB") Examples.noOptions newRouter in
  (forall p, String.prefix p "/a//b" = true -> rejected (routes this) p) /\
  option_map fst (matchRoute this "/a//b") = Some "/a/b".
Proof.
  split; [| vm_compute; reflexivity].
  intros p H r Hr. apply prefix_inits in H.
  assert (E : r = ("/a/b", Examples.abConfig)).
  { vm_compute in Hr. destruct Hr as [<- | []]. vm_compute. reflexivity. }
  subst r. cbn [inits map] in H.
  repeat (destruct H as [<- | H]; [vm_compute; reflexivity |]).
  destruct H.
Qed.

(** C5, amended.  For a pathname that is made of segments, each begun
    by a slash and none of them empty, with or without a slash at its
    end: [matchRoute] answers the first definition in registration order
    whose matcher accepts the pathname; when none accepts it, the
    pathname is shortened by removing trailing segments, from all of its
    segments down to the first one, and each of these prefixes is tried
    against all routes in registration order; the answer is [null]
    exactly when no route accepts the pathname or one of these
    prefixes. *)
Theorem matchRoute_first_match (this : VelocityRouter)
  (segments : list string) (trailing : bool) :
  forallb segment segments = true ->
  let pathname := pathOf segments +++ (if trailing then "/" else "") in
  (forall route,
     firstIn (routes this) pathname route ->
     matchRoute this pathname = Some route) /\
  (rejected (routes this) pathname ->
   matchRoute this pathname
   = firstAccepted (routes this) (shortenings segments)) /\
  (forall route,
     matchRoute this pathname = Some route <->
     exists earlier p later,
       pathname :: shortenings segments = earlier ++ p :: later /\
       firstIn (routes this) p route /\
       forall q, In q earlier -> rejected (routes this) q) /\
  (matchRoute this pathname = None <->
   forall p, In p (pathname :: shortenings segments) -> rejected (routes this) p) /\
  (forall p, In p (shortenings segments) -> String.prefix p pathname = true).
Proof.
  intros Hs pathname.
  rewrite matchRoute_firstAccepted. unfold pathname.
  rewrite (candidates_pathOf segments trailing Hs).
  split; [| split; [| split; [| split]]].
  - intros route H. apply find_firstIn in H. cbn [firstAccepted].
    now rewrite H.
  - intros H. apply find_rejected in H. cbn [firstAccepted].
    now rewrite H.
  - intros route. apply firstAccepted_some.
  - apply firstAccepted_none.
  - intros p. apply shortenings_prefix.
Qed.

(** With the page "/user" alone, "/user/settings/" falls back to it. *)
Lemma matchRoute_first_match_witness :
  option_map fst (matchRoute Examples.userApp "/user/settings/") = Some "/user" /\
  (matchRoute Examples.userApp "/user/settings/" = None <->
   forall p,
     In p ["/user/settings/"; "/user/settings"; "/user"] ->
     rejected (routes Examples.userApp) p).
Proof.
  split; [vm_compute; reflexivity |].
  apply (proj1 (proj2 (proj2 (proj2
           (matchRoute_first_match Examples.userApp ["user"; "settings"] true
              eq_refl))))).
Defined.

End MatchClaim.

(** ** Layout placeholder *)

Section LayoutFacts.

Import Regex Spec JsValue.

(** A replacement string without [$] stands for itself. *)
Lemma expand_plain (matched before after : string) (caps : list (nat * string))
  (n : nat) (t : string) :
  JsString.mem "$" t = false -> expand matched before after caps n t = t.
Proof.
  induction t as [|c t IH]; [reflexivity |]. intros H.
  cbn [JsString.mem] in H. apply orb_false_iff in H as [Hc Ht].
  rewrite Ascii.eqb_sym in Hc. cbn [expand]. rewrite Hc. cbn [negb].
  now rewrite IH.
Qed.

Lemma find_absent (p before after : string) :
  absent p before (p +++ after) = true ->
  JsString.find p (before +++ p +++ after) = Some (before, after).
Proof.
  induction before as [|c before IH]; intros H.
  - assert (E : JsString.find p (p +++ after)
                = Some ("", JsString.drop (String.length p) (p +++ after))).
    { destruct p; simpl; [now destruct after |].
      now rewrite Ascii.eqb_refl, startsWith_app. }
    simpl String.append. rewrite E. now rewrite drop_app.
  - cbn [absent] in H. apply andb_true_iff in H as [H1 H2].
    apply negb_true_iff in H1.
    change (String c before +++ p +++ after)
      with (String c (before +++ p +++ after)) in *.
    cbn [JsString.find]. rewrite H1. now rewrite (IH H2).
Qed.

(** [s.replace(p, t)] for strings [p] and [t], [t] without [$]: the first
    occurrence of [p] is replaced by [t] and whatever follows it is
    kept, further occurrences of [p] included. *)
Lemma replace_first_plain (p t before after : string) :
  absent p before (p +++ after) = true ->
  JsString.mem "$" t = false ->
  replace_first p (template 0 t) (before +++ p +++ after)
  = before +++ t +++ after.
Proof.
  intros Ha Ht. unfold replace_first. rewrite (find_absent _ _ _ Ha).
  unfold template. now rewrite expand_plain.
Qed.

Lemma find_none_absent (p s : string) :
  JsString.find p s = None -> forall before after, s <> before +++ p +++ after.
Proof.
  induction s as [|c s IH]; intros H before after E.
  - cbn [JsString.find] in H. destruct (JsString.startsWith p "") eqn:Es;
      [discriminate |].
    destruct before; [| discriminate]. destruct p; [discriminate | discriminate].
  - cbn [JsString.find] in H.
    destruct (JsString.startsWith p (String c s)) eqn:Es; [discriminate |].
    destruct (JsString.find p s) as [[b a]|] eqn:Ef; [discriminate |].
    destruct before as [|d before].
    + simpl in E. rewrite E, startsWith_app in Es. discriminate.
    + injection E as -> E. exact (IH eq_refl before after E).
Qed.

End LayoutFacts.

(** ** Compiled patterns and parameters *)

Section PatternFacts.

Import Regex Pattern Spec JsValue Examples.

Lemma match_at_nil (r : re) (pos : nat) (s : string) :
  run r (mkMstate pos s []) = [] -> match_at r pos s = None.
Proof. unfold match_at. now intros ->. Qed.

(** The pattern of the second restoring step has [^] after three
    characters, so it matches nowhere. *)
Lemma restoreDynamic_no_match (pos : nat) (s : string) :
  match_at (literal restoreDynamicRegex) pos s = None.
Proof.
  apply match_at_nil.
  change (literal restoreDynamicRegex)
    with (Seq (Chr "\") (Seq (Chr "(") (Seq (Chr "\") (Seq (Chr "[")
           (Seq (Chr "\") (Seq Bol
             (literal "\\\/\\\]\\\+\\\)"))))))).
  rewrite !run_seq.
  destruct s as [|c1 s]; [reflexivity |].
  cbn [run]. rewrite eat_cons. destruct (Ascii.eqb "\" c1); [| reflexivity].
  rewrite flat_map_one.
  destruct s as [|c2 s]; [reflexivity |].
  rewrite eat_cons. destruct (Ascii.eqb "(" c2); [| reflexivity].
  rewrite flat_map_one.
  destruct s as [|c3 s]; [reflexivity |].
  rewrite eat_cons. destruct (Ascii.eqb "\" c3); [| reflexivity].
  rewrite flat_map_one.
  destruct s as [|c4 s]; [reflexivity |].
  rewrite eat_cons. destruct (Ascii.eqb "[" c4); [| reflexivity].
  rewrite flat_map_one.
  destruct s as [|c5 s]; [reflexivity |].
  rewrite eat_cons. destruct (Ascii.eqb "\" c5); reflexivity.
Qed.

Lemma search_no_match (r : re) (s : string) :
  (forall pos t, match_at r pos t = None) ->
  forall pos, search r pos s = None.
Proof.
  intros H. induction s as [|c s IH]; intros pos; simpl; rewrite H;
    [reflexivity | now rewrite IH].
Qed.

(** So the second restoring step of [pathToRegex] changes nothing: a
    dynamic segment stays escaped in the compiled pattern. *)
Lemma restoreDynamic_identity (t s : string) :
  replace_g restoreDynamicRegex t s = s.
Proof.
  unfold replace_g, replace_all. rewrite replace_loop_S.
  now rewrite (search_no_match _ s restoreDynamic_no_match).
Qed.

(** C6 (what the code does).  In the pattern that [pathToRegex] compiles
    for "/shop/[category]/[...rest]" the dynamic segment is still
    escaped and stands for the literal text "([^/]+)": the matcher
    rejects "/shop/shoes/red/42" (and "/shop/shoes"), and accepts
    "/shop/([^/]+)/red/42". *)
Theorem pathToRegex_shop_rejects :
  pathToRegexSource "/shop/[category]/[...rest]"
  = "^\/shop\/\(\[\^\/\]\+\)\/(.*)$" /\
  option_map (fun r => (test r "/shop/shoes/red/42", test r "/shop/shoes",
                        test r "/shop/([^/]+)/red/42"))
             (pathToRegex "/shop/[category]/[...rest]")
  = Some (false, false, true).
Proof. split; vm_compute; reflexivity. Qed.

(** A catch-all segment alone works: "/blog/[...slug]" on "/blog/a/b/c"
    gives [params.slug = "a/b/c"]. *)
Lemma extractParams_catchAll :
  option_map (fun r => extractParams "/blog/a/b/c" r
                                     (extractKeys "/blog/[...slug]"))
             (pathToRegex "/blog/[...slug]")
  = Some [("slug", VStr "a/b/c")].
Proof. vm_compute. reflexivity. Qed.

(** C4 (what the code does).  For the pattern "/[section]/[...slug]" the
    keys are listed catch-all first, and the compiled matcher does not
    accept "/blog/a/b/c" at all, so no parameter is extracted:
    [params.slug] is [undefined]. *)
Theorem extractParams_mixed_pattern :
  extractKeys sectionPattern = [mkKey "slug" true; mkKey "section" false] /\
  option_map
    (fun r =>
       let params := extractParams "/blog/a/b/c" r (extractKeys sectionPattern) in
       (test r "/blog/a/b/c", params, get (VObj params) "slug"))
    (pathToRegex sectionPattern)
  = Some (false, [], VUndefined).
Proof. split; vm_compute; reflexivity. Qed.

End PatternFacts.

(** ** Navigation: evaluated runs *)

Section NavigationRuns.

Import JsValue Router Spec Examples.

(** [navigate] is its synchronous beginning followed by the rest. *)
Lemma navigate_split (p : string) (options : NavOptions) (w : World) :
  navigate p options w
  = match navigate_begin p options w with
    | (Returns Entered, w') => navigate_finish p options w'
    | (Returns _, w') => (Returns tt, w')
    | (Throws e, w') => navigate_catch p e w'
    end.
Proof.
  unfold navigate, navigate_finish, try_catch, bindM.
  destruct (navigate_begin p options w) as [[[| |]|e] w']; reflexivity.
Qed.

Lemma navigate_begin_returns (p : string) (options : NavOptions) (w : World) :
  exists e w', navigate_begin p options w = (Returns e, w').
Proof.
  unfold navigate_begin, bindM, this, update, ret, saveScrollPosition,
    showLoading, effect, window.
  cbn. destruct (isTransitioning (router w) && negb (force options));
    [eauto |].
  destruct (onRoute (router w) p && negb (force options)); [eauto |].
  destruct (truthy_string (currentFullPath (router w))); cbn; eauto.
Qed.

(** C1 (what the code does).  With the guard [() => false] registered
    for "/admin", [navigate("/admin")] runs the guard, leaves
    [currentRoute] and the mount point as they were, and still pushes a
    history entry for "/admin". *)
Theorem guard_rejection_pushes_history :
  let w := browse adminApp in
  let w' := exec (navigate "/admin" go) w in
  trace (browser w') = [EGuard "() => false"; EPushState "/admin"] /\
  currentRoute (router w') = currentRoute (router w) /\
  app (browser w') = app (browser w) /\
  history (browser w) = [None] /\
  history (browser w') = [None; Some (mkHistoryState "/admin" 0)] /\
  location (browser w') = "/admin".
Proof. repeat split; vm_compute; reflexivity. Qed.

(** C2 (what the code does).  [navigate("/b")] begins, [navigate("/a")]
    arrives and is queued, then the middleware of "/b" throws: the call
    ends with [isTransitioning] false, but "/a" stays in the queue and
    no call is scheduled for it.  When "/b" is the one that is queued
    behind "/a", which succeeds, it is taken from the queue and
    scheduled. *)
Theorem queue_not_drained_after_error :
  let failed :=
    exec (navigate_finish "/b" go)
      (exec (navigate "/a" go) (exec (navigate_begin "/b" go) (browse twoPages))) in
  let succeeded :=
    exec (navigate_finish "/a" go)
      (exec (navigate "/b" go) (exec (navigate_begin "/a" go) (browse twoPages))) in
  (isTransitioning (router failed) = false /\
   transitionQueue (router failed) = [("/a", go)] /\
   timers (browser failed) = []) /\
  (isTransitioning (router succeeded) = false /\
   transitionQueue (router succeeded) = [] /\
   timers (browser succeeded) = [("/b", go)]).
Proof. repeat split; vm_compute; reflexivity. Qed.

(** C3 (what the code does).  The guard registered for the pattern
    "/blog/[...slug]" is looked up under the pathname "/blog/a": it is
    not run, and the navigation commits. *)
Theorem pattern_guard_not_run :
  let w := browse blogApp in
  let w' := exec (navigate "/blog/a" go) w in
  JsMap.get String.eqb "/blog/[...slug]" (routeGuards (router w)) = Some [deny] /\
  option_map fst (matchRoute (router w) "/blog/a") = Some "/blog/[...slug]" /\
  trace (browser w')
  = [EAcquire "/blog/[...slug]" (Some "/blog/a"); ERender (VStr "Blog");
     ERouteChange (Some "/blog/a"); EPushState "/blog/a"] /\
  app (browser w') = VStr "Blog".
Proof. repeat split; vm_compute; reflexivity. Qed.

(** C10 (what the code does).  The content is used as a replacement
    string: in "<p>Use $& to insert the match</p>" the [$&] is replaced
    by the placeholder itself.  Only the first [{{content}}] of the
    layout is replaced. *)
Theorem applyLayout_expands_dollar :
  fst (applyLayout (LFunction shell)
                   (VStr "<p>Use $& to insert the match</p>")
                   homeContext (browse newRouter))
  = Returns
      (VStr "<main><p>Use {{content}} to insert the match</p></main><!-- {{content}} -->").
Proof. vm_compute. reflexivity. Qed.

End NavigationRuns.

(** ** Registration *)

Section RegistrationFacts.

Import JsValue Router Spec Examples.

Lemma get_set_same {V : Type} (k : string) (v : V) (m : list (string * V)) :
  JsMap.get String.eqb k (JsMap.set String.eqb k v m) = Some v.
Proof.
  induction m as [|[k' v'] m IH]; simpl.
  - now rewrite String.eqb_refl.
  - destruct (String.eqb k k') eqn:E; simpl.
    + now rewrite String.eqb_refl.
    + now rewrite E.
Qed.

(** The entry that [addRoute] stores under [path] is the configuration
    built from its own arguments, whatever the nested routes are. *)
Lemma addRoute_stores (path : string) (handler : Handler) (options : Options)
  (this this' : VelocityRouter) :
  addRoute path handler options this = Some this' ->
  exists regex,
    pathToRegex path = Some regex /\
    JsMap.get String.eqb path (routes this')
    = Some (routeConfigOf this path handler options regex (extractKeys path)).
Proof.
  destruct options. cbn [addRoute]. unfold bind at 1.
  destruct (pathToRegex path) as [regex|]; [| discriminate].
  unfold bind at 1.
  match goal with
  | |- match ?nested with _ => _ end = _ -> _ => destruct nested as [r|]
  end; [| discriminate].
  intros [= <-]. exists regex. split; [reflexivity |].
  cbn [routes set_routes]. apply get_set_same.
Qed.

End RegistrationFacts.

(** ** The page cache *)

Section Preservation.

Import JsValue Router Spec.

Variable R : World -> World -> Prop.
Hypothesis R_refl : forall w, R w w.
Hypothesis R_trans : forall a b c, R a b -> R b c -> R a c.

Lemma keeps_ret {A : Type} (a : A) : keeps R (ret a).
Proof. intros w. apply R_refl. Qed.

Lemma keeps_throw {A : Type} (e : string) : keeps R (@throw A e).
Proof. intros w. apply R_refl. Qed.

Lemma keeps_lift {A : Type} (o : outcome A) : keeps R (lift o).
Proof. intros w. apply R_refl. Qed.

Lemma keeps_call (f : fn) (context : Context) : keeps R (call f context).
Proof. intros w. apply R_refl. Qed.

Lemma keeps_this : keeps R this.
Proof. intros w. apply R_refl. Qed.

Lemma keeps_window : keeps R window.
Proof. intros w. apply R_refl. Qed.

Lemma keeps_bind {A B : Type} (m : M A) (k : A -> M B) :
  keeps R m -> (forall a, keeps R (k a)) -> keeps R (bindM m k).
Proof.
  intros Hm Hk w. unfold bindM. specialize (Hm w).
  destruct (m w) as [[a|e] w']; simpl in *; [| assumption].
  eapply R_trans; [exact Hm | apply Hk].
Qed.

Lemma keeps_try {A : Type} (m : M A) (h : string -> M A) :
  keeps R m -> (forall e, keeps R (h e)) -> keeps R (try_catch m h).
Proof.
  intros Hm Hh w. unfold try_catch. specialize (Hm w).
  destruct (m w) as [[a|e] w']; simpl in *; [assumption |].
  eapply R_trans; [exact Hm | apply Hh].
Qed.

Lemma keeps_detached (m : M unit) : keeps R m -> keeps R (detached m).
Proof. intros H. apply keeps_try; [assumption |]. intros e. apply keeps_ret. Qed.

End Preservation.

(** One step of a proof of [keeps R m] along the structure of [m];
    [refl] and [trans] prove that [R] is reflexive and transitive. *)
Ltac keep_step refl trans :=
  first
    [ assumption
    | match goal with H : forall _, _ |- _ => simple apply H end
    | apply keeps_ret; exact refl
    | apply keeps_throw; exact refl
    | apply keeps_lift; exact refl
    | apply keeps_call; exact refl
    | apply keeps_this; exact refl
    | apply keeps_window; exact refl
    | apply keeps_detached; [exact refl | exact trans |]
    | apply keeps_bind; [exact trans | | intros ?]
    | apply keeps_try; [exact trans | | intros ?]
    | match goal with
      | |- Spec.keeps _ (match ?x with _ => _ end) => destruct x
      | |- Spec.keeps _ (if ?x then _ else _) => destruct x
      | |- Spec.keeps _ (let (_, _) := ?x in _) => destruct x
      end ].

Section CacheFacts.

Import JsValue Router Spec.

Lemma quiet_refl (w : World) : quiet w w.
Proof. split; reflexivity. Qed.

Lemma quiet_trans (a b c : World) : quiet a b -> quiet b c -> quiet a c.
Proof.
  intros [H1 H2] [H3 H4]. split; [congruence |].
  intros key. now rewrite H4, H2.
Qed.

Lemma grows_refl (w : World) : grows w w.
Proof. intros key content H. exact H. Qed.

Lemma grows_trans (a b c : World) : grows a b -> grows b c -> grows a c.
Proof. intros H1 H2 key content H. apply H2, H1, H. Qed.

Lemma quiet_grows (a b : World) : quiet a b -> grows a b.
Proof. intros [H _] key content. unfold cached. now rewrite H. Qed.

Lemma keeps_weaken (R R' : World -> World -> Prop) {A : Type} (m : M A) :
  (forall a b, R a b -> R' a b) -> keeps R m -> keeps R' m.
Proof. intros H Hm w. apply H, Hm. Qed.

(** Updates of the router that do not touch the page cache. *)
Lemma quiet_update (f : VelocityRouter -> VelocityRouter) :
  (forall r, pageCache (f r) = pageCache r) -> keeps quiet (update f).
Proof. intros H w. split; [apply H | reflexivity]. Qed.

(** Effects on the browser that do not touch the trace. *)
Lemma quiet_effect (f : Browser -> Browser) :
  (forall b, trace (f b) = trace b) -> keeps quiet (effect f).
Proof.
  intros H w. split; [reflexivity |]. intros key.
  unfold acquisitions. simpl. now rewrite H.
Qed.

Lemma acquisitions_emit (key : option string) (e : event) (w : World) :
  acquisitions key (snd (emit e w))
  = acquisitions key w + (if acquires key e then 1 else 0).
Proof.
  unfold acquisitions, emit, effect. simpl. rewrite filter_app, length_app.
  simpl. now destruct (acquires key e).
Qed.

Lemma quiet_emit (e : event) :
  (forall key, acquires key e = false) -> keeps quiet (emit e).
Proof.
  intros H w. split; [reflexivity |]. intros key.
  rewrite acquisitions_emit, H. lia.
Qed.

Ltac quiet_prim :=
  first
    [ apply quiet_update; intros ?; reflexivity
    | apply quiet_effect; intros ?; reflexivity
    | apply quiet_emit; intros ?; reflexivity ].

Ltac quiet_auto :=
  repeat first [ quiet_prim | keep_step quiet_refl quiet_trans ].

Lemma quiet_renderContent (content : value) : keeps quiet (renderContent content).
Proof. unfold renderContent. quiet_auto. Qed.

Lemma quiet_handleRouteError (error : string) (context : Context) :
  keeps quiet (handleRouteError error context).
Proof. apply quiet_renderContent. Qed.

Lemma quiet_handleNavigationError (error p : string) :
  keeps quiet (handleNavigationError error p).
Proof. apply quiet_renderContent. Qed.

Lemma quiet_fetchHtmlPage (htmlPath : string) (context : Context) :
  keeps quiet (fetchHtmlPage htmlPath context).
Proof. unfold fetchHtmlPage. quiet_auto. Qed.

Lemma quiet_loadPage (pageUrl : string) : keeps quiet (loadPage pageUrl).
Proof. unfold loadPage. quiet_auto. Qed.

Lemma quiet_renderComponent (component : Component) (context : Context) :
  keeps quiet (renderComponent component context).
Proof. unfold renderComponent. quiet_auto. Qed.

Lemma quiet_replaceContent (variable : string) (layoutContent content : value) :
  keeps quiet (replaceContent variable layoutContent content).
Proof. unfold replaceContent. quiet_auto. Qed.

Lemma quiet_applyLayout (layoutName : Layout) (content : value)
  (context : Context) :
  keeps quiet (applyLayout layoutName content context).
Proof.
  unfold applyLayout. pose proof quiet_replaceContent. quiet_auto.
Qed.

Lemma quiet_renderCached (routeConfig : RouteConfig) (content : value)
  (context : Context) :
  keeps quiet (renderCached routeConfig content context).
Proof.
  unfold renderCached.
  pose proof quiet_applyLayout. pose proof quiet_renderContent.
  pose proof quiet_handleRouteError. quiet_auto.
Qed.

(** Content acquisition is recorded once, under the full path of the
    context, and leaves the page cache alone. *)
Lemma getRouteContent_effect (routeConfig : RouteConfig) (context : Context)
  (w : World) :
  let w' := snd (getRouteContent routeConfig context w) in
  pageCache (router w') = pageCache (router w) /\
  acquisitions (ctx_fullPath context) w'
  = S (acquisitions (ctx_fullPath context) w).
Proof.
  unfold getRouteContent.
  set (rest := match fetchHtml routeConfig, _ with
               | true, Some htmlPath => _
               | _, _ => _
               end).
  assert (Hrest : keeps quiet rest).
  { unfold rest.
    pose proof quiet_fetchHtmlPage. pose proof quiet_renderComponent.
    pose proof quiet_loadPage. quiet_auto. }
  set (e := EAcquire (path routeConfig) (ctx_fullPath context)).
  change (snd (bindM (emit e) (fun _ => rest) w))
    with (snd (rest (snd (emit e w)))).
  cbv zeta. destruct (Hrest (snd (emit e w))) as [H1 H2].
  split; [exact H1 |].
  rewrite H2, acquisitions_emit. cbn [acquires e].
  replace (JsMap.okey_eqb (ctx_fullPath context) (ctx_fullPath context))
    with true; [lia |].
  destruct (ctx_fullPath context); simpl;
    [now rewrite String.eqb_refl | reflexivity].
Qed.

Lemma okey_eqb_refl (k : option string) : JsMap.okey_eqb k k = true.
Proof. destruct k; simpl; [apply String.eqb_refl | reflexivity]. Qed.

Lemma okey_eqb_eq (a b : option string) : JsMap.okey_eqb a b = true -> a = b.
Proof.
  destruct a, b; simpl; try discriminate; [| reflexivity].
  intros H. apply String.eqb_eq in H. now subst.
Qed.

Lemma oget_set_same (k : option string) (v : value)
  (m : list (option string * value)) :
  JsMap.get JsMap.okey_eqb k (JsMap.set JsMap.okey_eqb k v m) = Some v.
Proof.
  induction m as [|[k' v'] m IH]; simpl.
  - now rewrite okey_eqb_refl.
  - destruct (JsMap.okey_eqb k k') eqn:E; simpl.
    + now rewrite okey_eqb_refl.
    + now rewrite E.
Qed.

Lemma oget_set_other (k k' : option string) (v : value)
  (m : list (option string * value)) :
  JsMap.okey_eqb k' k = false ->
  JsMap.get JsMap.okey_eqb k' (JsMap.set JsMap.okey_eqb k v m)
  = JsMap.get JsMap.okey_eqb k' m.
Proof.
  intros H. induction m as [|[k0 v0] m IH]; simpl.
  - now rewrite H.
  - destruct (JsMap.okey_eqb k k0) eqn:E; simpl.
    + apply okey_eqb_eq in E. subst k0. now rewrite H.
    + now rewrite IH.
Qed.

(** A cache hit: the cached content is laid out and rendered. *)
Lemma executeRouteWithLayout_hit (routeConfig : RouteConfig)
  (context : Context) (content : value) (w : World) :
  cache routeConfig = true ->
  cached (ctx_fullPath context) content w ->
  executeRouteWithLayout routeConfig context w
  = renderCached routeConfig content context w.
Proof.
  intros Hc Hk. unfold executeRouteWithLayout, renderCached, try_catch, bindM.
  cbn [this]. unfold cached in Hk. now rewrite Hc, Hk.
Qed.

(** A cache miss on which acquisition returns [content]. *)
Lemma executeRouteWithLayout_miss (routeConfig : RouteConfig)
  (context : Context) (content : value) (w w0 : World) :
  cache routeConfig = false \/
  JsMap.get JsMap.okey_eqb (ctx_fullPath context) (pageCache (router w)) = None ->
  getRouteContent routeConfig context w = (Returns content, w0) ->
  executeRouteWithLayout routeConfig context w
  = renderCached routeConfig content context
      (if cache routeConfig && truthy content
       then store (ctx_fullPath context) content w0 else w0).
Proof.
  intros Hm Hg. unfold executeRouteWithLayout, renderCached, try_catch, bindM.
  cbn [this].
  destruct (cache routeConfig);
    destruct (JsMap.get JsMap.okey_eqb (ctx_fullPath context)
                        (pageCache (router w)));
    try (destruct Hm; discriminate);
    rewrite Hg; cbn [andb]; destruct (truthy content); reflexivity.
Qed.

(** A cache miss on which acquisition throws. *)
Lemma executeRouteWithLayout_error (routeConfig : RouteConfig)
  (context : Context) (error : string) (w w0 : World) :
  cache routeConfig = false \/
  JsMap.get JsMap.okey_eqb (ctx_fullPath context) (pageCache (router w)) = None ->
  getRouteContent routeConfig context w = (Throws error, w0) ->
  executeRouteWithLayout routeConfig context w
  = handleRouteError error context w0.
Proof.
  intros Hm Hg. unfold executeRouteWithLayout, try_catch, bindM.
  cbn [this].
  destruct (cache routeConfig);
    destruct (JsMap.get JsMap.okey_eqb (ctx_fullPath context)
                        (pageCache (router w)));
    try (destruct Hm; discriminate); now rewrite Hg.
Qed.

Lemma grows_store (key : option string) (content : value) (w : World) :
  JsMap.get JsMap.okey_eqb key (pageCache (router w)) = None ->
  grows w (store key content w).
Proof.
  intros Hn k c Hk. unfold cached, store in *. cbn [router pageCache set_pageCache].
  destruct (JsMap.okey_eqb k key) eqn:E.
  - apply okey_eqb_eq in E. subst k. congruence.
  - now rewrite oget_set_other.
Qed.

(** Resolving a route never drops an entry of the page cache. *)
Lemma grows_executeRouteWithLayout (routeConfig : RouteConfig)
  (context : Context) :
  keeps grows (executeRouteWithLayout routeConfig context).
Proof.
  intros w.
  destruct (cache routeConfig) eqn:Hc;
    [destruct (JsMap.get JsMap.okey_eqb (ctx_fullPath context)
                         (pageCache (router w))) as [c|] eqn:Hk |].
  - rewrite (executeRouteWithLayout_hit _ _ c _ Hc Hk).
    apply quiet_grows, quiet_renderCached.
  - pose proof (getRouteContent_effect routeConfig context w) as [Hp _].
    destruct (getRouteContent routeConfig context w) as [[c|e] w0] eqn:Hg;
      simpl in Hp.
    + rewrite (executeRouteWithLayout_miss _ _ c w w0 (or_intror Hk) Hg).
      assert (G0 : grows w w0) by (intros k v; unfold cached; now rewrite Hp).
      eapply grows_trans; [| apply quiet_grows, quiet_renderCached].
      destruct (cache routeConfig && truthy c); [| exact G0].
      eapply grows_trans; [exact G0 |]. apply grows_store. now rewrite Hp.
    + rewrite (executeRouteWithLayout_error _ _ e w w0 (or_intror Hk) Hg).
      assert (G0 : grows w w0) by (intros k v; unfold cached; now rewrite Hp).
      eapply grows_trans; [exact G0 | apply quiet_grows, quiet_handleRouteError].
  - pose proof (getRouteContent_effect routeConfig context w) as [Hp _].
    destruct (getRouteContent routeConfig context w) as [[c|e] w0] eqn:Hg;
      simpl in Hp.
    + rewrite (executeRouteWithLayout_miss _ _ c w w0 (or_introl Hc) Hg).
      rewrite Hc. cbn [andb].
      assert (G0 : grows w w0) by (intros k v; unfold cached; now rewrite Hp).
      eapply grows_trans; [exact G0 | apply quiet_grows, quiet_renderCached].
    + rewrite (executeRouteWithLayout_error _ _ e w w0 (or_introl Hc) Hg).
      assert (G0 : grows w w0) by (intros k v; unfold cached; now rewrite Hp).
      eapply grows_trans; [exact G0 | apply quiet_grows, quiet_handleRouteError].
Qed.

Ltac grows_prim :=
  first
    [ apply (keeps_weaken quiet grows _ quiet_grows); quiet_prim
    | apply grows_executeRouteWithLayout ].

Ltac grows_auto :=
  repeat first [ grows_prim | keep_step grows_refl grows_trans ].

Lemma grows_runGuards (guards : list fn) (context : Context) :
  keeps grows (runGuards guards context).
Proof. induction guards as [|g guards IH]; cbn [runGuards]; grows_auto. Qed.

Lemma grows_runMiddlewares (middlewares : list fn) (context : Context) :
  keeps grows (runMiddlewares middlewares context).
Proof.
  induction middlewares as [|m middlewares IH]; cbn [runMiddlewares]; grows_auto.
Qed.

Lemma grows_updateMetaTags (entries : list (string * Text)) (context : Context) :
  keeps grows (updateMetaTags entries context).
Proof.
  induction entries as [|[name content] entries IH]; cbn [updateMetaTags];
    unfold textOf; grows_auto.
Qed.

Lemma grows_handle404 (pathname : string) : keeps grows (handle404 pathname).
Proof. unfold handle404, renderContent. grows_auto. Qed.

Lemma grows_handleRoute (fullPath : string) : keeps grows (handleRoute fullPath).
Proof.
  unfold handleRoute, runRouteGuards, updatePageMeta, textOf,
    handleScrollRestoration, emitRouteChange.
  pose proof grows_handle404. pose proof grows_runGuards.
  pose proof grows_runMiddlewares. pose proof grows_updateMetaTags.
  grows_auto.
Qed.

Lemma grows_handleRouteWithTransition (p : string) :
  keeps grows (handleRouteWithTransition p).
Proof.
  unfold handleRouteWithTransition, applyTransitionOut, applyTransitionIn,
    defaultTransitionOut, defaultTransitionIn.
  pose proof grows_handle404. pose proof grows_handleRoute.
  grows_auto.
Qed.

(** No navigation drops an entry of the page cache. *)
Lemma grows_navigate (p : string) (options : NavOptions) :
  keeps grows (navigate p options).
Proof.
  unfold navigate, navigate_begin, navigate_body, navigate_catch,
    saveScrollPosition, showLoading, hideLoading, pushState, replaceState,
    setTimeout, handleNavigationError, renderContent.
  pose proof grows_handleRouteWithTransition.
  grows_auto.
Qed.

Lemma quiet_runGuards (guards : list fn) (context : Context) :
  keeps quiet (runGuards guards context).
Proof. induction guards as [|g guards IH]; cbn [runGuards]; quiet_auto. Qed.

Lemma quiet_runMiddlewares (middlewares : list fn) (context : Context) :
  keeps quiet (runMiddlewares middlewares context).
Proof.
  induction middlewares as [|m middlewares IH]; cbn [runMiddlewares]; quiet_auto.
Qed.

Lemma quiet_updateMetaTags (entries : list (string * Text)) (context : Context) :
  keeps quiet (updateMetaTags entries context).
Proof.
  induction entries as [|[name content] entries IH]; cbn [updateMetaTags];
    unfold textOf; quiet_auto.
Qed.

(** What [handleRoute] does after the content has been rendered. *)
Lemma quiet_after_content (routeConfig : RouteConfig) (context : Context)
  (fullPath : string) :
  keeps quiet (updatePageMeta routeConfig context ;;
               handleScrollRestoration routeConfig fullPath ;;
               emitRouteChange context).
Proof.
  unfold updatePageMeta, textOf, handleScrollRestoration, emitRouteChange.
  pose proof quiet_updateMetaTags. quiet_auto.
Qed.

Lemma quiet_applyTransitionOut (current : CurrentRoute) :
  keeps quiet (applyTransitionOut current).
Proof. unfold applyTransitionOut, defaultTransitionOut. quiet_auto. Qed.

Lemma quiet_applyTransitionIn (routeConfig : RouteConfig) :
  keeps quiet (applyTransitionIn routeConfig).
Proof. unfold applyTransitionIn, defaultTransitionIn. quiet_auto. Qed.

Lemma quiet_navigate_catch (p error : string) :
  keeps quiet (navigate_catch p error).
Proof.
  unfold navigate_catch, hideLoading, handleNavigationError, renderContent.
  quiet_auto.
Qed.

(** What [navigate] does after [handleRouteWithTransition]. *)
Lemma quiet_after_resolution (p : string) (options : NavOptions) :
  keeps quiet ((if replace options then replaceState p else pushState p) ;;
               hideLoading ;;
               update (set_isTransitioning false) ;;
               r <- this ;;
               match transitionQueue r with
               | next :: rest =>
                   update (set_transitionQueue rest) ;; setTimeout next
               | [] => ret tt
               end).
Proof.
  unfold replaceState, pushState, hideLoading, setTimeout. quiet_auto.
Qed.

End CacheFacts.

(** ** What a navigation leaves alone *)

Section FrameFacts.

Import JsValue Router Spec.

Lemma fixed_refl (w : World) : fixed w w.
Proof. reflexivity. Qed.

Lemma fixed_trans (a b c : World) : fixed a b -> fixed b c -> fixed a c.
Proof. unfold fixed. congruence. Qed.

Lemma fixed_update (f : VelocityRouter -> VelocityRouter) :
  (forall r, (routes (f r), middlewares (f r), routeGuards (f r),
              transitions (f r), routeComponents (f r))
             = (routes r, middlewares r, routeGuards r, transitions r,
                routeComponents r)) ->
  keeps fixed (update f).
Proof.
  intros H w. unfold fixed, setting. simpl.
  specialize (H (router w)). now injection H as -> -> -> -> ->.
Qed.

Lemma fixed_effect (f : Browser -> Browser) :
  (forall b, (fetch (f b), urlSearchParams (f b), prototypes (f b), refuses (f b))
             = (fetch b, urlSearchParams b, prototypes b, refuses b)) ->
  keeps fixed (effect f).
Proof.
  intros H w. unfold fixed, setting. simpl.
  specialize (H (browser w)). now injection H as -> -> -> ->.
Qed.

Lemma fixed_emit (e : event) : keeps fixed (emit e).
Proof. apply fixed_effect. reflexivity. Qed.

Ltac fixed_prim :=
  first
    [ apply fixed_emit
    | apply fixed_update; intros ?; reflexivity
    | apply fixed_effect; intros ?; reflexivity ].

Ltac fixed_auto :=
  repeat first [ fixed_prim | keep_step fixed_refl fixed_trans ].

Lemma fixed_executeRouteWithLayout (routeConfig : RouteConfig)
  (context : Context) :
  keeps fixed (executeRouteWithLayout routeConfig context).
Proof.
  unfold executeRouteWithLayout, handleRouteError, getRouteContent,
    fetchHtmlPage, loadPage, renderComponent, applyLayout, replaceContent,
    renderContent.
  fixed_auto.
Qed.

Lemma fixed_runGuards (guards : list fn) (context : Context) :
  keeps fixed (runGuards guards context).
Proof. induction guards as [|g guards IH]; cbn [runGuards]; fixed_auto. Qed.

Lemma fixed_runMiddlewares (middlewares : list fn) (context : Context) :
  keeps fixed (runMiddlewares middlewares context).
Proof.
  induction middlewares as [|m middlewares IH]; cbn [runMiddlewares]; fixed_auto.
Qed.

Lemma fixed_updateMetaTags (entries : list (string * Text)) (context : Context) :
  keeps fixed (updateMetaTags entries context).
Proof.
  induction entries as [|[name content] entries IH]; cbn [updateMetaTags];
    unfold textOf; fixed_auto.
Qed.

Lemma fixed_handle404 (pathname : string) : keeps fixed (handle404 pathname).
Proof.
  unfold handle404, renderContent. pose proof fixed_executeRouteWithLayout.
  fixed_auto.
Qed.

Lemma fixed_handleRoute (fullPath : string) : keeps fixed (handleRoute fullPath).
Proof.
  unfold handleRoute, runRouteGuards, updatePageMeta, textOf,
    handleScrollRestoration, emitRouteChange.
  pose proof fixed_handle404. pose proof fixed_runGuards.
  pose proof fixed_runMiddlewares. pose proof fixed_updateMetaTags.
  pose proof fixed_executeRouteWithLayout.
  fixed_auto.
Qed.

Lemma fixed_handleRouteWithTransition (p : string) :
  keeps fixed (handleRouteWithTransition p).
Proof.
  unfold handleRouteWithTransition, applyTransitionOut, applyTransitionIn,
    defaultTransitionOut, defaultTransitionIn.
  pose proof fixed_handle404. pose proof fixed_handleRoute.
  fixed_auto.
Qed.

End FrameFacts.

(** ** Guards and middleware *)

Section GuardFacts.

Import JsValue Router Spec.

Lemma record_nil (w : World) : record [] w = w.
Proof.
  unfold record. rewrite List.app_nil_r. now destruct w as [r []].
Qed.

Lemma record_record (es es' : list event) (w : World) :
  record es' (record es w) = record (es ++ es') w.
Proof. unfold record. simpl. now rewrite <- List.app_assoc. Qed.

Lemma emit_record (e : event) (w : World) :
  emit e w = (Returns tt, record [e] w).
Proof. reflexivity. Qed.

Lemma runGuards_run (guards : list fn) (context : Context) (w : World) :
  runGuards guards context w
  = (Returns (forallb (passes context) guards),
     record (guardEvents context guards) w).
Proof.
  unfold guardEvents. revert w.
  induction guards as [|g guards IH]; intros w.
  - simpl. now rewrite record_nil.
  - cbn [runGuards forallb called map]. unfold bindM at 1.
    rewrite emit_record. unfold bindM at 1, try_catch, bindM at 1, call, passes.
    destruct (fn_call g context) as [result|e]; cbn.
    + destruct (is_false result); cbn.
      * reflexivity.
      * rewrite IH, record_record. reflexivity.
    + reflexivity.
Qed.

Lemma runMiddlewares_run (middlewares : list fn) (context : Context)
  (w : World) :
  runMiddlewares middlewares context w
  = (verdict context middlewares,
     record (middlewareEvents context middlewares) w).
Proof.
  unfold middlewareEvents. revert w.
  induction middlewares as [|m middlewares IH]; intros w.
  - simpl. now rewrite record_nil.
  - cbn [runMiddlewares verdict reached map]. unfold bindM at 1.
    rewrite emit_record. unfold bindM at 1, call.
    destruct (fn_call m context) as [result|e]; cbn.
    + destruct (is_false result); cbn.
      * reflexivity.
      * rewrite IH, record_record. reflexivity.
    + reflexivity.
Qed.

Lemma called_all (context : Context) (guards : list fn) :
  forallb (passes context) guards = true -> called context guards = guards.
Proof.
  induction guards as [|g guards IH]; [reflexivity |].
  cbn [forallb called]. intros H. apply andb_true_iff in H as [Hg Hr].
  now rewrite Hg, IH.
Qed.

Lemma called_stop (context : Context) (before after : list fn) (g : fn) :
  forallb (passes context) before = true ->
  passes context g = false ->
  called context (before ++ g :: after) = before ++ [g] /\
  forallb (passes context) (before ++ g :: after) = false.
Proof.
  intros Hb Hg. induction before as [|b before IH].
  - cbn. now rewrite Hg.
  - cbn [forallb] in Hb. apply andb_true_iff in Hb as [Hb Hr].
    destruct (IH Hr) as [IH1 IH2].
    cbn [List.app called forallb]. now rewrite Hb, IH1, IH2.
Qed.

Lemma reached_all (context : Context) (middlewares : list fn) :
  forallb (passes context) middlewares = true ->
  reached context middlewares = middlewares /\
  verdict context middlewares = Returns true.
Proof.
  induction middlewares as [|m middlewares IH]; [now split |].
  cbn [forallb reached verdict]. unfold passes at 1. intros H.
  apply andb_true_iff in H as [Hm Hr]. destruct (IH Hr) as [IH1 IH2].
  destruct (fn_call m context) as [result|e]; [| discriminate].
  apply negb_true_iff in Hm. now rewrite Hm, IH1, IH2.
Qed.

Lemma reached_stop (context : Context) (before after : list fn) (m : fn) :
  forallb (passes context) before = true ->
  passes context m = false ->
  reached context (before ++ m :: after) = before ++ [m] /\
  verdict context (before ++ m :: after)
  = match fn_call m context with
    | Returns _ => Returns false
    | Throws e => Throws e
    end.
Proof.
  intros Hb Hm. induction before as [|b before IH].
  - cbn. unfold passes in Hm.
    destruct (fn_call m context) as [result|e]; [| now split].
    apply negb_false_iff in Hm. now rewrite Hm.
  - cbn [forallb] in Hb. apply andb_true_iff in Hb as [Hb Hr].
    destruct (IH Hr) as [IH1 IH2]. unfold passes in Hb.
    cbn [List.app reached verdict].
    destruct (fn_call b context) as [result|e]; [| discriminate].
    apply negb_true_iff in Hb. now rewrite Hb, IH1, IH2.
Qed.

(** The answer of [runGuards] and the order of its calls, for guards
    that answer from the context alone, without calling back into the
    router.  The guards are called in the order of the list.  When each
    of them returns something other than [false], all are called and
    the answer is [true].  At the first that returns [false] or throws
    the loop stops: the answer is [false], the guards after it are not
    called, and its error, if any, is not thrown on. *)
Theorem runGuards_short_circuit (guards : list fn) (context : Context)
  (w : World) :
  (forallb (passes context) guards = true ->
   fst (runGuards guards context w) = Returns true /\
   trace (browser (exec (runGuards guards context) w))
   = trace (browser w) ++ map (fun g => EGuard (fn_name g)) guards) /\
  (forall before g after,
     guards = before ++ g :: after ->
     forallb (passes context) before = true ->
     passes context g = false ->
     fst (runGuards guards context w) = Returns false /\
     trace (browser (exec (runGuards guards context) w))
     = trace (browser w) ++ map (fun g => EGuard (fn_name g)) (before ++ [g])).
Proof.
  unfold exec. rewrite runGuards_run. unfold guardEvents. split.
  - intros H. rewrite H, called_all by exact H. split; reflexivity.
  - intros before g after -> Hb Hg.
    destruct (called_stop context before after g Hb Hg) as [-> ->].
    split; reflexivity.
Qed.

(** Three guards, the second of which rejects: the third is not
    called. *)
Lemma runGuards_short_circuit_witness :
  fst (runGuards [Examples.allow; Examples.deny; Examples.boom]
                 Examples.homeContext (Examples.browse newRouter))
  = Returns false /\
  trace (browser (exec (runGuards [Examples.allow; Examples.deny; Examples.boom]
                                  Examples.homeContext)
                       (Examples.browse newRouter)))
  = trace (browser (Examples.browse newRouter))
    ++ map (fun g => EGuard (fn_name g)) ([Examples.allow] ++ [Examples.deny]).
Proof.
  apply (proj2 (runGuards_short_circuit
                  [Examples.allow; Examples.deny; Examples.boom]
                  Examples.homeContext (Examples.browse newRouter))
               [Examples.allow] Examples.deny [Examples.boom]);
    reflexivity.
Defined.

(** The middleware is called in the order of the list.  When each
    returns something other than [false], all are called and the loop
    goes on.  At the first that returns [false] the loop stops with
    [false]; at the first that throws, its error is thrown on, not
    caught.  The middleware after it is not called. *)
Theorem runMiddlewares_verdict (middlewares : list fn) (context : Context)
  (w : World) :
  (forallb (passes context) middlewares = true ->
   runMiddlewares middlewares context w
   = (Returns true,
      record (map (fun m => EMiddleware (fn_name m)) middlewares) w)) /\
  (forall before m after,
     middlewares = before ++ m :: after ->
     forallb (passes context) before = true ->
     passes context m = false ->
     runMiddlewares middlewares context w
     = (match fn_call m context with
        | Returns _ => Returns false
        | Throws e => Throws e
        end,
        record (map (fun m => EMiddleware (fn_name m)) (before ++ [m])) w)).
Proof.
  rewrite runMiddlewares_run. unfold middlewareEvents. split.
  - intros H. now destruct (reached_all context middlewares H) as [-> ->].
  - intros before m after -> Hb Hm.
    destruct (reached_stop context before after m Hb Hm) as [-> ->].
    reflexivity.
Qed.

(** Middleware that throws after one that passes: the error comes out
    and the third is not called. *)
Lemma runMiddlewares_verdict_witness :
  runMiddlewares [Examples.allow; Examples.boom; Examples.deny]
                 Examples.homeContext (Examples.browse newRouter)
  = (Throws "boom",
     record [EMiddleware "() => true";
             EMiddleware "() => { throw new Error('boom') }"]
            (Examples.browse newRouter)).
Proof.
  apply (proj2 (runMiddlewares_verdict
                  [Examples.allow; Examples.boom; Examples.deny]
                  Examples.homeContext (Examples.browse newRouter))
               [Examples.allow] Examples.boom [Examples.deny]);
    reflexivity.
Defined.

Lemma handleRoute_matched (fullPath : string) (w : World)
  (route : string * RouteConfig) :
  matchRoute (router w) (fst (parseUrl fullPath (browser w))) = Some route ->
  let config := snd route in
  let context := contextFor fullPath config (browser w) in
  handleRoute fullPath w
  = (passed <- runGuards (guardsUnder (ctx_path context) (router w)) context ;;
     if negb passed then ret tt
     else
       proceed <- runMiddlewares (middlewares (router w) ++ middleware config)
                                 context ;;
       if negb proceed then ret tt
       else
         update (set_currentRoute (Some (mkCurrentRoute context config))) ;;
         executeRouteWithLayout config context ;;
         updatePageMeta config context ;;
         handleScrollRestoration config fullPath ;;
         emitRouteChange context)
      (resolved fullPath config w).
Proof.
  intros H config context. unfold handleRoute.
  unfold bindM at 1. cbn [window]. unfold bindM at 1. cbn [this].
  destruct (parseUrl fullPath (browser w)) as [pathname search] eqn:E.
  cbn [fst] in H. rewrite H.
  unfold context, contextFor, resolved, contextFor. rewrite E. cbn [fst snd].
  reflexivity.
Qed.

(** A guard that rejects, among guards that answer from the context
    alone without calling back into the router: [handleRoute] returns
    after the calls of the guards, and of its own it has only stored
    the parameters of the route and of the query; it commits no route,
    renders nothing, acquires nothing and caches nothing. *)
Theorem handleRoute_guard_rejects (fullPath : string) (w : World)
  (route : string * RouteConfig) :
  matchRoute (router w) (fst (parseUrl fullPath (browser w))) = Some route ->
  let context := contextFor fullPath (snd route) (browser w) in
  let guards := guardsUnder (ctx_path context) (router w) in
  forallb (passes context) guards = false ->
  handleRoute fullPath w
  = (Returns tt,
     record (guardEvents context guards) (resolved fullPath (snd route) w)).
Proof.
  intros H context guards Hrej. rewrite (handleRoute_matched _ _ _ H).
  fold context. fold guards. unfold bindM at 1.
  rewrite runGuards_run, Hrej. reflexivity.
Qed.

(** The guard of "/admin" rejects. *)
Lemma handleRoute_guard_rejects_witness :
  handleRoute "/admin" (Examples.browse Examples.adminApp)
  = (Returns tt,
     record [EGuard "() => false"]
            (resolved "/admin" Examples.adminConfig
                      (Examples.browse Examples.adminApp))).
Proof.
  apply (handleRoute_guard_rejects "/admin" (Examples.browse Examples.adminApp)
           ("/admin", Examples.adminConfig)).
  - vm_compute. reflexivity.
  - vm_compute. reflexivity.
Defined.

(** Middleware that returns [false] ends [handleRoute] in the same way;
    middleware that throws makes [handleRoute] throw its error.  In
    both cases, with guards and middleware that answer from the context
    alone without calling back into the router, [handleRoute] commits
    no route, acquires nothing and renders nothing. *)
Theorem handleRoute_middleware_stops (fullPath : string) (w : World)
  (route : string * RouteConfig) :
  matchRoute (router w) (fst (parseUrl fullPath (browser w))) = Some route ->
  let context := contextFor fullPath (snd route) (browser w) in
  let guards := guardsUnder (ctx_path context) (router w) in
  let all := middlewares (router w) ++ middleware (snd route) in
  forallb (passes context) guards = true ->
  verdict context all <> Returns true ->
  handleRoute fullPath w
  = (match verdict context all with
     | Throws e => Throws e
     | Returns _ => Returns tt
     end,
     record (guardEvents context guards ++ middlewareEvents context all)
            (resolved fullPath (snd route) w)).
Proof.
  intros H context guards all Hpass Hv. rewrite (handleRoute_matched _ _ _ H).
  fold context. fold guards. unfold bindM at 1.
  rewrite runGuards_run, Hpass. cbn [negb]. unfold bindM at 1.
  fold all. rewrite runMiddlewares_run, record_record.
  destruct (verdict context all) as [[|]|e]; [congruence | |]; reflexivity.
Qed.

(** The middleware of "/b" throws: [handleRoute] throws its error. *)
Lemma handleRoute_middleware_stops_witness :
  handleRoute "/b" (Examples.browse Examples.twoPages)
  = (Throws "boom",
     record [EMiddleware "() => { throw new Error('boom') }"]
            (resolved "/b" Examples.bConfig
                      (Examples.browse Examples.twoPages))).
Proof.
  apply (handleRoute_middleware_stops "/b" (Examples.browse Examples.twoPages)
           ("/b", Examples.bConfig)).
  - vm_compute. reflexivity.
  - vm_compute. reflexivity.
  - vm_compute. discriminate.
Defined.

End GuardFacts.

(** ** Navigation *)

Section NavigationFacts.

Import JsValue Router Spec.

Lemma steady_refl (w : World) : steady w w.
Proof. reflexivity. Qed.

Lemma steady_trans (a b c : World) : steady a b -> steady b c -> steady a c.
Proof. unfold steady. congruence. Qed.

Lemma steady_update (f : VelocityRouter -> VelocityRouter) :
  (forall r, (isTransitioning (f r), transitionQueue (f r), scrollPositions (f r))
             = (isTransitioning r, transitionQueue r, scrollPositions r)) ->
  keeps steady (update f).
Proof.
  intros H w. unfold steady, control. simpl.
  specialize (H (router w)). now injection H as -> -> ->.
Qed.

Lemma steady_effect (f : Browser -> Browser) :
  (forall b, (loading (f b), history (f b), location (f b), timers (f b), now (f b))
             = (loading b, history b, location b, timers b, now b)) ->
  keeps steady (effect f).
Proof.
  intros H w. unfold steady, control. simpl.
  specialize (H (browser w)). now injection H as -> -> -> -> ->.
Qed.

Lemma steady_emit (e : event) : keeps steady (emit e).
Proof. apply steady_effect. reflexivity. Qed.

Ltac steady_prim :=
  first
    [ apply steady_emit
    | apply steady_update; intros ?; reflexivity
    | apply steady_effect; intros ?; reflexivity ].

Ltac steady_auto :=
  repeat first [ steady_prim | keep_step steady_refl steady_trans ].

Lemma steady_renderContent (content : value) : keeps steady (renderContent content).
Proof. unfold renderContent. steady_auto. Qed.

Lemma steady_applyLayout (layoutName : Layout) (content : value)
  (context : Context) :
  keeps steady (applyLayout layoutName content context).
Proof. unfold applyLayout, replaceContent. steady_auto. Qed.

Lemma steady_getRouteContent (routeConfig : RouteConfig) (context : Context) :
  keeps steady (getRouteContent routeConfig context).
Proof.
  unfold getRouteContent, fetchHtmlPage, loadPage, renderComponent.
  steady_auto.
Qed.

Lemma steady_executeRouteWithLayout (routeConfig : RouteConfig)
  (context : Context) :
  keeps steady (executeRouteWithLayout routeConfig context).
Proof.
  unfold executeRouteWithLayout, handleRouteError.
  pose proof steady_renderContent. pose proof steady_applyLayout.
  pose proof steady_getRouteContent. steady_auto.
Qed.

Lemma steady_runGuards (guards : list fn) (context : Context) :
  keeps steady (runGuards guards context).
Proof. induction guards as [|g guards IH]; cbn [runGuards]; steady_auto. Qed.

Lemma steady_runMiddlewares (middlewares : list fn) (context : Context) :
  keeps steady (runMiddlewares middlewares context).
Proof.
  induction middlewares as [|m middlewares IH]; cbn [runMiddlewares]; steady_auto.
Qed.

Lemma steady_updateMetaTags (entries : list (string * Text)) (context : Context) :
  keeps steady (updateMetaTags entries context).
Proof.
  induction entries as [|[name content] entries IH]; cbn [updateMetaTags];
    unfold textOf; steady_auto.
Qed.

Lemma steady_handle404 (pathname : string) : keeps steady (handle404 pathname).
Proof.
  unfold handle404. pose proof steady_renderContent.
  pose proof steady_executeRouteWithLayout. steady_auto.
Qed.

Lemma steady_handleRoute (fullPath : string) : keeps steady (handleRoute fullPath).
Proof.
  unfold handleRoute, runRouteGuards, updatePageMeta, textOf,
    handleScrollRestoration, emitRouteChange.
  pose proof steady_handle404. pose proof steady_runGuards.
  pose proof steady_runMiddlewares. pose proof steady_updateMetaTags.
  pose proof steady_executeRouteWithLayout.
  steady_auto.
Qed.

Lemma steady_handleRouteWithTransition (p : string) :
  keeps steady (handleRouteWithTransition p).
Proof.
  unfold handleRouteWithTransition, applyTransitionOut, applyTransitionIn,
    defaultTransitionOut, defaultTransitionIn.
  pose proof steady_handle404. pose proof steady_handleRoute.
  steady_auto.
Qed.

Lemma steady_handlePopState (state : option string) :
  keeps steady (handlePopState state).
Proof. unfold handlePopState. pose proof steady_handleRoute. steady_auto. Qed.

(** Resolving a route writes none of the navigation state itself:
    with guards, middleware and handlers that do not call back into
    the router (no [navigate] or [redirect] of their own),
    [handleRoute], and so [handlePopState] for back and forward, never
    pushes or replaces a history entry, never changes the address, and
    leaves the in-flight flag, the queue, the pending timers and the
    saved scroll positions as they are. *)
Theorem handleRoute_leaves_navigation_state (fullPath : string)
  (state : option string) (w : World) :
  forall w',
    w' = exec (handleRoute fullPath) w \/ w' = exec (handlePopState state) w ->
    history (browser w') = history (browser w) /\
    location (browser w') = location (browser w) /\
    isTransitioning (router w') = isTransitioning (router w) /\
    transitionQueue (router w') = transitionQueue (router w) /\
    timers (browser w') = timers (browser w) /\
    scrollPositions (router w') = scrollPositions (router w).
Proof.
  intros w' [-> | ->]; unfold exec;
    [pose proof (steady_handleRoute fullPath w) as H
    | pose proof (steady_handlePopState state w) as H];
    unfold steady, control in H;
    injection H as -> -> -> _ -> -> -> _; repeat split.
Qed.

(** Back to "/admin", whose guard rejects: the history keeps its one
    entry. *)
Lemma handleRoute_leaves_navigation_state_witness :
  history (browser (exec (handlePopState (Some "/admin"))
                         (Examples.browse Examples.adminApp)))
  = [None].
Proof.
  apply (handleRoute_leaves_navigation_state "/admin" (Some "/admin")
           (Examples.browse Examples.adminApp)).
  right. reflexivity.
Defined.

Lemma navigate_finish_cases (p : string) (options : NavOptions) (w : World) :
  let w1 := snd (handleRouteWithTransition p w) in
  navigate_finish p options w
  = match fst (handleRouteWithTransition p w), refuses (browser w) p with
    | Returns _, None =>
        ((if replace options then replaceState p else pushState p) ;;
         hideLoading ;;
         update (set_isTransitioning false) ;;
         r <- this ;;
         match transitionQueue r with
         | next :: rest => update (set_transitionQueue rest) ;; setTimeout next
         | [] => ret tt
         end) w1
    | Returns _, Some message => navigate_catch p message w1
    | Throws error, _ => navigate_catch p error w1
    end.
Proof.
  pose proof (fixed_handleRouteWithTransition p w) as H.
  unfold fixed, setting in H. cbv zeta.
  unfold navigate_finish, try_catch, navigate_body, replaceState, pushState,
    bindM, window.
  destruct (handleRouteWithTransition p w) as [[[]|e] w1]; cbn [fst snd] in *.
  - injection H as _ _ _ _ _ _ _ _ Hr. rewrite <- Hr.
    destruct (refuses (browser w1) p) as [message|] eqn:E.
    + destruct (replace options); rewrite ?E; reflexivity.
    + destruct (replace options); rewrite ?E; cbn;
        destruct (transitionQueue (router w1)); reflexivity.
  - destruct (refuses (browser w) p); reflexivity.
Qed.





End NavigationFacts.

(** ** The rendering pipeline *)

Section PipelineFacts.

Import JsValue Router Spec.

Lemma get_set_other {V : Type} (k k' : string) (v : V) (m : list (string * V)) :
  k' <> k ->
  JsMap.get String.eqb k' (JsMap.set String.eqb k v m)
  = JsMap.get String.eqb k' m.
Proof.
  intros Hne. apply String.eqb_neq in Hne.
  induction m as [|[k0 v0] m IH]; cbn.
  - now rewrite Hne.
  - destruct (String.eqb k k0) eqn:E; cbn.
    + apply String.eqb_eq in E. subst k0. now rewrite Hne.
    + now rewrite IH.
Qed.

(** A call of [navigate] while a navigation is in flight, without
    [force], is put at the end of the queue and does nothing else:
    nothing is resolved, rendered or written to the history.  A call
    for the full path of the committed route, without [force] and with
    no navigation in flight, does nothing at all. *)
Theorem navigate_deferred (p : string) (options : NavOptions) (w : World) :
  force options = false ->
  (isTransitioning (router w) = true ->
   navigate p options w
   = (Returns tt,
      mkWorld (set_transitionQueue (transitionQueue (router w) ++ [(p, options)])
                                   (router w))
              (browser w))) /\
  (isTransitioning (router w) = false ->
   currentFullPath (router w) = Some p ->
   navigate p options w = (Returns tt, w)).
Proof.
  intros Hf. split.
  - intros Ht. rewrite navigate_split. unfold navigate_begin, bindM at 1.
    cbn [this]. rewrite Ht, Hf. reflexivity.
  - intros Ht Hc. rewrite navigate_split. unfold navigate_begin, bindM at 1.
    cbn [this]. rewrite Ht, Hf. cbn [andb negb].
    unfold onRoute. unfold currentFullPath in Hc.
    destruct (currentRoute (router w)) as [current|]; [| discriminate].
    rewrite Hc. cbn. now rewrite String.eqb_refl.
Qed.

(** A call while another navigation is in flight is queued. *)
Lemma navigate_deferred_witness :
  navigate "/a" Examples.go Examples.busy
  = (Returns tt,
     mkWorld (set_transitionQueue [("/a", Examples.go)] (router Examples.busy))
             (browser Examples.busy)).
Proof.
  apply (proj1 (navigate_deferred "/a" Examples.go Examples.busy eq_refl)).
  reflexivity.
Defined.



(** An [Error] thrown while the content is acquired, laid out and
    rendered does not come out: it ends in the rendered route-error
    page. *)
Lemma executeRouteWithLayout_returns (routeConfig : RouteConfig)
  (context : Context) (w : World) :
  fst (executeRouteWithLayout routeConfig context w) = Returns tt.
Proof.
  unfold executeRouteWithLayout, try_catch.
  match goal with |- fst (match ?m with _ => _ end) = _ => destruct m as [[[]|e] w'] end;
    reflexivity.
Qed.



(** A layout that is not registered, or whose function throws, leaves
    the content as it is; in the second case nothing is put in the
    layout cache. *)
Theorem applyLayout_falls_back (layoutName : Layout) (content : value)
  (context : Context) (w : World) :
  JsMap.get String.eqb (layoutText layoutName +++ "_" +++ ctx_path context)
            (layoutCache (router w)) = None ->
  match layoutName with
  | LName n => JsMap.get String.eqb n (layouts (router w))
  | LFunction f => Some f
  end = None \/
  (exists f e,
     match layoutName with
     | LName n => JsMap.get String.eqb n (layouts (router w))
     | LFunction f => Some f
     end = Some f /\ fn_call f context = Throws e) ->
  applyLayout layoutName content context w = (Returns content, w).
Proof.
  intros Hk H. unfold applyLayout, bindM at 1. cbn [this].
  destruct H as [-> | [f [e [-> Hf]]]]; [reflexivity |].
  rewrite Hk. unfold try_catch, bindM, call. now rewrite Hf.
Qed.

(** The layout "main" is not registered. *)
Lemma applyLayout_falls_back_witness :
  applyLayout (LName "main") (VStr "Home") Examples.homeContext
              (Examples.browse newRouter)
  = (Returns (VStr "Home"), Examples.browse newRouter).
Proof.
  apply (applyLayout_falls_back (LName "main") (VStr "Home")
           Examples.homeContext (Examples.browse newRouter)).
  - reflexivity.
  - left. reflexivity.
Defined.

Lemma applyLayout_uses_cache (layoutName : Layout) (content : value)
  (context : Context) (w : World) (f : fn) (cachedLayout : string) :
  match layoutName with
  | LName n => JsMap.get String.eqb n (layouts (router w))
  | LFunction g => Some g
  end = Some f ->
  JsMap.get String.eqb (layoutText layoutName +++ "_" +++ ctx_path context)
            (layoutCache (router w)) = Some (VStr cachedLayout) ->
  applyLayout layoutName content context w
  = (Returns (VStr (Regex.replace_first "{{content}}"
                      (Regex.template 0 (String_ content)) cachedLayout)),
     w).
Proof.
  intros Hl Hk. unfold applyLayout, bindM at 1. cbn [this].
  rewrite Hl, Hk. reflexivity.
Qed.

(** The layout cache is keyed by the layout name and the pathname only:
    once a named layout has been rendered for a pathname, its output is
    used for every context with that pathname (other parameters, other
    query), also after another function has been registered under the
    name. *)
Theorem layout_cache_survives_addLayout (n : string) (f f' : fn)
  (layoutOutput : string) (content content' : value)
  (context context' : Context) (w : World) :
  JsMap.get String.eqb n (layouts (router w)) = Some f ->
  JsMap.get String.eqb (n +++ "_" +++ ctx_path context)
            (layoutCache (router w)) = None ->
  fn_call f context = Returns (VStr layoutOutput) ->
  ctx_path context' = ctx_path context ->
  let w1 := exec (applyLayout (LName n) content context) w in
  let w2 := mkWorld (addLayout n f' (router w1)) (browser w1) in
  applyLayout (LName n) content' context' w2
  = (Returns (VStr (Regex.replace_first "{{content}}"
                      (Regex.template 0 (String_ content')) layoutOutput)),
     w2).
Proof.
  intros Hl Hk Hf Hp w1 w2.
  assert (E : w1 = mkWorld
                     (set_layoutCache
                        (JsMap.set String.eqb (n +++ "_" +++ ctx_path context)
                                   (VStr layoutOutput) (layoutCache (router w)))
                        (router w))
                     (browser w)).
  { unfold w1, exec, applyLayout, bindM at 1. cbn [this]. rewrite Hl.
    cbn [layoutText]. rewrite Hk. unfold try_catch, bindM, call.
    rewrite Hf. reflexivity. }
  apply applyLayout_uses_cache with (f := f').
  - unfold w2. cbn [router layouts addLayout set_layouts]. apply get_set_same.
  - unfold w2. rewrite E, Hp. cbn. apply get_set_same.
Qed.

(** The layout "main" rendered for "/", then registered again with
    another function: the first output is used, for another query
    too. *)
Lemma layout_cache_survives_addLayout_witness :
  let w := Examples.browse (addLayout "main" Examples.shell newRouter) in
  let w1 := exec (applyLayout (LName "main") (VStr "A") Examples.homeContext) w in
  let w2 := mkWorld (addLayout "main" Examples.frame (router w1)) (browser w1) in
  applyLayout (LName "main") (VStr "B") Examples.homeQuery w2
  = (Returns (VStr (Regex.replace_first "{{content}}"
                      (Regex.template 0 "B")
                      "<main>{{content}}</main><!-- {{content}} -->")),
     w2).
Proof.
  apply (layout_cache_survives_addLayout "main" Examples.shell Examples.frame
           "<main>{{content}}</main><!-- {{content}} -->"
           (VStr "A") (VStr "B") Examples.homeContext Examples.homeQuery
           (Examples.browse (addLayout "main" Examples.shell newRouter)));
    reflexivity.
Defined.

(** Scroll positions: the position saved for a path is the one that
    [handleScrollRestoration] restores for it, as long as nothing is
    saved for it again; a route with [scrollToTop: false] keeps the
    scroll as it is. *)
Theorem scroll_restored (routeConfig : RouteConfig) (p : string) (w w' : World) :
  p <> "" ->
  scrollPositions (router w')
  = scrollPositions (router (exec (saveScrollPosition (Some p)) w)) ->
  let after := exec (handleScrollRestoration routeConfig p) w' in
  (scrollToTop routeConfig = true ->
   scroll (browser after) = scroll (browser w)) /\
  (scrollToTop routeConfig = false ->
   scroll (browser after) = scroll (browser w')).
Proof.
  intros Hp Hs after. unfold after, exec, handleScrollRestoration.
  split; intros ->; [| reflexivity].
  unfold bindM. cbn [this]. rewrite Hs.
  unfold saveScrollPosition. destruct p as [|c p]; [congruence |].
  cbn. rewrite get_set_same. reflexivity.
Qed.

(** The position (0, 240) saved for "/a" comes back after the page
    has been scrolled elsewhere. *)
Lemma scroll_restored_witness :
  let w := Examples.scrolled (0, 240)%Z (Examples.browse Examples.twoPages) in
  let w' := Examples.scrolled (0, 900)%Z (exec (saveScrollPosition (Some "/a")) w) in
  scroll (browser (exec (handleScrollRestoration Examples.aConfig "/a") w'))
  = (0, 240)%Z.
Proof.
  apply (proj1 (scroll_restored Examples.aConfig "/a"
                  (Examples.scrolled (0, 240)%Z (Examples.browse Examples.twoPages))
                  (Examples.scrolled (0, 900)%Z
                     (exec (saveScrollPosition (Some "/a"))
                           (Examples.scrolled (0, 240)%Z
                              (Examples.browse Examples.twoPages))))
                  ltac:(discriminate) eq_refl)).
  reflexivity.
Defined.

(** After [clearCache] every cacheable route acquires its content
    again, also one whose content was cached before. *)
Theorem clearCache_forces_acquisition (routeConfig : RouteConfig)
  (context : Context) (w : World) :
  let w1 := mkWorld (clearCache (router w)) (browser w) in
  pageCache (router w1) = [] /\
  layoutCache (router w1) = [] /\
  acquisitions (ctx_fullPath context)
               (exec (executeRouteWithLayout routeConfig context) w1)
  = S (acquisitions (ctx_fullPath context) w).
Proof.
  intros w1. split; [reflexivity |]. split; [reflexivity |].
  pose proof (getRouteContent_effect routeConfig context w1) as [_ Ha].
  assert (Hk : JsMap.get JsMap.okey_eqb (ctx_fullPath context)
                         (pageCache (router w1)) = None) by reflexivity.
  unfold exec.
  destruct (getRouteContent routeConfig context w1) as [[c|e] w0] eqn:Hg;
    cbn [snd] in Ha.
  - rewrite (executeRouteWithLayout_miss _ _ c w1 w0 (or_intror Hk) Hg).
    destruct (quiet_renderCached routeConfig c context
                (if cache routeConfig && truthy c
                 then store (ctx_fullPath context) c w0 else w0)) as [_ Q].
    rewrite Q. destruct (cache routeConfig && truthy c); exact Ha.
  - rewrite (executeRouteWithLayout_error _ _ e w1 w0 (or_intror Hk) Hg).
    destruct (quiet_handleRouteError e context w0) as [_ Q].
    rewrite Q. exact Ha.
Qed.

(** The guards of a key are kept in the order of their registration,
    and registering a guard for one key leaves the guards of every other
    key as they are. *)
Theorem addGuard_appends (key other : string) (guard : fn)
  (this : VelocityRouter) :
  guardsUnder key (addGuard key guard this) = guardsUnder key this ++ [guard] /\
  (other <> key ->
   guardsUnder other (addGuard key guard this) = guardsUnder other this).
Proof.
  unfold guardsUnder, addGuard. cbn [routeGuards set_routeGuards]. split.
  - now rewrite get_set_same.
  - intros Hne. now rewrite get_set_other.
Qed.

(** A guard added for "/b" leaves the guard of "/admin" alone. *)
Lemma addGuard_appends_witness :
  guardsUnder "/admin" (addGuard "/b" Examples.allow Examples.adminApp)
  = guardsUnder "/admin" Examples.adminApp.
Proof.
  apply (proj2 (addGuard_appends "/b" "/admin" Examples.allow Examples.adminApp)).
  discriminate.
Defined.

Lemma detached_executeRouteWithLayout (routeConfig : RouteConfig)
  (context : Context) (w : World) :
  detached (executeRouteWithLayout routeConfig context) w
  = executeRouteWithLayout routeConfig context w.
Proof.
  unfold detached, try_catch.
  pose proof (executeRouteWithLayout_returns routeConfig context w) as H.
  destruct (executeRouteWithLayout routeConfig context w) as [[[]|e] w'];
    [reflexivity | discriminate H].
Qed.

(** The not-found route is resolved with a context that has no full
    path, so its content is cached under the key [undefined]: what a
    cacheable not-found route produces for the first unknown pathname
    is cached, and it is that content which is laid out and rendered
    for every other unknown pathname, without a new acquisition. *)
Theorem not_found_content_shared (routeConfig : RouteConfig)
  (pathname : string) (content : value) (w w0 : World) :
  notFoundRoute (router w) = Some routeConfig ->
  cache routeConfig = true ->
  JsMap.get JsMap.okey_eqb None (pageCache (router w)) = None ->
  getRouteContent routeConfig (notFoundContext pathname) w = (Returns content, w0) ->
  truthy content = true ->
  cached None content (exec (handle404 pathname) w) /\
  (forall pathname' w2,
     notFoundRoute (router w2) = Some routeConfig ->
     cached None content w2 ->
     handle404 pathname' w2
     = renderCached routeConfig content (notFoundContext pathname') w2 /\
     acquisitions None (exec (handle404 pathname') w2) = acquisitions None w2).
Proof.
  intros Hr Hc Hk Hg Ht.
  assert (H404 : forall p w', notFoundRoute (router w') = Some routeConfig ->
            handle404 p w' = executeRouteWithLayout routeConfig (notFoundContext p) w').
  { intros p w' H. unfold handle404, bindM. cbn [this].
    unfold notFoundRoute in H. rewrite H.
    apply detached_executeRouteWithLayout. }
  split.
  - unfold exec. rewrite (H404 _ _ Hr).
    rewrite (executeRouteWithLayout_miss routeConfig (notFoundContext pathname)
               content w w0 (or_intror Hk) Hg).
    rewrite Hc, Ht. cbn [andb].
    destruct (quiet_renderCached routeConfig content (notFoundContext pathname)
                (store (ctx_fullPath (notFoundContext pathname)) content w0))
      as [Q _].
    unfold cached. rewrite Q. apply oget_set_same.
  - intros pathname' w2 Hr2 Hc2. unfold exec. rewrite (H404 _ _ Hr2).
    rewrite (executeRouteWithLayout_hit routeConfig (notFoundContext pathname')
               content w2 Hc Hc2).
    split; [reflexivity |].
    apply (quiet_renderCached routeConfig content (notFoundContext pathname') w2).
Qed.

(** The not-found route "*": what it shows for "/zzz" is cached under
    the key [undefined]. *)
Lemma not_found_content_shared_witness :
  cached None (VStr "Nope")
         (exec (handle404 "/zzz") (Examples.browse Examples.starApp)).
Proof.
  apply (proj1 (not_found_content_shared Examples.starConfig "/zzz" (VStr "Nope")
                  (Examples.browse Examples.starApp)
                  (record [EAcquire "*" None] (Examples.browse Examples.starApp))
                  ltac:(vm_compute; reflexivity) eq_refl eq_refl
                  ltac:(vm_compute; reflexivity) eq_refl)).
Defined.

End PipelineFacts.

(** ** Paths, addresses and queries *)

Section PathFacts.

Import Regex JsValue Router Spec.

Lemma split_go_upTo (sep : ascii) (s : string) :
  forall cur, exists l, JsString.split_go sep cur s = (cur +++ upTo sep s) :: l.
Proof.
  induction s as [|c s IH]; intros cur.
  - exists []. cbn. now rewrite sapp_nil_r.
  - cbn [JsString.split_go upTo]. destruct (Ascii.eqb c sep).
    + eexists. now rewrite sapp_nil_r.
    + destruct (IH (cur +++ String c "")) as [l Hl]. exists l.
      rewrite Hl. now rewrite sapp_assoc.
Qed.

(** [parseUrl] cuts the address at its first question mark; the query
    is the text up to a second question mark, what follows that is
    dropped; an address without question mark has the empty query. *)
Theorem parseUrl_cuts (p rest : string) (b : Browser) :
  JsString.mem "?" p = false ->
  parseUrl (p +++ "?" +++ rest) b = (p, upTo "?" rest) /\
  (p <> "" -> parseUrl p b = (p, "")).
Proof.
  intros Hp. unfold parseUrl, JsString.split. split.
  - replace (match p +++ "?" +++ rest with "" => location b | _ => p +++ "?" +++ rest end)
      with (p +++ "?" +++ rest) by (now destruct p).
    change (p +++ "?" +++ rest) with (p +++ String "?" rest).
    rewrite (split_go_piece "?" p Hp "" rest).
    destruct (split_go_upTo "?" rest "") as [l ->]. reflexivity.
  - intros Hne. destruct p as [|c p]; [congruence |].
    now rewrite (split_go_last "?" _ Hp "").
Qed.

(** What follows a second question mark is dropped. *)
Lemma parseUrl_cuts_witness :
  parseUrl "/a?x=1?y=2" (newBrowser "/" offline) = ("/a", "x=1").
Proof.
  apply (proj1 (parseUrl_cuts "/a" "x=1?y=2" (newBrowser "/" offline) eq_refl)).
Defined.

Lemma lookup_assign_same (k : string) (v : value) (fields : list (string * value)) :
  lookup k (assign k v fields) = Some v.
Proof.
  induction fields as [|[k' v'] fields IH]; cbn.
  - now rewrite String.eqb_refl.
  - destruct (String.eqb k k') eqn:E; cbn.
    + now rewrite String.eqb_refl.
    + now rewrite E.
Qed.

Lemma lookup_assign_other (k k' : string) (v : value)
  (fields : list (string * value)) :
  String.eqb k' k = false ->
  lookup k' (assign k v fields) = lookup k' fields.
Proof.
  intros Hne. induction fields as [|[k0 v0] fields IH]; cbn.
  - now rewrite Hne.
  - destruct (String.eqb k k0) eqn:E; cbn.
    + apply String.eqb_eq in E. subst k0. now rewrite Hne.
    + now rewrite IH.
Qed.

Lemma lookup_fold_assign (k : string) (pairs : list (string * string)) :
  String.eqb k "__proto__" = false ->
  forall (params : list (string * value)) (acc : option string),
    lookup k params = option_map VStr acc ->
    lookup k (fold_left (fun params kv =>
                           if String.eqb (fst kv) "__proto__" then params
                           else assign (fst kv) (VStr (snd kv)) params)
                        pairs params)
    = option_map VStr
        (fold_left (fun acc kv => if String.eqb k (fst kv) then Some (snd kv) else acc)
                   pairs acc).
Proof.
  intros Hk.
  induction pairs as [|[k' v'] pairs IH]; intros params acc H; [exact H |].
  cbn [fold_left fst snd]. apply IH.
  destruct (String.eqb k k') eqn:E.
  - apply String.eqb_eq in E. subst k'. rewrite Hk. apply lookup_assign_same.
  - destruct (String.eqb k' "__proto__"); [exact H |].
    now rewrite lookup_assign_other.
Qed.

Lemma lookup_fold_proto (pairs : list (string * string)) :
  forall params : list (string * value),
    lookup "__proto__" params = None ->
    lookup "__proto__"
           (fold_left (fun params kv =>
                         if String.eqb (fst kv) "__proto__" then params
                         else assign (fst kv) (VStr (snd kv)) params)
                      pairs params)
    = None.
Proof.
  induction pairs as [|[k' v'] pairs IH]; intros params H; [exact H |].
  cbn [fold_left fst snd]. apply IH.
  destruct (String.eqb k' "__proto__") eqn:E; [exact H |].
  rewrite lookup_assign_other; [exact H |].
  now rewrite String.eqb_sym.
Qed.

(** Query parameters, read as the code reads them, with
    [params[k]]: of several values for one key the last one is kept,
    and a key that does not occur reads as what a plain object
    inherits under that name ([undefined] for most names, a built-in
    for a name such as [constructor]).  The key [__proto__] is never
    stored: it reads as what the object inherits whatever the query
    string says. *)
Theorem parseQuery_last_wins (inherited : value -> string -> value)
  (search k : string) (b : Browser) :
  search <> "" ->
  (k <> "__proto__" ->
   member inherited (VObj (parseQuery search b)) k
   = match lastValue k (urlSearchParams b search) with
     | Some v => VStr v
     | None => inherited (VObj (parseQuery search b)) k
     end) /\
  member inherited (VObj (parseQuery search b)) "__proto__"
  = inherited (VObj (parseQuery search b)) "__proto__".
Proof.
  intros Hne. destruct search as [|c search]; [congruence |].
  unfold parseQuery, member, lastValue. split.
  - intros Hk. apply String.eqb_neq in Hk.
    rewrite (lookup_fold_assign k _ Hk [] None eq_refl).
    now destruct (fold_left _ _ None).
  - now rewrite (lookup_fold_proto _ [] eq_refl).
Qed.

(** The key "a" twice. *)
Lemma parseQuery_last_wins_witness :
  member (fun _ _ => VUndefined)
         (VObj (parseQuery "a=1&b=x&a=2" Examples.queryBrowser)) "a"
  = VStr "2".
Proof.
  apply (parseQuery_last_wins (fun _ _ => VUndefined) "a=1&b=x&a=2" "a"
           Examples.queryBrowser); discriminate.
Defined.

Lemma search_bol_later (x : re) (s : string) :
  forall pos, search (Seq Bol x) (S pos) s = None.
Proof.
  induction s as [|c s IH]; intros pos; cbn [search]; unfold match_at;
    rewrite run_seq; cbn [run m_pos Nat.eqb flat_map]; [reflexivity |].
  now rewrite IH.
Qed.

Lemma replace_1_leading (s : string) :
  replace_1 "^\/" "" s = stripLeadingSlash s.
Proof.
  unfold replace_1. change (literal "^\/") with (Seq Bol (Chr "/")).
  destruct s as [|c s]; [reflexivity |].
  cbn [search]. unfold match_at. rewrite run_seq.
  cbn [run m_pos Nat.eqb]. rewrite flat_map_one. cbn [run]. rewrite eat_cons.
  cbn [stripLeadingSlash]. rewrite Ascii.eqb_sym.
  destruct (Ascii.eqb c "/").
  - reflexivity.
  - now rewrite search_bol_later.
Qed.

Lemma search_trailing (s : string) :
  forall pos,
    match search (Seq (Chr "/") Eol) pos s with
    | Some (skipped, res) => skipped +++ r_after res
    | None => s
    end = stripTrailingSlash s.
Proof.
  induction s as [|c s IH]; intros pos; [reflexivity |].
  cbn [search]. unfold match_at. rewrite run_seq. cbn [run]. rewrite eat_cons.
  rewrite Ascii.eqb_sym. specialize (IH (S pos)).
  destruct s as [|d s].
  - cbn [stripTrailingSlash]. destruct (Ascii.eqb c "/"); reflexivity.
  - change (stripTrailingSlash (String c (String d s)))
      with (String c (stripTrailingSlash (String d s))).
    rewrite <- IH.
    destruct (Ascii.eqb c "/"); cbn [flat_map run m_rest List.app];
      destruct (search (Seq (Chr "/") Eol) (S pos) (String d s)) as [[sk res]|];
      reflexivity.
Qed.

Lemma replace_1_trailing (s : string) :
  replace_1 "\/$" "" s = stripTrailingSlash s.
Proof.
  unfold replace_1. change (literal "\/$") with (Seq (Chr "/") Eol).
  rewrite <- (search_trailing s 0).
  now destruct (search (Seq (Chr "/") Eol) 0 s) as [[sk res]|].
Qed.

(** [joinPaths] drops one slash at the end of the parent and one at the
    beginning of the child, if they are there, and puts one slash
    between the two; so there is exactly one slash between a parent
    "/dashboard" or "/dashboard/" and a child "stats" or "/stats". *)
Theorem joinPaths_one_slash (parent child : string) :
  joinPaths parent child
  = stripTrailingSlash parent +++ "/" +++ stripLeadingSlash child.
Proof.
  unfold joinPaths. now rewrite replace_1_leading, replace_1_trailing.
Qed.

End PathFacts.

(** ** Patterns without placeholders *)

Section StaticFacts.

Import Regex Pattern JsValue Spec.

Lemma match_at_first (c : ascii) (x : re) (pos : nat) (s : string) :
  match s with
  | "" => True
  | String d _ => Ascii.eqb c d = false
  end ->
  match_at (Seq (Chr c) x) pos s = None.
Proof.
  intros H. apply match_at_nil. rewrite run_seq. cbn [run].
  destruct s as [|d s]; [reflexivity |]. rewrite eat_cons. now rewrite H.
Qed.

Lemma search_first_absent (c : ascii) (x : re) (s : string) :
  JsString.mem c s = false -> forall pos, search (Seq (Chr c) x) pos s = None.
Proof.
  induction s as [|d s IH]; intros H pos; cbn [search].
  - now rewrite match_at_first.
  - cbn [JsString.mem] in H. apply orb_false_iff in H as [Hd Hs].
    rewrite match_at_first by exact Hd. now rewrite IH.
Qed.

Lemma replace_all_no_match (r : re) (f : replacer) (s : string) :
  search r 0 s = None -> replace_all r f s = s.
Proof. intros H. unfold replace_all. rewrite replace_loop_S. now rewrite H. Qed.

(** Without an opening bracket there is no placeholder to replace. *)
Lemma placeholders_absent (t s : string) :
  JsString.mem "[" s = false ->
  replace_g catchAllRouteRegex t s = s /\
  replace_g dynamicRouteRegex t s = s /\
  extractKeys s = [].
Proof.
  intros H. unfold replace_g, extractKeys, exec_all.
  change (literal catchAllRouteRegex)
    with (Seq (Chr "[") (literal "\.\.\.([^\]]+)\]")).
  change (literal dynamicRouteRegex)
    with (Seq (Chr "[") (literal "([^\]]+)\]")).
  repeat split.
  - apply replace_all_no_match. now apply search_first_absent.
  - apply replace_all_no_match. now apply search_first_absent.
  - cbn [exec_loop]. rewrite !search_first_absent by exact H. reflexivity.
Qed.

Lemma replace_loop_skip (r : re) (f : result -> string) (fuel pos : nat)
  (c : ascii) (s : string) :
  match_at r pos (String c s) = None ->
  replace_loop (S fuel) r f pos (String c s)
  = String c (replace_loop (S fuel) r f (S pos) s).
Proof.
  intros H. rewrite !replace_loop_S. cbn [search]. rewrite H.
  now destruct (search r (S pos) s) as [[sk res]|].
Qed.

Lemma match_at_class (cs : string) (pos : nat) (c : ascii) (s : string) :
  match_at (Class false cs) pos (String c s)
  = if JsString.mem c cs
    then Some (mkResult pos (String c "") s [])
    else None.
Proof.
  unfold match_at. cbn [run]. rewrite eat_cons. cbn [xorb].
  destruct (JsString.mem c cs); [| reflexivity].
  cbn [m_pos m_rest m_caps]. replace (S pos - pos) with 1 by lia.
  reflexivity.
Qed.

Lemma escape_loop (input : string) (s : string) :
  forall fuel pos,
    String.length s < fuel ->
    replace_loop fuel (Class false "-/\^$*+?.()|[]{}")
                 (template 0 "\$&" input) pos s
    = escaped s.
Proof.
  induction s as [|c s IH]; intros fuel pos Hf.
  - destruct fuel; [reflexivity |]. reflexivity.
  - destruct fuel as [|fuel]; [cbn in Hf; lia |]. cbn [String.length] in Hf.
    cbn [escaped]. unfold special.
    destruct (JsString.mem c "-/\^$*+?.()|[]{}") eqn:E.
    + rewrite replace_loop_S. cbn [search]. rewrite match_at_class, E.
      cbn [r_match r_after r_index String.length].
      rewrite IH by lia. reflexivity.
    + rewrite replace_loop_skip by (now rewrite match_at_class, E).
      rewrite IH by lia. reflexivity.
Qed.

(** The escaping step puts a backslash in front of every special
    character and changes nothing else. *)
Lemma escape_step (s : string) : replace_g escapeRegex "\$&" s = escaped s.
Proof.
  unfold replace_g, replace_all.
  change (literal escapeRegex) with (Class false "-/\^$*+?.()|[]{}").
  apply escape_loop. lia.
Qed.

Lemma mem_escaped (c : ascii) (s : string) :
  Ascii.eqb c "\" = false ->
  JsString.mem c (escaped s) = JsString.mem c s.
Proof.
  intros H. induction s as [|d s IH]; [reflexivity |].
  cbn [escaped]. destruct (special d); cbn [JsString.mem];
    now rewrite ?H, IH.
Qed.

Lemma match_at_second (a b : ascii) (x : re) (pos : nat) (s : string) :
  JsString.mem b s = false ->
  match_at (Seq (Chr a) (Seq (Chr b) x)) pos s = None.
Proof.
  intros H. apply match_at_nil. rewrite run_seq. cbn [run].
  destruct s as [|c s]; [reflexivity |]. rewrite eat_cons.
  destruct (Ascii.eqb a c); [| reflexivity].
  rewrite flat_map_one. cbv beta.
  destruct s as [|d s]; [reflexivity |]. rewrite eat_cons.
  cbn [JsString.mem] in H. apply orb_false_iff in H as [_ H].
  cbn [JsString.mem] in H. apply orb_false_iff in H as [H _].
  now rewrite H.
Qed.

Lemma mem_tail (b c : ascii) (s : string) :
  JsString.mem b (String c s) = false -> JsString.mem b s = false.
Proof. cbn. intros H. now apply orb_false_iff in H as [_ H]. Qed.

Lemma search_second_absent (a b : ascii) (x : re) (s : string) :
  JsString.mem b s = false ->
  forall pos, search (Seq (Chr a) (Seq (Chr b) x)) pos s = None.
Proof.
  induction s as [|c s IH]; intros H pos; cbn [search];
    rewrite match_at_second by exact H; [reflexivity |].
  now rewrite (IH (mem_tail _ _ _ H)).
Qed.

(** Without an opening parenthesis nothing is restored. *)
Lemma restore_absent (s : string) :
  JsString.mem "(" s = false ->
  replace_g restoreCatchAllRegex "(.*)" (escaped s) = escaped s.
Proof.
  intros H. unfold replace_g.
  change (literal restoreCatchAllRegex)
    with (Seq (Chr "\") (Seq (Chr "(") (literal "\\\.\\\*\\\)"))).
  apply replace_all_no_match, search_second_absent.
  now rewrite mem_escaped.
Qed.

(** The text that [pathToRegex] compiles for a pattern without
    placeholders. *)
Lemma pathToRegexSource_static (path : string) :
  JsString.mem "[" path = false ->
  JsString.mem "(" path = false ->
  pathToRegexSource path = "^" +++ escaped path +++ "$".
Proof.
  intros Hb Hp. unfold pathToRegexSource.
  destruct (placeholders_absent "(.*)" path Hb) as [-> _].
  destruct (placeholders_absent "([^/]+)" path Hb) as [_ [-> _]].
  rewrite escape_step, restore_absent by exact Hp.
  now rewrite restoreDynamic_identity.
Qed.

Lemma special_not_alnum (c : ascii) :
  special c = true -> JsString.is_alnum c = false.
Proof.
  destruct c as [[] [] [] [] [] [] [] []]; vm_compute; intros H;
    first [reflexivity | discriminate H].
Qed.

Lemma pstep_plain (c : ascii) (st : pstate) :
  p_mode st = MNormal ->
  special c = false ->
  pstep c st = Some (push_atom (Chr c) st).
Proof.
  intros Hm Hs. unfold pstep. rewrite Hm.
  destruct c as [[] [] [] [] [] [] [] []];
    first [reflexivity | vm_compute in Hs; discriminate Hs].
Qed.

Lemma pstep_backslash (st : pstate) :
  p_mode st = MNormal -> pstep "\" st = Some (set_mode MEscape st).
Proof. intros H. unfold pstep. now rewrite H. Qed.

Lemma pstep_escape (c : ascii) (st : pstate) :
  pstep c (set_mode MEscape st)
  = if JsString.is_alnum c then None
    else Some (mkPstate MNormal (Chr c :: p_atoms st) (p_stack st) (p_next st)).
Proof. reflexivity. Qed.

Lemma parse_escaped (s : string) :
  forall st rest,
    p_mode st = MNormal ->
    parse_from (escaped s +++ rest) st
    = parse_from rest
        (mkPstate MNormal (pushed s (p_atoms st)) (p_stack st) (p_next st)).
Proof.
  induction s as [|c s IH]; intros st rest Hm.
  - cbn. destruct st. cbn in Hm. now subst.
  - cbn [escaped]. destruct (special c) eqn:E.
    + cbn [String.append parse_from].
      rewrite (pstep_backslash st Hm), pstep_escape, (special_not_alnum c E).
      rewrite IH by reflexivity. reflexivity.
    + cbn [String.append parse_from]. rewrite (pstep_plain c st Hm E).
      rewrite IH by reflexivity. reflexivity.
Qed.

Lemma rev_pushed (s : string) :
  forall atoms, List.rev (Eol :: pushed s atoms) = List.rev atoms ++ atomsOf s.
Proof.
  induction s as [|c s IH]; intros atoms; [reflexivity |].
  cbn [pushed atomsOf]. rewrite IH. cbn [List.rev]. now rewrite <- List.app_assoc.
Qed.

Lemma seq_of_atomsOf (s : string) : seq_of (atomsOf s) = exactly s.
Proof.
  induction s as [|c s IH]; [reflexivity |].
  cbn [atomsOf exactly]. rewrite <- IH.
  destruct s; reflexivity.
Qed.

(** A pattern without placeholders compiles to the matcher of its own
    text. *)
Lemma pathToRegex_static (path : string) :
  JsString.mem "[" path = false ->
  JsString.mem "(" path = false ->
  pathToRegex path = Some (Seq Bol (exactly path)).
Proof.
  intros Hb Hp. unfold pathToRegex. rewrite pathToRegexSource_static by assumption.
  unfold parse. cbn [String.append parse_from pstep p_mode push_atom p_atoms p_stack p_next].
  rewrite parse_escaped by reflexivity.
  cbn [parse_from pstep p_mode push_atom p_atoms p_stack p_next].
  rewrite rev_pushed. cbn [List.rev List.app].
  f_equal. rewrite <- seq_of_atomsOf. now destruct path.
Qed.

Lemma run_exactly (s : string) :
  forall st,
    run (exactly s) st
    = if String.eqb (m_rest st) s
      then [mkMstate (m_pos st + String.length s) "" (m_caps st)]
      else [].
Proof.
  induction s as [|c s IH]; intros [pos rest caps]; cbn [exactly].
  - cbn. destruct rest; [| reflexivity]. now rewrite Nat.add_0_r.
  - rewrite run_seq. cbn [run m_rest m_pos m_caps].
    destruct rest as [|d rest]; [reflexivity |].
    rewrite eat_cons. cbn [String.eqb]. rewrite Ascii.eqb_sym.
    destruct (Ascii.eqb d c); [| reflexivity].
    rewrite flat_map_one, IH. cbn [m_rest m_pos m_caps String.length].
    destruct (String.eqb rest s); [| reflexivity].
    do 2 f_equal. lia.
Qed.

Lemma test_exactly (path s : string) :
  test (Seq Bol (exactly path)) s = String.eqb s path.
Proof.
  unfold test, exec.
  assert (E : match_at (Seq Bol (exactly path)) 0 s
              = if String.eqb s path
                then Some (mkResult 0 (JsString.take (String.length path) s) "" [])
                else None).
  { unfold match_at. rewrite run_seq. cbn [run m_pos Nat.eqb].
    rewrite flat_map_one, run_exactly. cbn [m_rest m_pos m_caps].
    destruct (String.eqb s path); [| reflexivity].
    now rewrite Nat.sub_0_r. }
  destruct s as [|c s]; cbn [search]; rewrite E.
  - now destruct (String.eqb "" path).
  - destruct (String.eqb (String c s) path); [reflexivity |].
    now rewrite search_bol_later.
Qed.

(** A pattern without placeholders is matched by its own text and by
    nothing else, whatever special characters it has; it has no keys,
    and no parameters are extracted. *)
Theorem static_pattern_matches_itself (path : string) :
  JsString.mem "[" path = false ->
  JsString.mem "(" path = false ->
  exists regex,
    pathToRegex path = Some regex /\
    (forall s, test regex s = String.eqb s path) /\
    extractKeys path = [] /\
    extractParams path regex (extractKeys path) = [].
Proof.
  intros Hb Hp. exists (Seq Bol (exactly path)).
  destruct (placeholders_absent "" path Hb) as [_ [_ Hk]].
  split; [now apply pathToRegex_static |].
  split; [intros s; apply test_exactly |].
  split; [exact Hk |]. rewrite Hk. unfold extractParams.
  now destruct (Regex.exec (Seq Bol (exactly path)) path).
Qed.

(** The dot of "/v1.0/docs" stands for itself. *)
Lemma static_pattern_matches_itself_witness :
  exists regex,
    pathToRegex "/v1.0/docs" = Some regex /\
    (forall s, test regex s = String.eqb s "/v1.0/docs") /\
    extractKeys "/v1.0/docs" = [] /\
    extractParams "/v1.0/docs" regex (extractKeys "/v1.0/docs") = [].
Proof.
  apply (static_pattern_matches_itself "/v1.0/docs"); reflexivity.
Defined.

End StaticFacts.

(** ** Catch-all patterns *)

Section CatchAllFacts.

Import Regex Pattern JsValue Spec.







Lemma search_nothing (r : re) (pos : nat) :
  match_at r pos "" = None -> search r pos "" = None.
Proof. intros H. cbn. now rewrite H. Qed.


















End CatchAllFacts.

(** ** The committed route *)

Section CommitFacts.

Import JsValue Router Spec.













End CommitFacts.

(** ** The order of the routes *)

Section OrderFacts.

Import JsValue Pattern Router Spec.

Lemma has_In {V : Type} (k : string) (m : list (string * V)) :
  JsMap.has String.eqb k m = true <-> In k (map fst m).
Proof.
  unfold JsMap.has. induction m as [|[k' v'] m IH]; cbn.
  - split; [discriminate | intros []].
  - destruct (String.eqb k k') eqn:E.
    + apply String.eqb_eq in E. subst k'. split; [now left | reflexivity].
    + apply String.eqb_neq in E. rewrite IH. split; [now right |].
      intros [H | H]; [congruence | exact H].
Qed.

Lemma keys_set {V : Type} (k : string) (v : V) (m : list (string * V)) :
  map fst (JsMap.set String.eqb k v m)
  = if JsMap.has String.eqb k m then map fst m else map fst m ++ [k].
Proof.
  unfold JsMap.has. induction m as [|[k' v'] m IH]; cbn; [reflexivity |].
  destruct (String.eqb k k') eqn:E; cbn.
  - apply String.eqb_eq in E. now subst k'.
  - rewrite IH. now destruct (JsMap.get String.eqb k m).
Qed.

(** [addRoute] with the loop over the nested routes as a function of
    its own. *)
Lemma addRoute_unfold (path : string) (handler : Handler) (options : Options)
  (this : VelocityRouter) :
  addRoute path handler options this
  = bind (pathToRegex path) (fun regex =>
      bind (addNestedRoutes path (o_children options) this) (fun this1 =>
        Some (set_routes
                (JsMap.set String.eqb path
                   (routeConfigOf this path handler options regex
                                  (extractKeys path))
                   (routes this1))
                this1))).
Proof.
  destruct options. cbn [addRoute o_children].
  destruct (pathToRegex path) as [regex|]; [| reflexivity].
  cbn [bind]. f_equal. clear. revert this.
  induction o_children0 as [|route rest IH]; intros this; [reflexivity |].
  cbn [addNestedRoutes].
  destruct (addRoute (joinPaths path (o_path route)) (o_handler route) route this)
    as [this1|]; [| reflexivity].
  cbn [bind]. apply IH.
Qed.

Lemma addRoute_paths (path : string) (handler : Handler) (options : Options)
  (this this' : VelocityRouter) :
  leaf options ->
  addRoute path handler options this = Some this' ->
  paths this'
  = (if JsMap.has String.eqb path (routes this) then paths this
     else paths this ++ [path]) /\
  (forall other,
     other <> path ->
     JsMap.get String.eqb other (routes this')
     = JsMap.get String.eqb other (routes this)).
Proof.
  intros Hl. rewrite addRoute_unfold. unfold leaf in Hl. rewrite Hl.
  destruct (pathToRegex path) as [regex|]; [| discriminate].
  cbn [bind addNestedRoutes]. intros [= <-]. unfold paths.
  cbn [routes set_routes]. split; [apply keys_set |].
  intros other Hne. now apply get_set_other.
Qed.

(** Registering a path that is registered already puts the new
    configuration in the place of the old one: the route keeps its
    position in the order in which [matchRoute] tries the routes.  A new
    path goes to the end.  The other routes stay as they are. *)
Theorem addRoute_keeps_position (path : string) (handler : Handler)
  (options : Options) (this this' : VelocityRouter) :
  leaf options ->
  addRoute path handler options this = Some this' ->
  (In path (paths this) -> paths this' = paths this) /\
  (~ In path (paths this) -> paths this' = paths this ++ [path]) /\
  (forall other,
     other <> path ->
     JsMap.get String.eqb other (routes this')
     = JsMap.get String.eqb other (routes this)).
Proof.
  intros Hl H. destruct (addRoute_paths _ _ _ _ _ Hl H) as [Hp Ho].
  repeat split; [| | exact Ho].
  - intros Hin. apply has_In in Hin. now rewrite Hin in Hp.
  - intros Hin. destruct (JsMap.has String.eqb path (routes this)) eqn:E;
      [| exact Hp].
    apply has_In in E. contradiction.
Qed.

(** The page "/a" registered again stays before "/b". *)
Lemma addRoute_keeps_position_witness :
  paths (Examples.register "/a" (Examples.page "New") Examples.noOptions
                           Examples.twoPages)
  = ["/a"; "/b"].
Proof.
  apply (proj1 (addRoute_keeps_position "/a" (Examples.page "New")
                  Examples.noOptions Examples.twoPages
                  (Examples.register "/a" (Examples.page "New")
                     Examples.noOptions Examples.twoPages)
                  eq_refl ltac:(vm_compute; reflexivity))).
  vm_compute. tauto.
Defined.

Lemma addNestedRoutes_paths (parentPath : string) (nestedRoutes : list Options) :
  Forall leaf nestedRoutes ->
  NoDup (childPaths parentPath nestedRoutes) ->
  forall this this1,
    (forall p, In p (childPaths parentPath nestedRoutes) -> ~ In p (paths this)) ->
    addNestedRoutes parentPath nestedRoutes this = Some this1 ->
    paths this1 = paths this ++ childPaths parentPath nestedRoutes.
Proof.
  induction nestedRoutes as [|route rest IH]; intros Hl Hd this this1 Hf H.
  - injection H as <-. cbn. now rewrite List.app_nil_r.
  - cbn [addNestedRoutes] in H. cbn [childPaths map] in *.
    fold (childPaths parentPath rest) in *.
    inversion Hl as [|? ? Hl1 Hl2]. subst. inversion Hd as [|? ? Hd1 Hd2]. subst.
    destruct (addRoute (joinPaths parentPath (o_path route)) (o_handler route)
                       route this) as [this0|] eqn:E; [| discriminate].
    cbn [bind] in H.
    destruct (addRoute_paths _ _ _ _ _ Hl1 E) as [Hp _].
    assert (Hn : JsMap.has String.eqb (joinPaths parentPath (o_path route))
                           (routes this) = false).
    { destruct (JsMap.has String.eqb (joinPaths parentPath (o_path route))
                          (routes this)) eqn:Eh; [| reflexivity].
      apply has_In in Eh. exfalso. apply (Hf _ (or_introl eq_refl)), Eh. }
    rewrite Hn in Hp.
    rewrite (IH Hl2 Hd2 this0 this1); [now rewrite Hp, <- List.app_assoc | | exact H].
    intros p Hp1 Hp2. rewrite Hp in Hp2. apply in_app_or in Hp2 as [Hp2 | [<- | []]].
    + apply (Hf p (or_intror Hp1)), Hp2.
    + contradiction.
Qed.

(** The nested routes are registered before the route itself: with
    new paths all around, the routes of [children] come first, each
    under the path joined from the parent's and its own, in the order
    of the list, and the parent comes last; so [matchRoute] tries every
    child before the parent. *)
Theorem addRoute_children_first (path : string) (handler : Handler)
  (options : Options) (this this' : VelocityRouter) :
  Forall leaf (o_children options) ->
  NoDup (childPaths path (o_children options) ++ [path]) ->
  (forall p,
     In p (childPaths path (o_children options) ++ [path]) ->
     ~ In p (paths this)) ->
  addRoute path handler options this = Some this' ->
  paths this' = paths this ++ childPaths path (o_children options) ++ [path].
Proof.
  intros Hl Hd Hf. rewrite addRoute_unfold.
  destruct (pathToRegex path) as [regex|]; [| discriminate].
  cbn [bind].
  destruct (addNestedRoutes path (o_children options) this) as [this1|] eqn:E;
    [| discriminate].
  cbn [bind]. intros [= <-].
  assert (Hd' : NoDup (childPaths path (o_children options))).
  { now apply NoDup_app_remove_r in Hd. }
  assert (Hp : paths this1 = paths this ++ childPaths path (o_children options)).
  { apply (addNestedRoutes_paths path (o_children options) Hl Hd' this this1);
      [| exact E].
    intros p Hp. apply Hf, in_or_app. now left. }
  unfold paths in *. cbn [routes set_routes]. rewrite keys_set.
  destruct (JsMap.has String.eqb path (routes this1)) eqn:Eh.
  - apply has_In in Eh. rewrite Hp in Eh. exfalso.
    apply in_app_or in Eh as [Eh | Eh].
    + apply (Hf path); [apply in_or_app; right; now left | exact Eh].
    + apply NoDup_remove_2 in Hd. rewrite List.app_nil_r in Hd.
      apply Hd, Eh.
  - now rewrite Hp, <- List.app_assoc.
Qed.

(** The dashboard with its two nested routes. *)
Lemma addRoute_children_first_witness :
  paths (Examples.register "/dashboard" (Examples.page "Dashboard")
                           Examples.dashboard Examples.userApp)
  = ["/user"; "/dashboard/stats"; "/dashboard/settings"; "/dashboard"].
Proof.
  apply (addRoute_children_first "/dashboard" (Examples.page "Dashboard")
           Examples.dashboard Examples.userApp
           (Examples.register "/dashboard" (Examples.page "Dashboard")
              Examples.dashboard Examples.userApp)).
  - repeat constructor.
  - vm_compute. repeat constructor; cbn; intuition discriminate.
  - vm_compute. intros p [<- | [<- | [<- | []]]] [H | []]; discriminate H.
  - vm_compute. reflexivity.
Defined.

End OrderFacts.

(** ** Listeners *)

Section EventFacts.

Import JsValue Spec.
Import Events.

Lemma listenersOf_set_same (event : string) (listeners : list Callback)
  (eventListeners : list (string * list Callback)) :
  listenersOf event (JsMap.set String.eqb event listeners eventListeners)
  = listeners.
Proof. unfold listenersOf. now rewrite get_set_same. Qed.

Lemma listenersOf_set_other (event other : string) (listeners : list Callback)
  (eventListeners : list (string * list Callback)) :
  other <> event ->
  listenersOf other (JsMap.set String.eqb event listeners eventListeners)
  = listenersOf other eventListeners.
Proof. intros H. unfold listenersOf. now rewrite get_set_other. Qed.

Lemma listenersOf_on (event : string) (callback : Callback)
  (eventListeners : list (string * list Callback)) :
  listenersOf event (on event callback eventListeners)
  = listenersOf event eventListeners ++ [callback] /\
  (forall other,
     other <> event ->
     listenersOf other (on event callback eventListeners)
     = listenersOf other eventListeners).
Proof.
  unfold on, JsMap.has, listenersOf at 2.
  destruct (JsMap.get String.eqb event eventListeners) as [listeners|] eqn:E;
    cbn [negb].
  - rewrite E. split; [apply listenersOf_set_same |].
    intros other H. now apply listenersOf_set_other.
  - rewrite get_set_same. split; [apply listenersOf_set_same |].
    intros other H. now rewrite !listenersOf_set_other.
Qed.

Lemma indexOf_unregistered (callback : Callback) (listeners : list Callback) :
  unregistered callback listeners -> indexOf callback listeners = None.
Proof.
  induction listeners as [|c rest IH]; intros H; [reflexivity |].
  cbn [indexOf]. rewrite (H c (or_introl eq_refl)).
  rewrite IH; [reflexivity |]. intros c' Hc'. apply H. now right.
Qed.

Lemma indexOf_found (callback c : Callback) (before after : list Callback) :
  unregistered callback before ->
  same c callback = true ->
  indexOf callback (before ++ c :: after) = Some (List.length before).
Proof.
  intros Hb Hc. induction before as [|b before IH]; cbn [List.app indexOf].
  - now rewrite Hc.
  - rewrite (Hb b (or_introl eq_refl)), IH; [reflexivity |].
    intros c' Hc'. apply Hb. now right.
Qed.

Lemma splice_length (c : Callback) (before after : list Callback) :
  splice (List.length before) (before ++ c :: after) = before ++ after.
Proof.
  induction before as [|b before IH]; [reflexivity |].
  cbn [List.length List.app splice]. now rewrite IH.
Qed.

Lemma splice_first (callback c : Callback) (before after : list Callback) :
  unregistered callback before ->
  same c callback = true ->
  match indexOf callback (before ++ c :: after) with
  | Some index => splice index (before ++ c :: after)
  | None => before ++ c :: after
  end = before ++ after.
Proof.
  intros Hb Hc. rewrite (indexOf_found callback c before after Hb Hc).
  apply splice_length.
Qed.

Lemma listenersOf_off (event : string) (callback : Callback)
  (eventListeners : list (string * list Callback)) :
  listenersOf event (off event callback eventListeners)
  = match indexOf callback (listenersOf event eventListeners) with
    | Some index => splice index (listenersOf event eventListeners)
    | None => listenersOf event eventListeners
    end /\
  (forall other,
     other <> event ->
     listenersOf other (off event callback eventListeners)
     = listenersOf other eventListeners).
Proof.
  unfold off, listenersOf at 2 3 4.
  destruct (JsMap.get String.eqb event eventListeners) as [listeners|] eqn:E.
  - destruct (indexOf callback listeners) as [index|].
    + split; [apply listenersOf_set_same |].
      intros other H. now apply listenersOf_set_other.
    + split; [| reflexivity]. unfold listenersOf. now rewrite E.
  - split; [| reflexivity]. unfold listenersOf. now rewrite E.
Qed.

(** A callback registered with [on] is called by [emit] after the
    callbacks that were registered for the event before, whatever they
    do, one more time than before, and for this event only. *)
Theorem on_then_emit (event : string) (callback : Callback) (data : value)
  (eventListeners : list (string * list Callback)) :
  emit event data (on event callback eventListeners)
  = emit event data eventListeners ++ [(cb_id callback, cb_call callback data)] /\
  (forall other,
     other <> event ->
     emit other data (on event callback eventListeners)
     = emit other data eventListeners).
Proof.
  assert (E : forall e m, emit e data m
                          = map (fun c => (cb_id c, cb_call c data)) (listenersOf e m)).
  { intros e m. unfold emit, listenersOf.
    now destruct (JsMap.get String.eqb e m). }
  destruct (listenersOf_on event callback eventListeners) as [H1 H2].
  split.
  - now rewrite !E, H1, map_app.
  - intros other H. now rewrite !E, H2.
Qed.

(** A listener for another event is not called. *)
Lemma on_then_emit_witness :
  emit "route:error" VUndefined (on "route:change" Examples.logger [])
  = emit "route:error" VUndefined [].
Proof.
  apply (proj2 (on_then_emit "route:change" Examples.logger VUndefined [])).
  discriminate.
Defined.

(** [off] removes one registration of the callback, the first one: a
    callback that was registered twice for the event is still called
    once.  The callbacks around it keep their order, and the listeners
    of other events stay as they are. *)
Theorem off_removes_first (event : string) (callback c : Callback)
  (before after : list Callback)
  (eventListeners : list (string * list Callback)) :
  listenersOf event eventListeners = before ++ c :: after ->
  unregistered callback before ->
  same c callback = true ->
  listenersOf event (off event callback eventListeners) = before ++ after /\
  (forall other,
     other <> event ->
     listenersOf other (off event callback eventListeners)
     = listenersOf other eventListeners).
Proof.
  intros Hl Hb Hc.
  destruct (listenersOf_off event callback eventListeners) as [H1 H2].
  split; [| exact H2]. rewrite H1, Hl. now apply splice_first.
Qed.

(** The logger registered twice, removed once. *)
Lemma off_removes_first_witness :
  listenersOf "route:change"
    (off "route:change" Examples.logger
         (on "route:change" Examples.logger
             (on "route:change" Examples.counter
                 (on "route:change" Examples.logger []))))
  = [Examples.counter; Examples.logger].
Proof.
  apply (proj1 (off_removes_first "route:change" Examples.logger Examples.logger
                  [] [Examples.counter; Examples.logger]
                  (on "route:change" Examples.logger
                      (on "route:change" Examples.counter
                          (on "route:change" Examples.logger [])))
                  eq_refl ltac:(intros c []) eq_refl)).
Defined.

(** A callback that is not registered for the event: [off] changes
    nothing, and [off] after [on] gives back the listeners of every
    event. *)
Theorem on_off_round_trip (event : string) (callback : Callback)
  (eventListeners : list (string * list Callback)) :
  unregistered callback (listenersOf event eventListeners) ->
  off event callback eventListeners = eventListeners /\
  (forall e,
     listenersOf e (off event callback (on event callback eventListeners))
     = listenersOf e eventListeners).
Proof.
  intros Hu. split.
  - unfold off. unfold listenersOf in Hu.
    destruct (JsMap.get String.eqb event eventListeners) as [listeners|];
      [| reflexivity].
    now rewrite (indexOf_unregistered callback listeners Hu).
  - intros e. destruct (listenersOf_on event callback eventListeners) as [H1 H2].
    destruct (listenersOf_off event callback (on event callback eventListeners))
      as [H3 H4].
    assert (Hs : same callback callback = true) by apply Nat.eqb_refl.
    destruct (String.eqb e event) eqn:Ee.
    + apply String.eqb_eq in Ee. subst e. rewrite H3, H1.
      rewrite (splice_first callback callback _ [] Hu Hs).
      apply List.app_nil_r.
    + apply String.eqb_neq in Ee. now rewrite H4, H2.
Qed.

(** The counter is not registered beside the logger. *)
Lemma on_off_round_trip_witness :
  off "route:change" Examples.counter (on "route:change" Examples.logger [])
  = on "route:change" Examples.logger [].
Proof.
  apply (proj1 (on_off_round_trip "route:change" Examples.counter
                  (on "route:change" Examples.logger [])
                  ltac:(intros c [<- | []]; reflexivity))).
Defined.

End EventFacts.

(** ** Navigations that fail *)

Section FailureFacts.

Import JsValue Router Spec.




Lemma navigate_finish_history (p : string) (options : NavOptions) (w : World) :
  history (browser (snd (navigate_finish p options w)))
  = match fst (handleRouteWithTransition p w), refuses (browser w) p with
    | Returns _, None => historyAfter options p (browser w)
    | _, _ => history (browser w)
    end.
Proof.
  pose proof (steady_handleRouteWithTransition p w) as H.
  pose proof (fixed_handleRouteWithTransition p w) as F.
  unfold steady, control in H. unfold fixed, setting in F.
  rewrite navigate_finish_cases. cbv zeta.
  destruct (handleRouteWithTransition p w) as [[[]|e] w1]; cbn [fst snd] in *;
    injection H as _ _ _ _ Hh _ _ Hn;
    injection F as _ _ _ _ _ _ _ _ Hr.
  - rewrite <- Hr. destruct (refuses (browser w1) p) as [message|] eqn:E.
    + exact Hh.
    + unfold historyAfter. rewrite <- Hh, <- Hn.
      unfold replaceState, pushState, bindM, window. cbn [fst snd].
      destruct (replace options); rewrite E; cbn;
        destruct (transitionQueue (router w1)) eqn:Eq; reflexivity.
  - destruct (refuses (browser w) p); exact Hh.
Qed.

Lemma length_replaced {A : Type} (l : list A) (x : A) :
  l <> [] -> List.length (removelast l ++ [x]) = List.length l.
Proof.
  intros H. rewrite (app_removelast_last x H) at 2. now rewrite !length_app.
Qed.

(** [redirect], which replaces by default, never makes the history
    longer: while no navigation is in flight it puts the new entry in
    the place of the current one, or leaves the history as it is when
    the path is the committed one or the navigation fails. *)
Theorem redirect_keeps_history_length (p : string) (w : World) :
  isTransitioning (router w) = false ->
  history (browser w) <> [] ->
  List.length (history (browser (exec (redirect p true) w)))
  = List.length (history (browser w)).
Proof.
  intros Ht Hh. unfold exec, redirect. rewrite navigate_split.
  unfold navigate_begin, bindM at 1. cbn [this]. rewrite Ht. cbn [andb force].
  destruct (onRoute (router w) p && negb false); [reflexivity |].
  unfold saveScrollPosition, showLoading.
  destruct (truthy_string (currentFullPath (router w))); cbn;
    rewrite navigate_finish_history;
    match goal with
    | |- context [fst (handleRouteWithTransition p ?w1)] =>
        destruct (fst (handleRouteWithTransition p w1));
        destruct (refuses (browser w1) p)
    end;
    first [ reflexivity
          | exact (length_replaced (history (browser w)) _ Hh) ].
Qed.

(** A redirect from the first page. *)
Lemma redirect_keeps_history_length_witness :
  List.length
    (history (browser (exec (redirect "/a" true)
                            (Examples.browse Examples.twoPages))))
  = 1.
Proof.
  apply (redirect_keeps_history_length "/a" (Examples.browse Examples.twoPages)).
  - reflexivity.
  - discriminate.
Defined.

End FailureFacts.

(** ** Preloading *)

Section PreloadFacts.

Import JsValue Router Spec.
Import Preload.

Lemma fetchHtmlPage_state (htmlPath : string) (context : Context) (w : World) :
  snd (fetchHtmlPage htmlPath context w) = record [EFetch htmlPath] w.
Proof.
  unfold fetchHtmlPage, bindM. cbn [window]. rewrite emit_record.
  unfold lift. destruct (fetch (browser w) htmlPath) as [response|e];
    [destruct (ok response) |]; reflexivity.
Qed.

Lemma loadPage_state (pageUrl : string) (w : World) :
  snd (loadPage pageUrl w) = record [EFetch pageUrl] w.
Proof.
  unfold loadPage, bindM. cbn [window]. rewrite emit_record.
  unfold lift. destruct (fetch (browser w) pageUrl) as [response|e];
    [destruct (ok response) |]; reflexivity.
Qed.

(** [preloadRoute] never throws and only fetches: the router and the
    page are as before, apart from the record of the requests; nothing
    is put in the page cache, so a later visit acquires the content as
    if nothing had been preloaded.  Nothing at all happens unless the
    path matches a route that was registered with [preload: true]. *)
Theorem preloadRoute_only_fetches (p : string) (w : World) :
  fst (preloadRoute p w) = Returns tt /\
  (exists urls, exec (preloadRoute p) w = record (map EFetch urls) w) /\
  (match matchRoute (router w) (fst (parseUrl p (browser w))) with
   | Some route => preload (snd route) = false
   | None => True
   end ->
   preloadRoute p w = (Returns tt, w)).
Proof.
  unfold exec. remember (preloadRoute p w) as res eqn:E.
  unfold preloadRoute, try_catch in E. unfold bindM at 1 in E.
  cbn [window] in E. unfold bindM at 1 in E. cbn [this] in E.
  destruct (parseUrl p (browser w)) as [pathname search]. cbn [fst].
  destruct (matchRoute (router w) pathname) as [route|].
  2: { subst res. split; [reflexivity | split; [| reflexivity]].
       exists []. cbn. now rewrite record_nil. }
  destruct (preload (snd route)).
  2: { subst res. split; [reflexivity | split; [| reflexivity]].
       exists []. cbn. now rewrite record_nil. }
  set (second := match handler (snd route) with
                 | HString url => loadPage url ;; ret tt
                 | _ => ret tt
                 end) in E.
  assert (H2 : forall w0, exists urls,
               snd (second w0) = record (map EFetch urls) w0).
  { intros w0. unfold second.
    destruct (handler (snd route)) as [f|url|].
    - exists []. cbn. now rewrite record_nil.
    - exists [url]. unfold bindM.
      pose proof (loadPage_state url w0) as Hs.
      destruct (loadPage url w0) as [[v|e] w1]; exact Hs.
    - exists []. cbn. now rewrite record_nil. }
  assert (H3 : forall w0 (r : outcome unit * World),
               r = (let (o, w1) := second w0 in
                    match o with
                    | Returns a => (Returns a, w1)
                    | Throws _ => ret tt w1
                    end) ->
               fst r = Returns tt /\
               exists urls, snd r = record (map EFetch urls) w0).
  { intros w0 r ->. destruct (H2 w0) as [urls Hu].
    destruct (second w0) as [[[]|e] w1]; cbn [snd] in Hu; subst w1;
      (split; [reflexivity | now exists urls]). }
  unfold bindM at 1 in E.
  destruct (fetchHtml (snd route));
    [destruct (truthy_string (htmlPath (snd route))) as [h|] |].
  - pose proof (fetchHtmlPage_state h (notFoundContext pathname) w) as Hs.
    unfold bindM at 1 in E.
    destruct (fetchHtmlPage h (notFoundContext pathname) w) as [[v|e] w1];
      cbn [snd] in Hs; subst w1; cbn [ret] in E.
    + destruct (H3 _ _ E) as [Hf [urls Hu]].
      split; [exact Hf | split; [| discriminate]].
      exists (h :: urls). rewrite Hu. now rewrite record_record.
    + subst res. split; [reflexivity | split; [| discriminate]].
      now exists [h].
  - cbn [ret] in E. destruct (H3 _ _ E) as [Hf [urls Hu]].
    split; [exact Hf | split; [now exists urls | discriminate]].
  - cbn [ret] in E. destruct (H3 _ _ E) as [Hf [urls Hu]].
    split; [exact Hf | split; [now exists urls | discriminate]].
Qed.

(** The page "/a" was registered without [preload]. *)
Lemma preloadRoute_only_fetches_witness :
  preloadRoute "/a" (Examples.browse Examples.twoPages)
  = (Returns tt, Examples.browse Examples.twoPages).
Proof.
  apply (proj2 (proj2 (preloadRoute_only_fetches "/a"
                         (Examples.browse Examples.twoPages)))).
  vm_compute. reflexivity.
Defined.

End PreloadFacts.

(** ** From a navigation to the acquisition of the content *)

Section StepFacts.

Import JsValue Router Spec.

Variable R : World -> World -> Prop.
Hypothesis R_refl : forall w, R w w.

Lemma after_bind {A B : Type} (m : M A) (k : A -> M B) (w : World) :
  (forall a, keeps R (k a)) -> R (snd (m w)) (snd (bindM m k w)).
Proof.
  intros Hk. unfold bindM. destruct (m w) as [[a|e] w']; cbn [snd].
  - apply Hk.
  - apply R_refl.
Qed.

Lemma after_try {A : Type} (m : M A) (h : string -> M A) (w : World) :
  (forall e, keeps R (h e)) -> R (snd (m w)) (snd (try_catch m h w)).
Proof.
  intros Hh. unfold try_catch. destruct (m w) as [[a|e] w']; cbn [snd].
  - apply R_refl.
  - apply Hh.
Qed.

End StepFacts.

Section ResolutionFacts.

Import JsValue Router Spec.

Lemma calm_refl (w : World) : calm w w.
Proof. split; [apply quiet_refl | split; reflexivity]. Qed.

Lemma calm_trans (a b c : World) : calm a b -> calm b c -> calm a c.
Proof.
  intros [Q1 [F1 L1]] [Q2 [F2 L2]]. split; [| split].
  - exact (quiet_trans _ _ _ Q1 Q2).
  - exact (fixed_trans _ _ _ F1 F2).
  - congruence.
Qed.

Lemma calm_update (f : VelocityRouter -> VelocityRouter) :
  (forall r, (pageCache (f r), routes (f r), middlewares (f r),
              routeGuards (f r), transitions (f r), routeComponents (f r))
             = (pageCache r, routes r, middlewares r, routeGuards r,
                transitions r, routeComponents r)) ->
  keeps calm (update f).
Proof.
  intros H w. specialize (H (router w)). injection H as Hp Hr Hm Hg Ht Hc.
  split; [| split].
  - split; [exact Hp | reflexivity].
  - unfold fixed, setting. cbn [update snd router browser].
    now rewrite Hr, Hm, Hg, Ht, Hc.
  - reflexivity.
Qed.

Lemma calm_effect (f : Browser -> Browser) :
  (forall b, (trace (f b), location (f b), fetch (f b), urlSearchParams (f b),
              prototypes (f b), refuses (f b))
             = (trace b, location b, fetch b, urlSearchParams b,
                prototypes b, refuses b)) ->
  keeps calm (effect f).
Proof.
  intros H w. specialize (H (browser w)). injection H as Ht Hl Hf Hu Hp Hr.
  split; [| split].
  - split; [reflexivity |]. intros key. unfold acquisitions.
    cbn [effect snd router browser]. now rewrite Ht.
  - unfold fixed, setting. cbn [effect snd router browser].
    now rewrite Hf, Hu, Hp, Hr.
  - exact Hl.
Qed.

Lemma calm_emit (e : event) :
  (forall key, acquires key e = false) -> keeps calm (emit e).
Proof.
  intros H w. split; [| split].
  - split; [reflexivity |]. intros key. rewrite acquisitions_emit, H. lia.
  - reflexivity.
  - reflexivity.
Qed.

Ltac calm_prim :=
  first
    [ apply calm_update; intros ?; reflexivity
    | apply calm_effect; intros ?; reflexivity
    | apply calm_emit; intros ?; reflexivity ].

Ltac calm_auto :=
  repeat first [ calm_prim | keep_step calm_refl calm_trans ].

Lemma calm_runGuards (guards : list fn) (context : Context) :
  keeps calm (runGuards guards context).
Proof. induction guards as [|g guards IH]; cbn [runGuards]; calm_auto. Qed.

Lemma calm_runMiddlewares (middlewares : list fn) (context : Context) :
  keeps calm (runMiddlewares middlewares context).
Proof.
  induction middlewares as [|m middlewares IH]; cbn [runMiddlewares]; calm_auto.
Qed.

Lemma calm_applyTransitionOut (current : CurrentRoute) :
  keeps calm (applyTransitionOut current).
Proof. unfold applyTransitionOut, defaultTransitionOut. calm_auto. Qed.

Lemma calm_begun (w : World) : calm w (begun w).
Proof.
  unfold begun.
  destruct (truthy_string (currentFullPath (router w)));
    (split; [split; [reflexivity | intros key; reflexivity]
            | split; reflexivity]).
Qed.

(** What a calm step keeps. *)
Lemma calm_matchRoute (w w' : World) (p : string) :
  calm w w' ->
  parseUrl p (browser w') = parseUrl p (browser w) /\
  matchRoute (router w') (fst (parseUrl p (browser w')))
  = matchRoute (router w) (fst (parseUrl p (browser w))).
Proof.
  intros [_ [F L]]. unfold fixed, setting in F.
  injection F as Hr _ _ _ _ _ _ _ _.
  assert (E : parseUrl p (browser w') = parseUrl p (browser w))
    by (unfold parseUrl; now rewrite L).
  split; [exact E |]. rewrite E. unfold matchRoute. now rewrite Hr.
Qed.

Lemma calm_contextFor (w w' : World) (p : string) (config : RouteConfig) :
  calm w w' ->
  contextFor p config (browser w') = contextFor p config (browser w).
Proof.
  intros C. destruct (calm_matchRoute w w' p C) as [E _].
  destruct C as [_ [F _]]. unfold fixed, setting in F.
  injection F as _ _ _ _ _ _ Hu _ _.
  unfold contextFor, parseQuery. now rewrite E, Hu.
Qed.

Lemma calm_admitted (w w' : World) (p : string) (route : string * RouteConfig) :
  calm w w' -> admitted p route w -> admitted p route w'.
Proof.
  intros C [Hm [Hg Hw]].
  destruct (calm_matchRoute w w' p C) as [_ E].
  pose proof (calm_contextFor w w' p (snd route) C) as Ec.
  destruct C as [_ [F _]]. unfold fixed, setting in F.
  injection F as _ Hmw Hgs _ _ _ _ _ _.
  unfold admitted, guardsUnder. rewrite E, Ec, Hmw, Hgs.
  split; [exact Hm | split; [exact Hg | exact Hw]].
Qed.

Lemma applyTransitionOut_answer (current : CurrentRoute) (w w' : World) :
  fixed w w' ->
  fst (applyTransitionOut current w') = fst (applyTransitionOut current w).
Proof.
  intros F. unfold fixed, setting in F. injection F as _ _ _ Ht _ _ _ _ _.
  unfold applyTransitionOut.
  destruct (transition (cr_config current)); [reflexivity |].
  unfold bindM at 1 3. cbn [this fst snd]. rewrite Ht.
  destruct (JsMap.get String.eqb _ (transitions (router w)))
    as [[[out|] in_]|]; try reflexivity.
  unfold bindM, lift. destruct out; reflexivity.
Qed.

Lemma getRouteContent_answer (routeConfig : RouteConfig) (context : Context)
  (w w' : World) :
  fixed w w' ->
  fst (getRouteContent routeConfig context w')
  = fst (getRouteContent routeConfig context w).
Proof.
  intros F. unfold fixed, setting in F.
  injection F as _ _ _ _ Hc Hf _ Hp _.
  unfold getRouteContent, fetchHtmlPage, loadPage, renderComponent, bindM,
    emit, effect, window, this, lift, call, throw, ret.
  repeat (cbn [fst snd browser router fetch prototypes routeComponents
               set_trace];
          rewrite ?Hc, ?Hf, ?Hp;
          match goal with
          | |- context [match ?x with _ => _ end] =>
              lazymatch x with
              | context [match _ with _ => _ end] => fail
              | _ => destruct x
              end
          end);
    cbn [fst snd browser router fetch prototypes routeComponents set_trace];
    rewrite ?Hc, ?Hf, ?Hp; reflexivity.
Qed.

(** A navigation that goes past its checks is the rest of [navigate]
    run from the state that [navigate_begin] leaves. *)
Lemma navigate_enters (p : string) (options : NavOptions) (w : World) :
  entered p options w ->
  navigate p options w = navigate_finish p options (begun w).
Proof.
  intros [H1 H2]. rewrite navigate_split.
  unfold navigate_begin, bindM at 1. cbn [this]. rewrite H1, H2.
  unfold saveScrollPosition, showLoading, begun.
  destruct (truthy_string (currentFullPath (router w))); reflexivity.
Qed.

(** A navigation that is admitted reaches [executeRouteWithLayout] in
    a state that a calm step away from the first one, and what it does
    after that call leaves the page cache and the record of the
    acquisitions alone. *)
Lemma handleRouteWithTransition_resolution (p : string)
  (route : string * RouteConfig) (w : World) :
  admitted p route w -> departs w ->
  exists w3,
    calm w w3 /\
    quiet (snd (executeRouteWithLayout
                  (snd route) (contextFor p (snd route) (browser w)) w3))
          (snd (handleRouteWithTransition p w)).
Proof.
  intros A D.
  set (out := match currentRoute (router w) with
              | Some current => applyTransitionOut current
              | None => ret tt
              end).
  assert (Ho : fst (out w) = Returns tt).
  { unfold out, departs in *. destruct (currentRoute (router w)); auto. }
  assert (Co : calm w (snd (out w))).
  { unfold out. destruct (currentRoute (router w));
      [apply calm_applyTransitionOut | apply calm_refl]. }
  assert (E : handleRouteWithTransition p w
              = (handleRoute p ;; applyTransitionIn (snd route)) (snd (out w))).
  { unfold handleRouteWithTransition. unfold bindM at 1. cbn [window].
    unfold bindM at 1. cbn [this].
    destruct A as [Hm _].
    destruct (parseUrl p (browser w)) as [pathname search]. cbn [fst] in Hm.
    rewrite Hm. fold out. unfold bindM at 1.
    destruct (out w) as [[[]|e] w1]; [reflexivity | discriminate]. }
  rewrite E. clear E.
  set (w1 := snd (out w)) in *.
  pose proof (calm_admitted w w1 p route Co A) as [Hm [Hg Hw]].
  pose proof (calm_contextFor w w1 p (snd route) Co) as Ec.
  rewrite Ec in Hg, Hw.
  set (context := contextFor p (snd route) (browser w)) in *.
  set (guards := guardsUnder (ctx_path context) (router w1)) in *.
  set (all := middlewares (router w1) ++ middleware (snd route)) in *.
  pose proof (calm_runGuards guards context (resolved p (snd route) w1)) as Cg.
  pose proof (runGuards_run guards context (resolved p (snd route) w1)) as Rg.
  destruct (runGuards guards context (resolved p (snd route) w1))
    as [og w2] eqn:Eg.
  injection Rg as Rg _. rewrite Hg in Rg. subst og. cbn [snd] in Cg.
  pose proof (calm_runMiddlewares all context w2) as Cm.
  pose proof (runMiddlewares_run all context w2) as Rm.
  destruct (runMiddlewares all context w2) as [om w2'] eqn:Em.
  injection Rm as Rm _.
  rewrite (proj2 (reached_all context all Hw)) in Rm. subst om.
  cbn [snd] in Cm.
  exists (snd (update (set_currentRoute
                         (Some (mkCurrentRoute context (snd route)))) w2')).
  split.
  - eapply calm_trans; [exact Co |].
    eapply calm_trans; [| eapply calm_trans; [exact Cg |
                          eapply calm_trans; [exact Cm |]]].
    + unfold resolved.
      split; [split; [reflexivity | intros key; reflexivity]
             | split; reflexivity].
    + apply calm_update. intros r. reflexivity.
  - eapply quiet_trans;
      [| apply (after_bind quiet quiet_refl);
         intros a; apply quiet_applyTransitionIn].
    rewrite (handleRoute_matched p w1 route Hm). rewrite Ec.
    fold context. change (ctx_path context) with (ctx_path context).
    fold guards. unfold bindM at 1. rewrite Eg. cbn [negb].
    fold all. unfold bindM at 1. rewrite Em. cbn [negb].
    unfold bindM at 1. cbn [update fst snd].
    apply (after_bind quiet quiet_refl).
    intros a. apply quiet_after_content.
Qed.

Lemma navigate_resolution (p : string) (options : NavOptions)
  (route : string * RouteConfig) (w : World) :
  entered p options w -> admitted p route w -> departs w ->
  exists w3,
    calm w w3 /\
    quiet (snd (executeRouteWithLayout
                  (snd route) (contextFor p (snd route) (browser w)) w3))
          (exec (navigate p options) w).
Proof.
  intros En A D. unfold exec. rewrite (navigate_enters p options w En).
  pose proof (calm_begun w) as Cb.
  assert (D' : departs (begun w)).
  { unfold departs in *.
    replace (currentRoute (router (begun w))) with (currentRoute (router w))
      by (unfold begun;
          destruct (truthy_string (currentFullPath (router w))); reflexivity).
    destruct (currentRoute (router w)) as [current|]; [| exact I].
    rewrite <- D. apply applyTransitionOut_answer. apply Cb. }
  destruct (handleRouteWithTransition_resolution p route (begun w)
              (calm_admitted _ _ _ _ Cb A) D') as [w3 [C Q]].
  rewrite (calm_contextFor _ _ p (snd route) Cb) in Q.
  exists w3. split; [exact (calm_trans _ _ _ Cb C) |].
  eapply quiet_trans; [exact Q |].
  apply quiet_trans with (b := snd (navigate_body p options (begun w))).
  - unfold navigate_body. apply (after_bind quiet quiet_refl).
    intros a. apply quiet_after_resolution.
  - unfold navigate_finish. apply (after_try quiet quiet_refl).
    intros e. apply quiet_navigate_catch.
Qed.

End ResolutionFacts.

(** ** Navigations to other paths *)

Section MuteFacts.

Import JsValue Router Spec.

Variable p : string.

Lemma mute_refl (w : World) : mute (Some p) w w.
Proof. reflexivity. Qed.

Lemma mute_trans (a b c : World) :
  mute (Some p) a b -> mute (Some p) b c -> mute (Some p) a c.
Proof. unfold mute. congruence. Qed.

Lemma mute_update (f : VelocityRouter -> VelocityRouter) :
  keeps (mute (Some p)) (update f).
Proof. intros w. reflexivity. Qed.

Lemma mute_effect (f : Browser -> Browser) :
  (forall b, trace (f b) = trace b) -> keeps (mute (Some p)) (effect f).
Proof.
  intros H w. unfold mute, acquisitions. cbn [effect snd browser].
  now rewrite H.
Qed.

Lemma mute_emit (e : event) :
  acquires (Some p) e = false -> keeps (mute (Some p)) (emit e).
Proof. intros H w. unfold mute. rewrite acquisitions_emit, H. lia. Qed.

Ltac mute_prim :=
  first
    [ apply mute_update
    | apply mute_effect; intros ?; reflexivity
    | apply mute_emit; reflexivity ].

Ltac mute_auto :=
  repeat first [ mute_prim | keep_step mute_refl mute_trans ].

Lemma mute_getRouteContent (routeConfig : RouteConfig) (context : Context) :
  JsMap.okey_eqb (ctx_fullPath context) (Some p) = false ->
  keeps (mute (Some p)) (getRouteContent routeConfig context).
Proof.
  intros H. unfold getRouteContent.
  apply keeps_bind; [exact mute_trans | apply mute_emit; exact H |].
  intros _. unfold fetchHtmlPage, loadPage, renderComponent. mute_auto.
Qed.

Lemma mute_executeRouteWithLayout (routeConfig : RouteConfig)
  (context : Context) :
  JsMap.okey_eqb (ctx_fullPath context) (Some p) = false ->
  keeps (mute (Some p)) (executeRouteWithLayout routeConfig context).
Proof.
  intros H. pose proof (mute_getRouteContent routeConfig context H).
  unfold executeRouteWithLayout, handleRouteError, applyLayout, replaceContent,
    renderContent.
  mute_auto.
Qed.

Lemma mute_runGuards (guards : list fn) (context : Context) :
  keeps (mute (Some p)) (runGuards guards context).
Proof. induction guards as [|g guards IH]; cbn [runGuards]; mute_auto. Qed.

Lemma mute_runMiddlewares (middlewares : list fn) (context : Context) :
  keeps (mute (Some p)) (runMiddlewares middlewares context).
Proof.
  induction middlewares as [|m middlewares IH]; cbn [runMiddlewares]; mute_auto.
Qed.

Lemma mute_updateMetaTags (entries : list (string * Text)) (context : Context) :
  keeps (mute (Some p)) (updateMetaTags entries context).
Proof.
  induction entries as [|[name content] entries IH]; cbn [updateMetaTags];
    unfold textOf; mute_auto.
Qed.

Lemma mute_handle404 (pathname : string) :
  keeps (mute (Some p)) (handle404 pathname).
Proof.
  pose proof (fun routeConfig =>
                mute_executeRouteWithLayout routeConfig
                  (notFoundContext pathname) eq_refl).
  unfold handle404, renderContent. mute_auto.
Qed.

Lemma mute_handleRoute (fullPath : string) :
  String.eqb fullPath p = false ->
  keeps (mute (Some p)) (handleRoute fullPath).
Proof.
  intros Hne.
  unfold handleRoute, runRouteGuards, updatePageMeta, textOf,
    handleScrollRestoration, emitRouteChange.
  pose proof mute_handle404. pose proof mute_runGuards.
  pose proof mute_runMiddlewares. pose proof mute_updateMetaTags.
  pose proof mute_executeRouteWithLayout.
  mute_auto.
Qed.

Lemma mute_handleRouteWithTransition (fullPath : string) :
  String.eqb fullPath p = false ->
  keeps (mute (Some p)) (handleRouteWithTransition fullPath).
Proof.
  intros Hne. pose proof (mute_handleRoute fullPath Hne).
  unfold handleRouteWithTransition, applyTransitionOut, applyTransitionIn,
    defaultTransitionOut, defaultTransitionIn.
  pose proof mute_handle404.
  mute_auto.
Qed.

(** A navigation to another full path acquires nothing under [p]. *)
Lemma mute_navigate (fullPath : string) (options : NavOptions) :
  String.eqb fullPath p = false ->
  keeps (mute (Some p)) (navigate fullPath options).
Proof.
  intros Hne. pose proof (mute_handleRouteWithTransition fullPath Hne).
  unfold navigate, navigate_begin, navigate_body, navigate_catch,
    saveScrollPosition, showLoading, hideLoading, pushState, replaceState,
    setTimeout, handleNavigationError, renderContent.
  mute_auto.
Qed.

End MuteFacts.

(** ** What a navigation acquires and stores *)

Section AcquireFacts.

Import JsValue Router Spec.

(** A navigation that resolves a route whose content is not taken from
    the page cache acquires the content once. *)
Lemma navigate_acquires (p : string) (options : NavOptions)
  (route : string * RouteConfig) (w : World) :
  entered p options w -> admitted p route w -> departs w ->
  cache (snd route) = false \/
  JsMap.get JsMap.okey_eqb (Some p) (pageCache (router w)) = None ->
  acquisitions (Some p) (exec (navigate p options) w)
  = S (acquisitions (Some p) w).
Proof.
  intros En A D Hm.
  destruct (navigate_resolution p options route w En A D)
    as [w3 [[[Qp Qa] _] [_ Q']]].
  rewrite Q', <- (Qa (Some p)).
  set (context := contextFor p (snd route) (browser w)).
  assert (Hm3 : cache (snd route) = false \/
                JsMap.get JsMap.okey_eqb (ctx_fullPath context)
                          (pageCache (router w3)) = None)
    by (rewrite Qp; exact Hm).
  pose proof (getRouteContent_effect (snd route) context w3) as [_ Ha].
  destruct (getRouteContent (snd route) context w3) as [[c|e] w0] eqn:Hg;
    cbn [snd] in Ha; change (ctx_fullPath context) with (Some p) in Ha.
  - rewrite (executeRouteWithLayout_miss _ _ c w3 w0 Hm3 Hg).
    destruct (quiet_renderCached (snd route) c context
                (if cache (snd route) && truthy c
                 then store (ctx_fullPath context) c w0 else w0)) as [_ ->].
    rewrite <- Ha. now destruct (cache (snd route) && truthy c).
  - rewrite (executeRouteWithLayout_error _ _ e w3 w0 Hm3 Hg).
    destruct (quiet_handleRouteError e context w0) as [_ ->]. exact Ha.
Qed.

(** The page cache after such a navigation, when the content source
    returns [content]. *)
Lemma navigate_stores (p : string) (options : NavOptions)
  (route : string * RouteConfig) (content : value) (w : World) :
  entered p options w -> admitted p route w -> departs w ->
  cache (snd route) = false \/
  JsMap.get JsMap.okey_eqb (Some p) (pageCache (router w)) = None ->
  fst (getRouteContent (snd route) (contextFor p (snd route) (browser w)) w)
  = Returns content ->
  pageCache (router (exec (navigate p options) w))
  = if cache (snd route) && truthy content
    then JsMap.set JsMap.okey_eqb (Some p) content (pageCache (router w))
    else pageCache (router w).
Proof.
  intros En A D Hm Hc.
  destruct (navigate_resolution p options route w En A D)
    as [w3 [[[Qp _] [F _]] [Q' _]]].
  rewrite Q'.
  set (context := contextFor p (snd route) (browser w)) in *.
  assert (Hm3 : cache (snd route) = false \/
                JsMap.get JsMap.okey_eqb (ctx_fullPath context)
                          (pageCache (router w3)) = None)
    by (rewrite Qp; exact Hm).
  pose proof (getRouteContent_effect (snd route) context w3) as [Hp _].
  pose proof (getRouteContent_answer (snd route) context w w3 F) as Hf.
  rewrite Hc in Hf.
  destruct (getRouteContent (snd route) context w3) as [o w0] eqn:Hg.
  cbn [fst snd] in Hf, Hp. subst o.
  rewrite (executeRouteWithLayout_miss _ _ content w3 w0 Hm3 Hg).
  destruct (quiet_renderCached (snd route) content context
              (if cache (snd route) && truthy content
               then store (ctx_fullPath context) content w0 else w0))
    as [-> _].
  destruct (cache (snd route) && truthy content).
  - unfold store. cbn [router pageCache set_pageCache]. now rewrite Hp, Qp.
  - now rewrite Hp, Qp.
Qed.

(** A navigation that resolves a cacheable route under a full path
    whose content is cached leaves the page cache alone and acquires
    nothing. *)
Lemma navigate_hits (p : string) (options : NavOptions)
  (route : string * RouteConfig) (content : value) (w : World) :
  entered p options w -> admitted p route w -> departs w ->
  cache (snd route) = true ->
  cached (Some p) content w ->
  quiet w (exec (navigate p options) w).
Proof.
  intros En A D Hc Hk.
  destruct (navigate_resolution p options route w En A D)
    as [w3 [[Q _] Q']].
  eapply quiet_trans; [exact Q |]. eapply quiet_trans; [| exact Q'].
  set (context := contextFor p (snd route) (browser w)).
  assert (Hk3 : cached (ctx_fullPath context) content w3)
    by (unfold cached in *; destruct Q as [-> _]; exact Hk).
  rewrite (executeRouteWithLayout_hit _ _ content w3 Hc Hk3).
  apply quiet_renderCached.
Qed.

End AcquireFacts.

(** ** Claim C7: a cacheable route is acquired once *)

Section CacheClaim.

Import JsValue Router Spec Examples.

(** C7 as stated fails: the page "/empty" is cacheable and its handler
    returns the empty string; visiting it, then "/other", then it again
    acquires its content twice, and nothing is cached for it. *)
Lemma empty_content_acquired_twice :
  let w :=
    exec (navigate "/empty" go)
      (exec (navigate "/other" go)
         (exec (navigate "/empty" go) (browse emptyPage))) in
  option_map (fun route => cache (snd route)) (matchRoute emptyPage "/empty")
  = Some true /\
  acquisitions (Some "/empty") w = 2 /\
  JsMap.get JsMap.okey_eqb (Some "/empty") (pageCache (router w)) = None.
Proof. repeat split; vm_compute; reflexivity. Qed.

(** C7, amended.  Navigations run one after the other, each to its
    end.  A navigation to the full path [p] that goes past the checks
    of [navigate], resolves a cacheable route, passes its guards and
    the middleware, and finds nothing cached under [p], acquires the
    content once.  When the content source returns a truthy value,
    the navigation stores it, as it is before the layout, in the page
    cache under [p]; no later navigation removes the entry, and a
    navigation to another full path acquires nothing under [p]; a later
    navigation to [p] that resolves a cacheable route leaves the page
    cache alone and acquires nothing at all, under any key: where it
    would acquire, [executeRouteWithLayout] lays out and renders the
    cached content.  When the content source returns a falsy value
    (the empty string, [null], [undefined], [0], [false]), nothing is
    stored, and the next navigation to [p] acquires again. *)
Theorem cached_route_acquired_once (p : string) (options : NavOptions)
  (route : string * RouteConfig) (content : value) (w : World) :
  cache (snd route) = true ->
  entered p options w -> admitted p route w -> departs w ->
  JsMap.get JsMap.okey_eqb (Some p) (pageCache (router w)) = None ->
  fst (getRouteContent (snd route) (contextFor p (snd route) (browser w)) w)
  = Returns content ->
  let key := Some p in
  let w1 := exec (navigate p options) w in
  acquisitions key w1 = S (acquisitions key w) /\
  (truthy content = true ->
   cached key content w1 /\
   (forall p' options' w2,
      cached key content w2 ->
      cached key content (exec (navigate p' options') w2) /\
      (p' <> p ->
       acquisitions key (exec (navigate p' options') w2)
       = acquisitions key w2)) /\
   (forall options' route' w2,
      cached key content w2 ->
      cache (snd route') = true ->
      entered p options' w2 -> admitted p route' w2 -> departs w2 ->
      pageCache (router (exec (navigate p options') w2))
      = pageCache (router w2) /\
      forall key',
        acquisitions key' (exec (navigate p options') w2)
        = acquisitions key' w2) /\
   (forall routeConfig context w3,
      cache routeConfig = true ->
      ctx_fullPath context = key ->
      cached key content w3 ->
      executeRouteWithLayout routeConfig context w3
      = renderCached routeConfig content context w3)) /\
  (truthy content = false ->
   JsMap.get JsMap.okey_eqb key (pageCache (router w1)) = None /\
   (forall options' route' w2,
      JsMap.get JsMap.okey_eqb key (pageCache (router w2)) = None ->
      entered p options' w2 -> admitted p route' w2 -> departs w2 ->
      acquisitions key (exec (navigate p options') w2)
      = S (acquisitions key w2))).
Proof.
  intros Hc En A D Hmiss Hget key w1.
  pose proof (navigate_stores p options route content w En A D
                (or_intror Hmiss) Hget) as Hs.
  fold w1 in Hs. rewrite Hc in Hs. cbn [andb] in Hs.
  split; [| split].
  - exact (navigate_acquires p options route w En A D (or_intror Hmiss)).
  - intros Ht. rewrite Ht in Hs. split; [| split; [| split]].
    + unfold cached. rewrite Hs. apply oget_set_same.
    + intros p' options' w2 Hk. split.
      * exact (grows_navigate p' options' w2 key content Hk).
      * intros Hne. apply (mute_navigate p p' options').
        now apply String.eqb_neq.
    + intros options' route' w2 Hk Hc' En' A' D'.
      exact (navigate_hits p options' route' content w2 En' A' D' Hc' Hk).
    + intros routeConfig context w3 Hc' Hkey Hk.
      apply executeRouteWithLayout_hit; [exact Hc' |]. now rewrite Hkey.
  - intros Hf. rewrite Hf in Hs. split.
    + now rewrite Hs.
    + intros options' route' w2 Hmiss' En' A' D'.
      exact (navigate_acquires p options' route' w2 En' A' D'
               (or_intror Hmiss')).
Qed.

(** The page "/other", with content "Other", is visited, then
    "/empty", then "/other" again. *)
Lemma cached_route_acquired_once_witness :
  let w1 := exec (navigate "/other" go) (browse emptyPage) in
  let w2 := exec (navigate "/empty" go) w1 in
  let w3 := exec (navigate "/other" go) w2 in
  acquisitions (Some "/other") w1 = 1 /\
  cached (Some "/other") (VStr "Other") w1 /\
  acquisitions (Some "/other") w2 = 1 /\
  acquisitions (Some "/other") w3 = 1.
Proof.
  intros w1 w2 w3.
  assert (A : admitted "/other" ("/other", otherConfig) (browse emptyPage))
    by (repeat split; vm_compute; reflexivity).
  destruct (cached_route_acquired_once "/other" go ("/other", otherConfig)
              (VStr "Other") (browse emptyPage) eq_refl
              (conj eq_refl eq_refl) A I eq_refl eq_refl)
    as [H1 [H2 _]].
  destruct (H2 eq_refl) as [Hk [Hother [Hsame _]]].
  destruct (Hother "/empty" go _ Hk) as [Hk2 Ha2].
  assert (A3 : admitted "/other" ("/other", otherConfig) w2)
    by (repeat split; vm_compute; reflexivity).
  assert (E3 : entered "/other" go w2) by (split; vm_compute; reflexivity).
  assert (D3 : departs w2) by (vm_compute; reflexivity).
  destruct (Hsame go ("/other", otherConfig) w2 Hk2 eq_refl E3 A3 D3)
    as [_ Ha3].
  assert (N : "/empty" <> "/other") by discriminate.
  split; [exact H1 |]. split; [exact Hk |].
  split; [exact (eq_trans (Ha2 N) H1) |].
  exact (eq_trans (Ha3 _) (eq_trans (Ha2 N) H1)).
Defined.

End CacheClaim.

(** ** Claim C9: caching is opt-out *)

Section CacheOptionClaim.

Import JsValue Router Spec Examples.

(** C9 as stated fails: the route "/empty" is registered without the
    [cache] option, so it is cacheable, and a navigation commits it;
    but its content is the empty string, and nothing is cached under
    its full path. *)
Lemma omitted_cache_empty_content_not_cached :
  let this' := register "/empty" (page "") noOptions newRouter in
  let w1 := exec (navigate "/empty" go) (browse this') in
  addRoute "/empty" (page "") noOptions newRouter = Some this' /\
  o_cache noOptions = VUndefined /\
  option_map (fun route => cache (snd route)) (matchRoute this' "/empty")
  = Some true /\
  currentFullPath (router w1) = Some "/empty" /\
  app (browser w1) = VStr "" /\
  JsMap.get JsMap.okey_eqb (Some "/empty") (pageCache (router w1)) = None.
Proof. repeat split; vm_compute; reflexivity. Qed.

(** C9, amended.  Caching is opt-out: the route that [addRoute]
    registers is cacheable unless [options.cache] is exactly [false];
    in particular it is cacheable when the option is omitted.  A
    navigation that runs to its end, resolves the route, passes its
    guards and the middleware, and finds nothing cached under its full
    path stores the content that the content source returns, as it is
    before the layout, in the page cache under the full path, provided
    that the route is cacheable and the content is truthy.  Falsy content (the
    empty string, [null], [undefined], [0], [false]) is not stored, and
    with [cache: false] nothing is stored. *)
Theorem addRoute_cache_opt_out (path : string) (handler : Handler)
  (options : Options) (this this' : VelocityRouter) :
  addRoute path handler options this = Some this' ->
  exists routeConfig,
    JsMap.get String.eqb path (routes this') = Some routeConfig /\
    cache routeConfig = negb (is_false (o_cache options)) /\
    (cache routeConfig = false <-> o_cache options = VBool false) /\
    (o_cache options = VUndefined -> cache routeConfig = true) /\
    forall p navOptions content w,
      entered p navOptions w ->
      admitted p (path, routeConfig) w ->
      departs w ->
      JsMap.get JsMap.okey_eqb (Some p) (pageCache (router w)) = None ->
      fst (getRouteContent routeConfig
                           (contextFor p routeConfig (browser w)) w)
      = Returns content ->
      let w1 := exec (navigate p navOptions) w in
      (o_cache options <> VBool false -> truthy content = true ->
       cached (Some p) content w1) /\
      (o_cache options <> VBool false -> truthy content = false ->
       pageCache (router w1) = pageCache (router w)) /\
      (o_cache options = VBool false ->
       pageCache (router w1) = pageCache (router w)).
Proof.
  intros H. destruct (addRoute_stores _ _ _ _ _ H) as [regex [_ Hget]].
  eexists. split; [exact Hget |]. cbn [cache routeConfigOf].
  assert (Hflag : negb (is_false (o_cache options)) = false
                  <-> o_cache options = VBool false).
  { split.
    - intros E. apply negb_false_iff in E.
      destruct (o_cache options) as [| |[|]| | | | |]; try discriminate.
      reflexivity.
    - now intros ->. }
  split; [reflexivity |]. split; [exact Hflag |].
  split; [now intros -> |].
  intros p navOptions content w En A D Hmiss Hc. cbv zeta.
  pose proof (navigate_stores p navOptions _ content w En A D
                (or_intror Hmiss) Hc) as Hs.
  cbn [snd cache routeConfigOf] in Hs.
  split; [| split].
  - intros Hon Ht.
    assert (E : negb (is_false (o_cache options)) = true)
      by (apply not_false_is_true; intros E; apply Hon, Hflag, E).
    rewrite E, Ht in Hs. cbn [andb] in Hs. unfold cached. rewrite Hs.
    apply oget_set_same.
  - intros _ Hf. rewrite Hf, andb_false_r in Hs. exact Hs.
  - intros Hoff. apply Hflag in Hoff. rewrite Hoff in Hs. exact Hs.
Qed.

(** A route registered without options, and a navigation to it. *)
Lemma addRoute_cache_opt_out_witness :
  let this' := register "/a" (page "A") noOptions newRouter in
  addRoute "/a" (page "A") noOptions newRouter = Some this' /\
  cached (Some "/a") (VStr "A") (exec (navigate "/a" go) (browse this')).
Proof.
  intros this'. split; [reflexivity |].
  destruct (addRoute_cache_opt_out "/a" (page "A") noOptions newRouter this'
              eq_refl)
    as [routeConfig [Hget [_ [_ [_ Hnav]]]]].
  vm_compute in Hget. injection Hget as <-.
  refine (proj1 (Hnav "/a" go (VStr "A") (browse this') _ _ _ _ _) _ _).
  - split; reflexivity.
  - repeat split; vm_compute; reflexivity.
  - exact I.
  - reflexivity.
  - reflexivity.
  - discriminate.
  - reflexivity.
Defined.

End CacheOptionClaim.
